(** * BaseService: SSE channel registry, broadcast, pagination, filters, slugs

    A shallow embedding of [src/core/BaseService.ts].  The class is a generic
    CRUD skeleton over a Prisma model delegate with a hand-rolled
    Server-Sent-Events fan-out keyed by channel name.

    Conventions of the embedding
    - JavaScript numbers are modelled by [Z]: the counters, page numbers, sizes
      and identifiers of this file are integers in the safe range, where the
      double arithmetic of the runtime is exact.
    - A [Response] is a mutable object shared by reference; the registry
      stores handles (object identities) and the objects live in a store
      [Handle -> Response].
    - An exception is an explicit [Throw] outcome.
    - The methods are [async]; they are modelled as run to completion, one
      after the other (the host event loop never runs two of them in
      parallel). *)

From Stdlib Require Import ZArith Lia Ascii String QArith Qround.
From stdpp Require Import gmap strings list fin_maps functions pretty.

Set Warnings "-register-all".
Local Open Scope string_scope.
Local Open Scope list_scope.

(** ** Outcomes of a call that may throw *)

Inductive completion (E A : Type) : Type :=
| Normal (a : A)
| Throw (e : E).
Arguments Normal {E A} a.
Arguments Throw {E A} e.

(** ** JavaScript values *)

(** The values that flow through the service: query parameters, filter
    fragments, rows and event payloads.  A [Date] is represented by its
    ISO-8601 rendering (what [toISOString] and [toJSON] return); an object is
    the list of its own enumerable properties in enumeration order; a
    function is known by a name, the functions that occur as values being
    the filter handlers, named after the key they are registered under. *)
Inductive value : Type :=
| VUndefined
| VNull
| VBool (b : bool)
| VNum (n : Z)
| VBigInt (n : Z)
| VStr (s : string)
| VDate (iso : string)
| VArr (xs : list value)
| VObj (props : list (string * value))
| VFun (name : string).

Definition obj : Type := list (string * value).

Definition nl : string := String "010"%char EmptyString.
Definition dq : string := String "034"%char EmptyString.
Definition bs : string := String "092"%char EmptyString.

(** *** JSON.stringify *)

Definition hex_digit (n : N) : ascii :=
  match n with
  | 0 => "0" | 1 => "1" | 2 => "2" | 3 => "3" | 4 => "4" | 5 => "5"
  | 6 => "6" | 7 => "7" | 8 => "8" | 9 => "9" | 10 => "a" | 11 => "b"
  | 12 => "c" | 13 => "d" | 14 => "e" | _ => "f"
  end%N%char.

(** QuoteJSONString, one code unit: the two-character escapes, [\u00xx] for
    the other control characters, the unit itself otherwise. *)
Definition escape_char (c : ascii) : string :=
  let n := N_of_ascii c in
  if (n =? 34)%N then bs +:+ dq
  else if (n =? 92)%N then bs +:+ bs
  else if (n =? 8)%N then bs +:+ "b"
  else if (n =? 12)%N then bs +:+ "f"
  else if (n =? 10)%N then bs +:+ "n"
  else if (n =? 13)%N then bs +:+ "r"
  else if (n =? 9)%N then bs +:+ "t"
  else if (n <? 32)%N then
    bs +:+ "u00" +:+ String (hex_digit (n / 16)) (String (hex_digit (n mod 16)) EmptyString)
  else String c EmptyString.

Fixpoint escape (s : string) : string :=
  match s with
  | EmptyString => EmptyString
  | String c s' => escape_char c +:+ escape s'
  end.

Definition quote (s : string) : string := dq +:+ escape s +:+ dq.

Fixpoint join (sep : string) (parts : list string) : string :=
  match parts with
  | [] => EmptyString
  | [p] => p
  | p :: ps => p +:+ sep +:+ join sep ps
  end.

Inductive TypeError : Type := CannotSerializeBigInt.

(** [JSON.stringify v]: [Normal None] is the result [undefined], which is
    also the result for a function, [Throw _] the TypeError raised on a
    BigInt.  In an array [undefined] is rendered [null]; in an object a
    property whose value is [undefined] is left out. *)
Fixpoint JSON_stringify (v : value) : completion TypeError (option string) :=
  match v with
  | VUndefined | VFun _ => Normal None
  | VNull => Normal (Some "null")
  | VBool b => Normal (Some (if b then "true" else "false"))
  | VNum n => Normal (Some (pretty n))
  | VBigInt _ => Throw CannotSerializeBigInt
  | VStr s => Normal (Some (quote s))
  | VDate iso => Normal (Some (quote iso))
  | VArr xs =>
      let elements :=
        (fix elements (xs : list value) : completion TypeError (list string) :=
           match xs with
           | [] => Normal []
           | x :: xs' =>
               match JSON_stringify x with
               | Throw e => Throw e
               | Normal o =>
                   match elements xs' with
                   | Throw e => Throw e
                   | Normal r => Normal (default "null" o :: r)
                   end
               end
           end) in
      match elements xs with
      | Throw e => Throw e
      | Normal parts => Normal (Some ("[" +:+ join "," parts +:+ "]"))
      end
  | VObj props =>
      let members :=
        (fix members (ps : list (string * value)) : completion TypeError (list string) :=
           match ps with
           | [] => Normal []
           | (k, x) :: ps' =>
               match JSON_stringify x with
               | Throw e => Throw e
               | Normal o =>
                   match members ps' with
                   | Throw e => Throw e
                   | Normal r =>
                       match o with
                       | None => Normal r
                       | Some s => Normal ((quote k +:+ ":" +:+ s) :: r)
                       end
                   end
               end
           end) in
      match members props with
      | Throw e => Throw e
      | Normal parts => Normal (Some ("{" +:+ join "," parts +:+ "}"))
      end
  end.

(** What a template literal [`${x}`] makes of the result of
    [JSON.stringify]. *)
Definition template_of (o : option string) : string := default "undefined" o.

(** ** Response streams *)

Definition Handle : Type := nat.

(** The part of an express [Response] the service looks at: the two liveness
    flags it reads, whether [write] raises, the chunks written so far, and
    the listeners the service has attached with [on]: the event name and the
    channel the listener unsubscribes the response from. *)
Record Response : Type := mkResponse {
  destroyed : bool;
  writableEnded : bool;
  writeFails : bool;
  written : list string;
  listeners : list (string * string)
}.

Abbreviation Streams := (Handle -> Response).

Inductive WriteError : Type := StreamWriteError.

Definition push_chunk (chunk : string) (r : Response) : Response :=
  {| destroyed := destroyed r; writableEnded := writableEnded r;
     writeFails := writeFails r; written := written r ++ [chunk];
     listeners := listeners r |}.

(** [client.write(chunk)] *)
Definition write (client : Handle) (chunk : string) (w : Streams)
  : completion WriteError Streams :=
  if writeFails (w client) then Throw StreamWriteError
  else Normal (alter (push_chunk chunk) client w).

(** The bytes a stream has received. *)
Definition received (w : Streams) (client : Handle) : string :=
  foldr String.append EmptyString (written (w client)).

(** ** Service options *)

Record BaseServiceOptions : Type := mkOptions {
  enableSoftDelete : bool;
  enableAuditFields : bool;
  enableSSE : bool;
  defaultPageSize : Z;
  maxPageSize : Z
}.

(** The defaults of the constructor. *)
Definition defaultOptions : BaseServiceOptions :=
  {| enableSoftDelete := false; enableAuditFields := false; enableSSE := false;
     defaultPageSize := 10; maxPageSize := 1000 |}.

(** ** SSE registry *)

(** [sseClients : Map<string, Response[]>] together with the response
    objects the handles denote. *)
Record SSE : Type := mkSSE {
  sseClients : gmap string (list Handle);
  streams : Streams
}.

Definition clientsOf (channel : string) (reg : gmap string (list Handle)) : list Handle :=
  default [] (reg !! channel).

(** [clients.indexOf(client)] *)
Definition indexOf (client : Handle) (clients : list Handle) : option nat :=
  fst <$> list_find (λ c, c = client) clients.

(** [client.on(eventName, () => this.removeSSEClient(channel, client))] *)
Definition on (eventName channel : string) (r : Response) : Response :=
  {| destroyed := destroyed r; writableEnded := writableEnded r;
     writeFails := writeFails r; written := written r;
     listeners := listeners r ++ [(eventName, channel)] |}.

Definition addSSEClient (o : BaseServiceOptions) (channel : string) (client : Handle)
    (s : SSE) : SSE :=
  if negb (enableSSE o) then s
  else
    {| sseClients := <[channel := clientsOf channel (sseClients s) ++ [client]]> (sseClients s);
       streams := alter (on "error" channel) client
                    (alter (on "close" channel) client (streams s)) |}.

Definition removeSSEClient (o : BaseServiceOptions) (channel : string) (client : Handle)
    (reg : gmap string (list Handle)) : gmap string (list Handle) :=
  if negb (enableSSE o) then reg
  else
    let clients := clientsOf channel reg in
    match indexOf client clients with
    | None => reg
    | Some index =>
        let clients := delete index clients in
        if (length clients =? 0)%nat then delete channel reg
        else <[channel := clients]> reg
    end.

(** The response emits [eventName]: the listeners attached for it run in the
    order they were attached. *)
Definition emit (o : BaseServiceOptions) (eventName : string) (client : Handle) (s : SSE)
  : SSE :=
  {| sseClients :=
       foldl (λ reg l, if String.eqb l.1 eventName then removeSSEClient o l.2 client reg
                       else reg)
             (sseClients s) (listeners (streams s client));
     streams := streams s |}.

Record SSEEvent : Type := mkEvent {
  event : string;
  data : value;
  timestamp : string;
  channel : string
}.

(** The body of the [try] of [broadcastToChannel]: two writes, the payload
    serialized between them. *)
Definition sendFrame (ev : SSEEvent) (client : Handle) (w : Streams)
  : Streams * bool :=
  match write client ("event: " +:+ event ev +:+ nl) w with
  | Throw _ => (w, false)
  | Normal w1 =>
      match JSON_stringify (data ev) with
      | Throw _ => (w1, false)
      | Normal json =>
          match write client ("data: " +:+ template_of json +:+ nl +:+ nl) w1 with
          | Throw _ => (w1, false)
          | Normal w2 => (w2, true)
          end
      end
  end.

(** [client.destroyed || client.writableEnded] *)
Definition isDead (w : Streams) (client : Handle) : bool :=
  destroyed (w client) || writableEnded (w client).

(** One turn of [clients.forEach]: the state is the streams and the
    [deadClients] array. *)
Definition broadcastStep (ev : SSEEvent) (acc : Streams * list Handle) (client : Handle)
  : Streams * list Handle :=
  let '(w, deadClients) := acc in
  if isDead w client then (w, deadClients ++ [client])
  else
    match sendFrame ev client w with
    | (w', true) => (w', deadClients)
    | (w', false) => (w', deadClients ++ [client])
    end.

(** [deadClients.forEach(deadClient => this.removeSSEClient(channel, deadClient))] *)
Definition removeAll (o : BaseServiceOptions) (channel : string)
    (reg : gmap string (list Handle)) (deadClients : list Handle) : gmap string (list Handle) :=
  foldl (λ reg deadClient, removeSSEClient o channel deadClient reg) reg deadClients.

Definition broadcastToChannel (o : BaseServiceOptions) (now : string)
    (channel eventType : string) (data : value) (s : SSE) : SSE :=
  if negb (enableSSE o) then s
  else
    let ev := {| event := eventType; data := data; timestamp := now; channel := channel |} in
    let clients := clientsOf channel (sseClients s) in
    let '(w, deadClients) := foldl (broadcastStep ev) (streams s, []) clients in
    {| sseClients := removeAll o channel (sseClients s) deadClients; streams := w |}.

Definition broadcastToChannels (o : BaseServiceOptions) (now : string)
    (channels : list string) (eventType : string) (data : value) (s : SSE) : SSE :=
  foldl (λ s channel, broadcastToChannel o now channel eventType data s) s channels.

Definition getChannelClientCount (channel : string) (reg : gmap string (list Handle)) : nat :=
  length (clientsOf channel reg).

(** [Array.from(this.sseClients.keys())]; the order of the keys is not
    modelled. *)
Definition getActiveChannels (reg : gmap string (list Handle)) : list string :=
  (map_to_list reg).*1.

Definition getTotalClientCount (reg : gmap string (list Handle)) : nat :=
  map_fold (λ _ clients total, total + length clients)%nat 0%nat reg.

(** [clients.splice(clients.indexOf(client), 1)] when the index is not -1 *)
Definition spliceOut (clients : list Handle) (client : Handle) : list Handle :=
  match indexOf client clients with
  | Some index => delete index clients
  | None => clients
  end.

(** [cleanupDeadConnections], the sweep run every minute: in every channel
    the dead handles are collected and spliced out one by one, and the
    channels left empty are deleted afterwards. *)
Definition cleanupDeadConnections (o : BaseServiceOptions) (s : SSE) : SSE :=
  if negb (enableSSE o) then s
  else
    {| sseClients :=
         omap (λ clients,
                 let deadClients := List.filter (isDead (streams s)) clients in
                 let clients := foldl spliceOut clients deadClients in
                 if (length clients =? 0)%nat then None else Some clients)
              (sseClients s);
       streams := streams s |}.

(** ** Own properties of objects *)

(** [o[key]]: the value of the own property, [undefined] when there is
    none. *)
Fixpoint obj_get (key : string) (o : obj) : value :=
  match o with
  | [] => VUndefined
  | (k, v) :: o' => if String.eqb k key then v else obj_get key o'
  end.

Fixpoint obj_has (key : string) (o : obj) : bool :=
  match o with
  | [] => false
  | (k, _) :: o' => String.eqb k key || obj_has key o'
  end.

(** [o[key] = v]: an existing property keeps its place in the enumeration
    order, a new one goes last (property names are names such as [price] or
    [gte]; names that are array indices, which the runtime enumerates first,
    are not told apart). *)
Fixpoint obj_set (key : string) (v : value) (o : obj) : obj :=
  match o with
  | [] => [(key, v)]
  | (k, x) :: o' => if String.eqb k key then (k, v) :: o' else (k, x) :: obj_set key v o'
  end.

(** [Object.keys(o)] *)
Definition obj_keys (o : obj) : list string := o.*1.

(** ToBoolean *)
Definition truthy (v : value) : bool :=
  match v with
  | VUndefined | VNull => false
  | VBool b => b
  | VNum n | VBigInt n => negb (n =? 0)%Z
  | VStr s => negb (String.eqb s EmptyString)
  | VDate _ | VArr _ | VObj _ | VFun _ => true
  end.

Fixpoint indexed {A} (f : A -> value) (i : nat) (xs : list A) : obj :=
  match xs with
  | [] => []
  | x :: xs' => (pretty i, f x) :: indexed f (S i) xs'
  end.

(** The own enumerable properties a spread [...v] copies: the properties of
    an object, the elements of an array and the characters of a string under
    their indices, nothing for the other values. *)
Definition own_properties (v : value) : obj :=
  match v with
  | VObj props => props
  | VArr xs => indexed id 0 xs
  | VStr s => indexed (λ c, VStr (String c EmptyString)) 0 (list_ascii_of_string s)
  | _ => []
  end.

(** [{...target, ...source}] continued: copy the properties of [source]
    onto [target], one after the other. *)
Definition assign (target source : obj) : obj :=
  foldl (λ acc kv, obj_set kv.1 kv.2 acc) target source.

(** [{ ...a, ...b }] *)
Definition spread2 (a b : value) : obj :=
  assign (assign [] (own_properties a)) (own_properties b).

(** [typeof v === 'object' && v !== null && !Array.isArray(v)] *)
Definition is_nonarray_object (v : value) : bool :=
  match v with
  | VObj _ | VDate _ => true
  | _ => false
  end.

(** ** Filters *)

Abbreviation FilterHandler := (value -> obj).

(** One turn of the loop of [mergeFilters].  The assignments to
    [current[key]] create or overwrite an own property, which is what they
    do for every key but [__proto__]: assigned on an object that has no own
    property of that name, it reaches the accessor of [Object.prototype]
    and replaces the prototype instead.  A fragment with an own property
    [__proto__] is outside this model. *)
Definition mergeStep (addition : obj) (current : obj) (key : string) : obj :=
  if is_nonarray_object (obj_get key addition) then
    let cur := obj_get key current in
    let current1 := obj_set key (if truthy cur then cur else VObj []) current in
    obj_set key (VObj (spread2 (obj_get key current1) (obj_get key addition))) current1
  else obj_set key (obj_get key addition) current.

Definition mergeFilters (current addition : obj) : obj :=
  foldl (mergeStep addition) current (obj_keys addition).

(** [filterMap]: a plain object, given by its own properties in enumeration
    order (the keys are distinct); its prototype is [Object.prototype]. *)
Abbreviation FilterMap := (list (string * FilterHandler)).

(** The own property [key] of [filterMap]. *)
Fixpoint own_handler (filterMap : FilterMap) (key : string) : option FilterHandler :=
  match filterMap with
  | [] => None
  | (k, handler) :: rest => if String.eqb k key then Some handler else own_handler rest key
  end.

(** The properties of [Object.prototype], which every plain object
    inherits. *)
Inductive ObjectPrototypeProperty : Type :=
| Object_constructor
| Object_defineGetter
| Object_defineSetter
| Object_hasOwnProperty
| Object_lookupGetter
| Object_lookupSetter
| Object_isPrototypeOf
| Object_propertyIsEnumerable
| Object_toString
| Object_valueOf
| Object_proto
| Object_toLocaleString.

Definition Object_prototype (key : string) : option ObjectPrototypeProperty :=
  if String.eqb key "constructor" then Some Object_constructor
  else if String.eqb key "__defineGetter__" then Some Object_defineGetter
  else if String.eqb key "__defineSetter__" then Some Object_defineSetter
  else if String.eqb key "hasOwnProperty" then Some Object_hasOwnProperty
  else if String.eqb key "__lookupGetter__" then Some Object_lookupGetter
  else if String.eqb key "__lookupSetter__" then Some Object_lookupSetter
  else if String.eqb key "isPrototypeOf" then Some Object_isPrototypeOf
  else if String.eqb key "propertyIsEnumerable" then Some Object_propertyIsEnumerable
  else if String.eqb key "toString" then Some Object_toString
  else if String.eqb key "valueOf" then Some Object_valueOf
  else if String.eqb key "__proto__" then Some Object_proto
  else if String.eqb key "toLocaleString" then Some Object_toLocaleString
  else None.

(** What [this.filterMap[key]] evaluates to: the own property, else the
    property inherited from [Object.prototype], else [undefined].  The first
    two are truthy. *)
Inductive FilterMapProperty : Type :=
| OwnHandler (handler : FilterHandler)
| Inherited (p : ObjectPrototypeProperty)
| NoProperty.

Definition filterMap_get (filterMap : FilterMap) (key : string) : FilterMapProperty :=
  match own_handler filterMap key with
  | Some handler => OwnHandler handler
  | None =>
      match Object_prototype key with
      | Some p => Inherited p
      | None => NoProperty
      end
  end.

(** The TypeErrors a call [this.filterMap[key](value)] and the merge of what
    it returns can raise. *)
Inductive FilterTypeError : Type :=
| NotAFunction              (* the value of [__proto__] is called *)
| ExpectingFunction         (* [__defineGetter__], [__defineSetter__]: no function given *)
| CannotConvertToPrimitive  (* ToPropertyKey of an object that hides [toString] *)
| CannotConvertToObject.    (* [Object.keys(undefined)] *)

(** ToPropertyKey raises on [v]: an object with an own property [toString]
    has no conversion to a string (the property is no function, or is a
    handler, which returns an object, and [valueOf] returns an object too);
    an array is joined, so it raises when one of its elements does. *)
Fixpoint propertyKeyRaises (v : value) : bool :=
  match v with
  | VObj props => obj_has "toString" props
  | VArr xs => existsb propertyKeyRaises xs
  | _ => false
  end.

(** ToPropertyKey of [v] is ["__proto__"]: the string itself, or an array
    whose one element converts to it. *)
Fixpoint keyIsProto (v : value) : bool :=
  match v with
  | VStr s => String.eqb s "__proto__"
  | VArr [x] => keyIsProto x
  | _ => false
  end.

(** The call [this.filterMap[key](value)] for an inherited property, with
    [filterMap] as [this]: the own enumerable properties of what it returns,
    which is what [mergeFilters] reads of its second argument through
    [Object.keys] and indexing, or the TypeError raised by the call or by
    [Object.keys] on [undefined].
    - [constructor] is [Object]: [Object(value)] is the value itself when it
      is an object, an array, a Date or a function, a wrapper with the same
      indexed characters for a string, a wrapper without properties for the
      other primitives, and [{}] for [null];
    - [toString] returns the string ["[object Object]"];
      [toLocaleString] calls [this.toString()], the own handler when there
      is one;
    - [valueOf] returns [filterMap] itself, whose properties are the
      handlers;
    - [hasOwnProperty], [propertyIsEnumerable] and [isPrototypeOf] return a
      boolean, the first two after ToPropertyKey of the value;
    - [__lookupGetter__] and [__lookupSetter__] return the accessor function
      of [__proto__] when that is the key looked up and no own property
      hides it, [undefined] otherwise;
    - [__defineGetter__] and [__defineSetter__] are not given a function;
    - [__proto__] is [Object.prototype], which is no function. *)
Definition callInherited (p : ObjectPrototypeProperty) (filterMap : FilterMap) (value : value)
  : completion FilterTypeError obj :=
  match p with
  | Object_constructor => Normal (own_properties value)
  | Object_toString => Normal (own_properties (VStr "[object Object]"))
  | Object_toLocaleString =>
      match own_handler filterMap "toString" with
      | Some handler => Normal (handler VUndefined)
      | None => Normal (own_properties (VStr "[object Object]"))
      end
  | Object_valueOf => Normal ((λ kh, (kh.1, VFun kh.1)) <$> filterMap)
  | Object_isPrototypeOf => Normal []
  | Object_hasOwnProperty | Object_propertyIsEnumerable =>
      if propertyKeyRaises value then Throw CannotConvertToPrimitive else Normal []
  | Object_lookupGetter | Object_lookupSetter =>
      if propertyKeyRaises value then Throw CannotConvertToPrimitive
      else if keyIsProto value && negb (bool_decide (is_Some (own_handler filterMap "__proto__")))
      then Normal []
      else Throw CannotConvertToObject
  | Object_defineGetter | Object_defineSetter => Throw ExpectingFunction
  | Object_proto => Throw NotAFunction
  end.

(** One turn of the [forEach] of [applyFilters]. *)
Definition applyEntry (filterMap : FilterMap) (filters : obj) (kv : string * value)
  : completion FilterTypeError obj :=
  match kv.2 with
  | VUndefined => Normal filters
  | value =>
      match filterMap_get filterMap kv.1 with
      | NoProperty => Normal filters
      | OwnHandler handler => Normal (mergeFilters filters (handler value))
      | Inherited p =>
          match callInherited p filterMap value with
          | Throw e => Throw e
          | Normal addition => Normal (mergeFilters filters addition)
          end
      end
  end.

(** [applyFilters]: a TypeError raised in a turn ends the [forEach] and is
    the outcome of the call. *)
Definition applyFilters (filterMap : FilterMap) (query : obj) : completion FilterTypeError obj :=
  foldl (λ acc kv,
           match acc with
           | Throw e => Throw e
           | Normal filters => applyEntry filterMap filters kv
           end) (Normal []) query.

(** ** Pagination *)

(** A number argument as a caller can pass it. *)
Inductive number : Type :=
| NaN
| Num (n : Z).

(** [Partial<PaginationOptions>]: each field may be missing. *)
Record PartialPagination : Type := mkPartial {
  page_in : option number;
  limit_in : option number
}.

Record PaginationOptions : Type := mkPagination {
  page : Z;
  limit : Z;
  offset : Z
}.

(** [x || d] on a number argument: [undefined], [NaN] and [0] are falsy. *)
Definition or_default (x : option number) (d : Z) : Z :=
  match x with
  | Some (Num n) => if (n =? 0)%Z then d else n
  | _ => d
  end.

Definition normalizePagination (o : BaseServiceOptions) (pagination : option PartialPagination)
  : PaginationOptions :=
  let page := Z.max 1 (or_default (pagination ≫= page_in) 1) in
  let limit := Z.min (maxPageSize o)
                 (Z.max 1 (or_default (pagination ≫= limit_in) (defaultPageSize o))) in
  let offset := ((page - 1) * limit)%Z in
  {| page := page; limit := limit; offset := offset |}.

(** [Math.ceil(a / b)] for integers [a] and [b <> 0]. *)
Definition ceil_div (a b : Z) : Z := (- ((- a) / b))%Z.

Record PaginationResult (T : Type) : Type := mkResult {
  result_data : list T;
  total : Z;
  result_page : Z;
  result_limit : Z;
  totalPages : Z;
  hasNext : bool;
  hasPrevious : bool
}.
Arguments mkResult {T}.
Arguments result_data {T}.
Arguments total {T}.
Arguments result_page {T}.
Arguments result_limit {T}.
Arguments totalPages {T}.
Arguments hasNext {T}.
Arguments hasPrevious {T}.

Definition buildPaginationResult {T} (data : list T) (total : Z) (pagination : PaginationOptions)
  : PaginationResult T :=
  let totalPages := ceil_div total (limit pagination) in
  {| result_data := data;
     total := total;
     result_page := page pagination;
     result_limit := limit pagination;
     totalPages := totalPages;
     hasNext := (page pagination <? totalPages)%Z;
     hasPrevious := (page pagination >? 1)%Z |}.

(** ** Errors *)

(** An exception object that is not one of the service's own errors: a
    Prisma client error or a runtime TypeError, seen through the two
    properties the service reads. *)
Record JsError : Type := mkJsError {
  code : option string;
  message : string
}.

(** The two classes imported from [errors/AppError]. *)
Inductive AppError : Type :=
| NotFoundError (msg : string)
| DatabaseError (msg : string) (details : option obj).

Inductive Thrown : Type :=
| Foreign (e : JsError)
| Domain (e : AppError).

(** The surroundings of the service: [process.env.NODE_ENV], the clock read
    by [new Date()], and the [code] property instances of the [AppError]
    classes carry (the classes are declared outside this file). *)
Record Host : Type := mkHost {
  NODE_ENV : option string;
  now : string;
  appErrorCode : AppError -> option string
}.

Definition appErrorMessage (e : AppError) : string :=
  match e with
  | NotFoundError msg => msg
  | DatabaseError msg _ => msg
  end.

(** [error.code] *)
Definition thrownCode (h : Host) (t : Thrown) : option string :=
  match t with
  | Foreign e => code e
  | Domain e => appErrorCode h e
  end.

(** [error.message] *)
Definition thrownMessage (t : Thrown) : string :=
  match t with
  | Foreign e => message e
  | Domain e => appErrorMessage e
  end.

Definition lower_char (c : ascii) : ascii :=
  let n := N_of_ascii c in
  if (65 <=? n)%N && (n <=? 90)%N then ascii_of_N (n + 32) else c.

(** [toLowerCase] on ASCII letters. *)
Fixpoint toLowerCase (s : string) : string :=
  match s with
  | EmptyString => EmptyString
  | String c s' => String (lower_char c) (toLowerCase s')
  end.

Record Service : Type := mkService {
  modelName : string;
  options : BaseServiceOptions;
  filterMap : FilterMap
}.

(** [operationMessages[operation] || `Database operation failed`] *)
Definition safeMessage (this : Service) (operation : string) : string :=
  let name := toLowerCase (modelName this) in
  if String.eqb operation "findMany" then "Failed to retrieve " +:+ name +:+ " list"
  else if String.eqb operation "findById" then "Failed to retrieve " +:+ name
  else if String.eqb operation "findOne" then "Failed to retrieve " +:+ name
  else if String.eqb operation "create" then "Failed to create " +:+ name
  else if String.eqb operation "updateById" then "Failed to update " +:+ name
  else if String.eqb operation "deleteById" then "Failed to delete " +:+ name
  else if String.eqb operation "softDelete" then "Failed to delete " +:+ name
  else if String.eqb operation "transaction" then "Database transaction failed"
  else "Database operation failed".

Definition optString (o : option string) : value :=
  match o with
  | Some s => VStr s
  | None => VUndefined
  end.

(** The error [handleDatabaseError] throws (its log line is not modelled). *)
Definition handleDatabaseError (this : Service) (h : Host) (error : Thrown) (operation : string)
  : AppError :=
  if bool_decide (thrownCode h error = Some "P2025") then
    NotFoundError (modelName this +:+ " not found")
  else
    DatabaseError (safeMessage this operation)
      (if bool_decide (NODE_ENV h = Some "development")
       then Some [("originalError", VStr (thrownMessage error));
                  ("code", optString (thrownCode h error))]
       else None).

(** ** The model delegate *)

Record FindManyArgs : Type := mkFindMany {
  fm_where : value;
  fm_skip : option Z;
  fm_take : option Z;
  fm_orderBy : value;
  fm_include : value;
  fm_omit : value;
  fm_select : value
}.

(** What the abstract [getModel()] returns: the Prisma delegate of one model,
    over a store state [DB].  A call either resolves or rejects with the
    client's error; the reads leave the store as it is. *)
Class ModelDelegate (DB : Type) : Type := {
  model_create : value -> value -> DB -> completion JsError value * DB;
  model_update : value -> value -> value -> DB -> completion JsError value * DB;
  model_delete : value -> DB -> completion JsError value * DB;
  model_findMany : FindManyArgs -> DB -> completion JsError (list value);
  model_findFirst : value -> value -> value -> DB -> completion JsError value;
  model_count : value -> DB -> completion JsError Z
}.

Record World (DB : Type) : Type := mkWorld {
  db : DB;
  sse : SSE
}.
Arguments mkWorld {DB}.
Arguments db {DB}.
Arguments sse {DB}.

(** ** CRUD *)

Definition buildWhereClause (this : Service) (filters : value) : value :=
  if enableSoftDelete (options this)
  then VObj (obj_set "deletedAt" VNull (assign [] (own_properties filters)))
  else filters.

Definition prepareCreateData (this : Service) (h : Host) (data : value) : value :=
  if enableAuditFields (options this)
  then VObj (obj_set "updatedAt" (VDate (now h))
               (obj_set "createdAt" (VDate (now h)) (assign [] (own_properties data))))
  else data.

Definition prepareUpdateData (this : Service) (h : Host) (data : value) : value :=
  if enableAuditFields (options this)
  then VObj (obj_set "updatedAt" (VDate (now h)) (assign [] (own_properties data)))
  else data.

(** [result.id]: a TypeError on [null] and [undefined]. *)
Definition result_id (result : value) : completion JsError value :=
  match result with
  | VUndefined | VNull =>
      Throw {| code := None; message := "Cannot read properties of null (reading 'id')" |}
  | VObj props => Normal (obj_get "id" props)
  | _ => Normal VUndefined
  end.

Definition eventPayload (this : Service) (id result : value) : value :=
  VObj [("id", id); ("model", VStr (modelName this)); ("data", result)].

(** [if (broadcastChannels && this.options.enableSSE) broadcastToChannels(...)] *)
Definition broadcastIfRequested (this : Service) (h : Host)
    (broadcastChannels : option (list string)) (eventType : string) (payload : value)
    (s : SSE) : SSE :=
  match broadcastChannels with
  | Some channels =>
      if enableSSE (options this)
      then broadcastToChannels (options this) (now h) channels eventType payload s
      else s
  | None => s
  end.

Section CRUD.
Context {DB : Type} `{ModelDelegate DB}.
Variable this : Service.
Variable h : Host.

Definition fail {A} (error : Thrown) (operation : string) (w : World DB)
  : completion AppError A * World DB :=
  (Throw (handleDatabaseError this h error operation), w).

Definition create (data include : value) (broadcastChannels : option (list string))
    (w : World DB) : completion AppError value * World DB :=
  let createData := prepareCreateData this h data in
  match model_create createData include (db w) with
  | (Throw e, db') => fail (Foreign e) "create" (mkWorld db' (sse w))
  | (Normal result, db') =>
      if enableSSE (options this) then
        match result_id result with
        | Throw e => fail (Foreign e) "create" (mkWorld db' (sse w))
        | Normal id =>
            let payload := eventPayload this id result in
            let s1 := broadcastIfRequested this h broadcastChannels "created" payload (sse w) in
            let s2 := broadcastToChannel (options this) (now h) "*" "created" payload s1 in
            (Normal result, mkWorld db' s2)
        end
      else (Normal result, mkWorld db' (sse w))
  end.

Definition updateById (id data include : value) (broadcastChannels : option (list string))
    (w : World DB) : completion AppError value * World DB :=
  let updateData := prepareUpdateData this h data in
  match model_update (VObj [("id", id)]) updateData include (db w) with
  | (Throw e, db') => fail (Foreign e) "updateById" (mkWorld db' (sse w))
  | (Normal result, db') =>
      match broadcastChannels with
      | Some _ =>
          if enableSSE (options this) then
            match result_id result with
            | Throw e => fail (Foreign e) "updateById" (mkWorld db' (sse w))
            | Normal rid =>
                let payload := eventPayload this rid result in
                (Normal result,
                 mkWorld db' (broadcastIfRequested this h broadcastChannels "updated" payload (sse w)))
            end
          else (Normal result, mkWorld db' (sse w))
      | None => (Normal result, mkWorld db' (sse w))
      end
  end.

Definition softDelete (id : value) (w : World DB) : completion AppError value * World DB :=
  let data := VObj [("deletedAt", VDate (now h)); ("isDeleted", VBool true)] in
  match model_update (VObj [("id", id)]) data VUndefined (db w) with
  | (Throw e, db') => fail (Foreign e) "softDelete" (mkWorld db' (sse w))
  | (Normal result, db') => (Normal result, mkWorld db' (sse w))
  end.

Definition deleteById (id : value) (broadcastChannels : option (list string))
    (w : World DB) : completion AppError value * World DB :=
  let attempt : completion Thrown value * World DB :=
    if enableSoftDelete (options this) then
      match softDelete id w with
      | (Throw e, w') => (Throw (Domain e), w')
      | (Normal result, w') => (Normal result, w')
      end
    else
      match model_delete (VObj [("id", id)]) (db w) with
      | (Throw e, db') => (Throw (Foreign e), mkWorld db' (sse w))
      | (Normal result, db') => (Normal result, mkWorld db' (sse w))
      end in
  match attempt with
  | (Throw error, w') => fail error "deleteById" w'
  | (Normal result, w') =>
      let payload := eventPayload this id result in
      (Normal result,
       mkWorld (db w') (broadcastIfRequested this h broadcastChannels "deleted" payload (sse w')))
  end.

Definition findById (id include omit : value) (w : World DB) : completion AppError value :=
  let whereClause := buildWhereClause this (VObj [("id", id)]) in
  match model_findFirst whereClause include omit (db w) with
  | Throw e => Throw (handleDatabaseError this h (Foreign e) "findById")
  | Normal result => Normal result
  end.

Definition findOne (filters include omit : value) (w : World DB) : completion AppError value :=
  let whereClause := buildWhereClause this filters in
  match model_findFirst whereClause include omit (db w) with
  | Throw e => Throw (handleDatabaseError this h (Foreign e) "findOne")
  | Normal result => Normal result
  end.

Definition count (filters : value) (w : World DB) : completion AppError Z :=
  let whereClause := buildWhereClause this filters in
  match model_count whereClause (db w) with
  | Throw e => Throw (handleDatabaseError this h (Foreign e) "count")
  | Normal n => Normal n
  end.

Definition exists_ (filters : value) (w : World DB) : completion AppError bool :=
  let whereClause := buildWhereClause this filters in
  match model_count whereClause (db w) with
  | Throw e => Throw (handleDatabaseError this h (Foreign e) "exists")
  | Normal n => Normal (n >? 0)%Z
  end.

(** The two queries of [Promise.all] are both issued; when the first one
    rejects its error is the one reported. *)
Definition findMany (filters : value) (pagination : option PartialPagination)
    (orderBy : option value) (include omit : value) (w : World DB)
  : completion AppError (PaginationResult value) :=
  let whereClause := buildWhereClause this filters in
  let finalPagination := normalizePagination (options this) pagination in
  let orderBy := default (VObj [("id", VStr "desc")]) orderBy in
  match model_findMany
          {| fm_where := whereClause; fm_skip := Some (offset finalPagination);
             fm_take := Some (limit finalPagination); fm_orderBy := orderBy;
             fm_include := include; fm_omit := omit; fm_select := VUndefined |} (db w) with
  | Throw e => Throw (handleDatabaseError this h (Foreign e) "findMany")
  | Normal data =>
      match model_count whereClause (db w) with
      | Throw e => Throw (handleDatabaseError this h (Foreign e) "findMany")
      | Normal total => Normal (buildPaginationResult data total finalPagination)
      end
  end.
End CRUD.

(** ** Slugs *)

(** The slug column of a returned row, when it is a string (a [Set] of
    values contains the string [s] only through such an entry). *)
Definition slug_text (row : value) : option string :=
  match row with
  | VObj props =>
      match obj_get "slug" props with
      | VStr s => Some s
      | _ => None
      end
  | _ => None
  end.

(** [{ slug: { startsWith: baseSlug }, ...(excludeId ? { id: { not: excludeId } } : {}) }] *)
Definition slugWhere (baseSlug : string) (excludeId : option string) : value :=
  VObj (assign [("slug", VObj [("startsWith", VStr baseSlug)])]
          (match excludeId with
           | Some id => if truthy (VStr id) then [("id", VObj [("not", VStr id)])] else []
           | None => []
           end)).



(** ** An in-memory model delegate *)

(** A reference implementation of the delegate over a table held in memory:
    the rows in insertion order, [id] the primary key.  It covers the part of
    the Prisma query language the service itself issues: equality on scalar
    columns, the operators [equals], [not] and [startsWith], [select] and
    [omit], [skip] and [take], and [orderBy] on one integer column. *)
Module Table.

Definition Table : Type := list obj.

Definition scalar_eqb (a b : value) : bool :=
  match a, b with
  | VNull, VNull => true
  | VBool x, VBool y => Bool.eqb x y
  | VNum x, VNum y => (x =? y)%Z
  | VBigInt x, VBigInt y => (x =? y)%Z
  | VStr x, VStr y => String.eqb x y
  | VDate x, VDate y => String.eqb x y
  | _, _ => false
  end.

Definition is_null (v : value) : bool :=
  match v with
  | VNull => true
  | _ => false
  end.

Definition operator_holds (actual : value) (op : string * value) : bool :=
  if String.eqb op.1 "equals" then scalar_eqb op.2 actual
  else if String.eqb op.1 "not" then negb (scalar_eqb op.2 actual) && negb (is_null actual)
  else if String.eqb op.1 "startsWith" then
    match op.2, actual with
    | VStr p, VStr s => String.prefix p s
    | _, _ => false
    end
  else false.

(** A condition [undefined] is no condition. *)
Definition field_holds (cond actual : value) : bool :=
  match cond with
  | VUndefined => true
  | VObj ops => forallb (operator_holds actual) ops
  | _ => scalar_eqb cond actual
  end.

Definition matches (whereClause : value) (row : obj) : bool :=
  forallb (λ kv, field_holds kv.2 (obj_get kv.1 row)) (own_properties whereClause).

Definition project (select omit : value) (row : obj) : obj :=
  let picked :=
    match select with
    | VObj sel => List.filter (λ kv, truthy (obj_get kv.1 sel)) row
    | _ => row
    end in
  match omit with
  | VObj om => List.filter (λ kv, negb (truthy (obj_get kv.1 om))) picked
  | _ => picked
  end.

Definition order_key (field : string) (row : obj) : Z :=
  match obj_get field row with
  | VNum n => n
  | _ => 0%Z
  end.

Fixpoint insert_sorted (before : obj -> obj -> bool) (row : obj) (rows : list obj) : list obj :=
  match rows with
  | [] => [row]
  | r :: rows' => if before r row then r :: insert_sorted before row rows' else row :: r :: rows'
  end.

Definition sort_rows (orderBy : value) (rows : list obj) : list obj :=
  match orderBy with
  | VObj [(field, VStr dir)] =>
      let before (a b : obj) :=
        if String.eqb dir "desc" then (order_key field b <=? order_key field a)%Z
        else (order_key field a <=? order_key field b)%Z in
      foldl (λ sorted row, insert_sorted before row sorted) [] rows
  | _ => rows
  end.

Definition window (skip limit : option Z) (rows : list obj) : list obj :=
  let skipped := match skip with Some n => drop (Z.to_nat n) rows | None => rows end in
  match limit with Some n => take (Z.to_nat n) skipped | None => skipped end.

Definition findMany (args : FindManyArgs) (t : Table) : completion JsError (list value) :=
  Normal (VObj <$> (project (fm_select args) (fm_omit args) <$>
            window (fm_skip args) (fm_take args)
              (sort_rows (fm_orderBy args) (List.filter (matches (fm_where args)) t)))).

Definition findFirst (whereClause include omit : value) (t : Table) : completion JsError value :=
  match List.filter (matches whereClause) t with
  | [] => Normal VNull
  | row :: _ => Normal (VObj (project VUndefined omit row))
  end.

Definition count (whereClause : value) (t : Table) : completion JsError Z :=
  Normal (Z.of_nat (length (List.filter (matches whereClause) t))).

Definition notFound (what : string) : JsError :=
  {| code := Some "P2025";
     message := "An operation failed because it depends on one or more records that were required but not found. " +:+ what |}.

Definition is_defined (kv : string * value) : bool :=
  match kv.2 with
  | VUndefined => false
  | _ => true
  end.

(** The first matching row is rewritten where it stands. *)
Fixpoint update_first (whereClause : value) (data : obj) (t : Table) : option (obj * Table) :=
  match t with
  | [] => None
  | row :: t' =>
      if matches whereClause row then
        let row' := assign row (List.filter is_defined data) in
        Some (row', row' :: t')
      else
        match update_first whereClause data t' with
        | Some (row', t'') => Some (row', row :: t'')
        | None => None
        end
  end.

Definition update (whereClause data include : value) (t : Table)
  : completion JsError value * Table :=
  match update_first whereClause (own_properties data) t with
  | Some (row', t') => (Normal (VObj row'), t')
  | None => (Throw (notFound "Record to update not found."), t)
  end.

Fixpoint delete_first (whereClause : value) (t : Table) : option (obj * Table) :=
  match t with
  | [] => None
  | row :: t' =>
      if matches whereClause row then Some (row, t')
      else
        match delete_first whereClause t' with
        | Some (gone, t'') => Some (gone, row :: t'')
        | None => None
        end
  end.

Definition delete (whereClause : value) (t : Table) : completion JsError value * Table :=
  match delete_first whereClause t with
  | Some (gone, t') => (Normal (VObj gone), t')
  | None => (Throw (notFound "Record to delete does not exist."), t)
  end.

(** The next value of the [SERIAL] key. *)
Definition next_id (t : Table) : Z :=
  (1 + foldr (λ row m, Z.max (order_key "id" row) m) 0 t)%Z.

Definition create (data include : value) (t : Table) : completion JsError value * Table :=
  let given := List.filter is_defined (own_properties data) in
  let row := if obj_has "id" given then given else ("id", VNum (next_id t)) :: given in
  if existsb (λ r, scalar_eqb (obj_get "id" r) (obj_get "id" row)) t then
    (Throw {| code := Some "P2002";
              message := "Unique constraint failed on the fields: (`id`)" |}, t)
  else (Normal (VObj row), t ++ [row]).

#[global] Instance delegate : ModelDelegate Table := {
  model_create := create;
  model_update := update;
  model_delete := delete;
  model_findMany := findMany;
  model_findFirst := findFirst;
  model_count := count
}.

End Table.

(** ** Vocabulary of the statements *)

Definition eventLine (eventType : string) : string := "event: " +:+ eventType +:+ nl.
Definition dataLine (json : string) : string := "data: " +:+ json +:+ nl +:+ nl.

(** The SSE frame of an event: the event line, the data line and the blank
    line that ends it. *)
Definition frame (eventType json : string) : string :=
  "event: " +:+ eventType +:+ nl +:+ "data: " +:+ json +:+ nl +:+ nl.

(** Serializing the payload raises. *)
Definition unserializable (d : value) : bool :=
  match JSON_stringify d with
  | Throw _ => true
  | Normal _ => false
  end.

(** Sending the frame to the client raises, in one of its writes or in the
    serialization of the payload. *)
Definition sendRaises (d : value) (w : Streams) (client : Handle) : bool :=
  writeFails (w client) || unserializable d.

(** The handles a broadcast classifies as dead: before the write by their
    flags, after it by the exception. *)
Definition unreachable (d : value) (w : Streams) (client : Handle) : bool :=
  isDead w client || sendRaises d w client.

(** The chunks one turn of the broadcast writes to the client. *)
Definition chunksFor (eventType : string) (d : value) (w : Streams) (client : Handle)
  : list string :=
  if isDead w client then []
  else if writeFails (w client) then []
  else
    match JSON_stringify d with
    | Throw _ => [eventLine eventType]
    | Normal json => [eventLine eventType; dataLine (template_of json)]
    end.

(** How many times the handle is registered in the list. *)
Definition registrations (client : Handle) (clients : list Handle) : nat :=
  length (List.filter (Nat.eqb client) clients).

Definition sameFlags (r r' : Response) : Prop :=
  destroyed r = destroyed r' /\ writableEnded r = writableEnded r' /\ writeFails r = writeFails r'.

Fixpoint repeat_string (n : nat) (s : string) : string :=
  match n with
  | O => EmptyString
  | S n' => s +:+ repeat_string n' s
  end.

(** What [mergeFilters] leaves under a key of the addition: the value of
    the addition, spread over the current value when it is an object. *)
Definition mergedValue (cur add : value) : value :=
  if is_nonarray_object add
  then VObj (spread2 (if truthy cur then cur else VObj []) add)
  else add.


(** How many times the handle is registered on the channels of the list,
    a channel counted as often as it is listed. *)
Definition subscriptions (client : Handle) (channels : list string)
    (reg : gmap string (list Handle)) : nat :=
  foldr (λ c n, registrations client (clientsOf c reg) + n)%nat 0%nat channels.

(** The identifiers [id: string | number] of the CRUD methods. *)
Definition is_key (id : value) : bool :=
  match id with
  | VNum _ | VStr _ => true
  | _ => false
  end.

(** The primary keys of a table. *)
Definition keys_of (t : Table.Table) : list value := obj_get "id" <$> t.

(** The slugs a table holds, the row with the excluded id left aside. *)
Definition slug_taken (t : Table.Table) (excludeId : option string) (slug : string) : Prop :=
  exists row, row ∈ t /\ obj_get "slug" row = VStr slug /\
    match excludeId with
    | Some id =>
        if truthy (VStr id)
        then Table.field_holds (VObj [("not", VStr id)]) (obj_get "id" row) = true
        else True
    | None => True
    end.

(** The number arguments on which [x || d] takes the default. *)
Definition falsy (x : option number) : bool :=
  match x with
  | Some (Num n) => (n =? 0)%Z
  | _ => true
  end.

(** ** Sample configurations *)

(** The constructor defaults with [enableSSE: true]. *)
Definition sseOptions : BaseServiceOptions :=
  {| enableSoftDelete := false; enableAuditFields := false; enableSSE := true;
     defaultPageSize := 10; maxPageSize := 1000 |}.

(** A response that has just been opened. *)
Definition freshResponse : Response :=
  {| destroyed := false; writableEnded := false; writeFails := false; written := [];
     listeners := [] |}.

(** The registry of a service nobody has subscribed to. *)
Definition noClients : SSE :=
  {| sseClients := ∅; streams := λ _, freshResponse |}.

(** A service for the model [Post] with SSE enabled, and one with soft
    delete enabled. *)
Definition postService : Service :=
  {| modelName := "Post"; options := sseOptions; filterMap := [] |}.

Definition softDeleteService : Service :=
  {| modelName := "Post";
     options := {| enableSoftDelete := true; enableAuditFields := false; enableSSE := false;
                   defaultPageSize := 10; maxPageSize := 1000 |};
     filterMap := [] |}.

(** A production host whose [AppError] classes carry their own codes. *)
Definition productionHost : Host :=
  {| NODE_ENV := Some "production";
     now := "2026-01-01T00:00:00.000Z";
     appErrorCode := λ e, match e with
                          | NotFoundError _ => Some "NOT_FOUND"
                          | DatabaseError _ _ => Some "DATABASE_ERROR"
                          end |}.

(** ** The rest of the service *)

(** [findManyInternal]: the unpaginated read for internal use. *)
Definition findManyInternal {DB} `{ModelDelegate DB} (this : Service) (h : Host)
    (filters : value) (orderBy : option value) (include omit : value)
    (limit : option number) (w : World DB) : completion AppError (list value) :=
  let whereClause := buildWhereClause this filters in
  let orderBy := default (VObj [("id", VStr "desc")]) orderBy in
  match model_findMany
          {| fm_where := whereClause; fm_skip := None;
             fm_take := Some (or_default limit (maxPageSize (options this)));
             fm_orderBy := orderBy; fm_include := include; fm_omit := omit;
             fm_select := VUndefined |} (db w) with
  | Throw e => Throw (handleDatabaseError this h (Foreign e) "findManyInternal")
  | Normal result => Normal result
  end.

(** No channel of the registry is left with an empty array. *)
Definition noEmptyChannel (reg : gmap string (list Handle)) : Prop :=
  map_Forall (λ _ clients, clients <> []) reg.

(** How many listeners for [eventName] that unsubscribe from [channel] the
    response carries. *)
Definition listenerCount (eventName channel : string) (r : Response) : nat :=
  length (List.filter (λ l, String.eqb l.1 eventName && String.eqb l.2 channel) (listeners r)).

(** Every registration of a handle on a channel is matched by a listener
    for [eventName] that undoes it. *)
Definition covered (eventName : string) (s : SSE) : Prop :=
  forall client channel,
    (registrations client (clientsOf channel (sseClients s))
     <= listenerCount eventName channel (streams s client))%nat.

(** ** The request-id middleware *)

(** A value of [req.headers]: a string, or an array of strings for a header
    that was sent several times. *)
Inductive headerValue : Type :=
| Single (s : string)
| Multiple (l : list string).

(** ToBoolean on [req.headers[name]]: a missing header and the empty string
    are falsy, an array is truthy. *)
Definition headerTruthy (v : option headerValue) : bool :=
  match v with
  | Some (Single s) => negb (String.eqb s EmptyString)
  | Some (Multiple _) => true
  | None => false
  end.

(** The middleware [requestId()] returns, run on the headers of a request:
    the [req.id] it assigns and the response headers after [setHeader].
    [uuid] is what [uuidv4()] returns when it is called. *)
Definition requestId (uuid : string) (headers : gmap string headerValue)
    (responseHeaders : gmap string string) : string * gmap string string :=
  let existingId :=
    if headerTruthy (headers !! "x-request-id") then headers !! "x-request-id"
    else headers !! "x-correlation-id" in
  let id :=
    match existingId with
    | Some (Single s) => s
    | _ => uuid
    end in
  (id, <["x-request-id" := id]> responseHeaders).

(** ** Numbers with a fraction *)

(** The integer part of a rational, rounded towards zero. *)
Definition Qtrunc (q : Q) : Z := Z.quot (Qnum q) (Zpos (Qden q)).

(** The remainder operator [a % b] of JavaScript: [a - b * trunc(a / b)],
    with the sign of [a]. *)
Definition Qrem (a b : Q) : Q := (a - b * inject_Z (Qtrunc (a / b)))%Q.

(** ** The application shell *)

Module Ignitor.

(** [formatUptime] of the health endpoint, which is handed
    [process.uptime()], a number of seconds with a fraction.  Numbers are
    exact rationals here: [Math.floor] is [Qfloor], [a % b] is [Qrem a b],
    and the four results are integers. *)
Definition uptimeParts (seconds : Q) : Z * Z * Z * Z :=
  let days := Qfloor (seconds / (3600 * 24)) in
  let seconds := Qrem seconds (3600 * 24) in
  let hours := Qfloor (seconds / 3600) in
  let seconds := Qrem seconds 3600 in
  let minutes := Qfloor (seconds / 60) in
  let seconds := Qfloor (Qrem seconds 60) in
  (days, hours, minutes, seconds).

Definition formatUptime (seconds : Q) : string :=
  match uptimeParts seconds with
  | (days, hours, minutes, seconds) =>
      pretty days +:+ "d " +:+ pretty hours +:+ "h " +:+ pretty minutes +:+ "m "
      +:+ pretty seconds +:+ "s"
  end.

(** [IgnitorModule]: the part the shell uses, over the state [W] the hooks
    act on.  A hook either resolves or rejects, and may have acted on the
    state in both cases. *)
Record IgnitorModule (W : Type) : Type := mkModule {
  name : string;
  dependencies : list string;
  onShutdown : option (W -> completion JsError unit * W)
}.
Arguments mkModule {W}.
Arguments name {W}.
Arguments dependencies {W}.
Arguments onShutdown {W}.

(** [registerModule] *)
Definition registerModule {W} (module : IgnitorModule W) (modules : list (IgnitorModule W))
  : list (IgnitorModule W) :=
  modules ++ [module].

(** One turn of the loop of [shutdown]: the hook of the module, when it has
    one, inside a [try] whose [catch] only logs. *)
Definition shutdownModule {W} (module : IgnitorModule W) (w : W) : W :=
  match onShutdown module with
  | Some hook => (hook w).2
  | None => w
  end.

(** [for (let i = modules.length - 1; i >= 0; i--)], entered with
    [i + 1 = turns]. *)
Fixpoint shutdownLoop {W} (turns : nat) (modules : list (IgnitorModule W)) (w : W) : W :=
  match turns with
  | O => w
  | S i =>
      match modules !! i with
      | Some module => shutdownLoop i modules (shutdownModule module w)
      | None => shutdownLoop i modules w
      end
  end.

(** [shutdown]: the modules, then [context.shutdown()], whose rejection is
    the rejection of [shutdown]. *)
Definition shutdown {W} (modules : list (IgnitorModule W))
    (contextShutdown : W -> completion JsError unit * W) (w : W)
  : completion JsError unit * W :=
  contextShutdown (shutdownLoop (length modules) modules w).

End Ignitor.

(** A store that cannot be reached: every call of the delegate rejects with
    the client's connection error. *)
Definition connectionError : JsError :=
  {| code := Some "P1001"; message := "Can't reach database server at `db:5432`" |}.

Definition offlineDelegate : ModelDelegate unit :=
  {| model_create := λ _ _ db, (Throw connectionError, db);
     model_update := λ _ _ _ db, (Throw connectionError, db);
     model_delete := λ _ db, (Throw connectionError, db);
     model_findMany := λ _ _, Throw connectionError;
     model_findFirst := λ _ _ _ _, Throw connectionError;
     model_count := λ _ _, Throw connectionError |}.

(** A development host. *)
Definition developmentHost : Host :=
  {| NODE_ENV := Some "development";
     now := "2026-01-01T00:00:00.000Z";
     appErrorCode := appErrorCode productionHost |}.

(** The entries of a query [applyFilters] acts on: the value is not
    [undefined] and [filterMap] has the key, as its own or inherited. *)
Definition found (fm : FilterMap) (kv : string * value) : bool :=
  match kv.2, filterMap_get fm kv.1 with
  | VUndefined, _ => false
  | _, NoProperty => false
  | _, _ => true
  end.




(** Handlers for a price range, and for a range on the age of the author,
    one level further down. *)
Definition priceFilters : FilterMap :=
  [("minPrice", λ v, [("price", VObj [("gte", v)])]);
   ("maxPrice", λ v, [("price", VObj [("lte", v)])])].


(** * Properties *)

(** ** Lists of handles *)

Lemma indexOf_Some client clients i :
  indexOf client clients = Some i ->
  clients !! i = Some client /\ forall j, (j < i)%nat -> clients !! j <> Some client.
Proof.
  unfold indexOf. destruct (list_find _ clients) as [[j y]|] eqn:E; [|done].
  intros [= <-]. apply list_find_Some in E as (Hj & -> & Hlt).
  split; [done|]. intros k Hk Hc. by apply (Hlt k client).
Qed.

Lemma indexOf_None client clients :
  indexOf client clients = None <-> client ∉ clients.
Proof.
  unfold indexOf. destruct (list_find _ clients) as [[j y]|] eqn:E; simpl.
  - apply list_find_Some in E as (Hj & -> & _).
    split; [done|]. intros Hn. exfalso. apply Hn. by eapply list_elem_of_lookup_2.
  - split; [|done]. intros _ Hin.
    apply (list_find_elem_of (λ c, c = client)) in Hin as [? ?]; [congruence|done].
Qed.

Lemma spliceOut_cons client c clients :
  spliceOut (c :: clients) client =
  if decide (c = client) then clients else c :: spliceOut clients client.
Proof.
  unfold spliceOut, indexOf. simpl. case_decide as Hc; simpl.
  - destruct (decide (c = client)); [done|congruence].
  - destruct (decide (c = client)); [congruence|].
    destruct (list_find _ clients) as [[j y]|]; done.
Qed.

Lemma spliceOut_notin client clients : client ∉ clients -> spliceOut clients client = clients.
Proof. intros Hn. apply indexOf_None in Hn. unfold spliceOut. by rewrite Hn. Qed.

Lemma spliceOut_app_notin client pre clients :
  client ∉ pre -> spliceOut (pre ++ clients) client = pre ++ spliceOut clients client.
Proof.
  induction pre as [|p pre IH]; [done|]. intros Hn.
  apply not_elem_of_cons in Hn as [Hne Hn]. simpl. rewrite spliceOut_cons.
  destruct (decide (p = client)); [congruence|]. by rewrite IH.
Qed.

(** Splicing out, one by one, the members of a list that satisfy [P] leaves
    exactly the members that do not. *)
Lemma foldl_spliceOut_filter (P : Handle -> bool) pre clients :
  (forall c, c ∈ pre -> P c = false) ->
  foldl spliceOut (pre ++ clients) (List.filter P clients)
  = pre ++ List.filter (λ c, negb (P c)) clients.
Proof.
  revert pre. induction clients as [|c clients IH]; intros pre Hpre; simpl.
  - done.
  - destruct (P c) eqn:Pc; simpl.
    + rewrite spliceOut_app_notin.
      * rewrite spliceOut_cons. destruct (decide (c = c)); [|done]. by apply IH.
      * intros Hin. apply Hpre in Hin. congruence.
    + rewrite (cons_middle c pre clients), app_assoc. rewrite IH.
      * by rewrite <- app_assoc.
      * intros x Hx. apply elem_of_app in Hx as [Hx|Hx]; [by apply Hpre|].
        apply list_elem_of_singleton in Hx. by subst.
Qed.

Lemma filter_all_false {A} (P : A -> bool) (l : list A) :
  (forall x, x ∈ l -> P x = false) -> List.filter P l = [].
Proof.
  induction l as [|a l IH]; [done|]. intros Hl. simpl.
  rewrite (Hl a) by left. apply IH. intros x Hx. apply Hl. by right.
Qed.

Lemma filter_all_true {A} (P : A -> bool) (l : list A) :
  (forall x, x ∈ l -> P x = true) -> List.filter P l = l.
Proof.
  induction l as [|a l IH]; [done|]. intros Hl. simpl.
  rewrite (Hl a) by left. f_equal. apply IH. intros x Hx. apply Hl. by right.
Qed.

Lemma elem_of_List_filter {A} (P : A -> bool) (l : list A) x :
  x ∈ List.filter P l <-> x ∈ l /\ P x = true.
Proof. rewrite !list_elem_of_In. apply filter_In. Qed.

(** ** The registry *)

Section registry.
Variable o : BaseServiceOptions.
Hypothesis sse_on : enableSSE o = true.

Lemma removeSSEClient_unfold channel client (reg : gmap string (list Handle)) :
  removeSSEClient o channel client reg =
  if decide (client ∈ clientsOf channel reg) then
    match spliceOut (clientsOf channel reg) client with
    | [] => delete channel reg
    | rest => <[channel := rest]> reg
    end
  else reg.
Proof.
  unfold removeSSEClient, spliceOut. rewrite sse_on. simpl.
  destruct (indexOf client (clientsOf channel reg)) as [i|] eqn:E.
  - apply indexOf_Some in E as [Hi _].
    destruct (decide _) as [|Hn]; [|exfalso; apply Hn; by eapply list_elem_of_lookup_2].
    by destruct (delete i (clientsOf channel reg)).
  - apply indexOf_None in E. by destruct (decide _).
Qed.

Lemma clientsOf_removeSSEClient channel client (reg : gmap string (list Handle)) :
  clientsOf channel (removeSSEClient o channel client reg)
  = spliceOut (clientsOf channel reg) client.
Proof.
  rewrite removeSSEClient_unfold. destruct (decide _) as [Hin|Hn].
  - destruct (spliceOut _ client) eqn:E; unfold clientsOf.
    + by rewrite lookup_delete_eq.
    + by rewrite lookup_insert_eq.
  - by rewrite spliceOut_notin.
Qed.

Lemma lookup_removeSSEClient_ne channel client other (reg : gmap string (list Handle)) :
  channel <> other ->
  removeSSEClient o channel client reg !! other = reg !! other.
Proof.
  intros Hne. rewrite removeSSEClient_unfold. destruct (decide _); [|done].
  destruct (spliceOut _ client).
  - by rewrite lookup_delete_ne.
  - by rewrite lookup_insert_ne.
Qed.

Lemma removeSSEClient_notin channel client (reg : gmap string (list Handle)) :
  client ∉ clientsOf channel reg -> removeSSEClient o channel client reg = reg.
Proof. intros Hn. rewrite removeSSEClient_unfold. by destruct (decide _). Qed.

(** No empty channel is left behind by a removal. *)
Lemma removeSSEClient_no_empty channel client (reg : gmap string (list Handle)) :
  client ∈ clientsOf channel reg ->
  removeSSEClient o channel client reg !! channel <> Some [].
Proof.
  intros Hin. rewrite removeSSEClient_unfold. destruct (decide _); [|done].
  destruct (spliceOut _ client).
  - by rewrite lookup_delete_eq.
  - by rewrite lookup_insert_eq.
Qed.

Lemma clientsOf_removeAll channel deadClients (reg : gmap string (list Handle)) :
  clientsOf channel (removeAll o channel reg deadClients)
  = foldl spliceOut (clientsOf channel reg) deadClients.
Proof.
  unfold removeAll. revert reg. induction deadClients as [|d ds IH]; intros reg; [done|].
  simpl. rewrite IH. by rewrite clientsOf_removeSSEClient.
Qed.

Lemma lookup_removeAll_ne channel other deadClients (reg : gmap string (list Handle)) :
  channel <> other -> removeAll o channel reg deadClients !! other = reg !! other.
Proof.
  intros Hne. unfold removeAll. revert reg.
  induction deadClients as [|d ds IH]; intros reg; [done|].
  simpl. rewrite IH. by apply lookup_removeSSEClient_ne.
Qed.
End registry.

(** ** One broadcast *)

Lemma sameFlags_refl r : sameFlags r r.
Proof. by repeat split. Qed.

Lemma sameFlags_trans r1 r2 r3 : sameFlags r1 r2 -> sameFlags r2 r3 -> sameFlags r1 r3.
Proof. intros (?&?&?) (?&?&?). repeat split; congruence. Qed.

Lemma write_Normal client chunk w w' :
  write client chunk w = Normal w' ->
  writeFails (w client) = false /\
  (forall h, sameFlags (w h) (w' h)) /\
  (forall h, written (w' h) = written (w h) ++ if decide (h = client) then [chunk] else []).
Proof.
  unfold write. destruct (writeFails (w client)) eqn:E; [done|]. intros [= <-].
  split; [done|]. split; intros h.
  - destruct (decide (client = h)) as [->|Hne].
    + rewrite fn_lookup_alter. by repeat split.
    + rewrite fn_lookup_alter_ne by done. apply sameFlags_refl.
  - destruct (decide (h = client)) as [->|Hne].
    + by rewrite fn_lookup_alter.
    + rewrite fn_lookup_alter_ne by done. by rewrite app_nil_r.
Qed.

Lemma write_Throw client chunk w e :
  write client chunk w = Throw e -> writeFails (w client) = true.
Proof. unfold write. by destruct (writeFails (w client)). Qed.

Lemma unreachable_ext d w w' c :
  sameFlags (w c) (w' c) -> unreachable d w c = unreachable d w' c.
Proof.
  intros (H1 & H2 & H3). unfold unreachable, isDead, sendRaises. by rewrite H1, H2, H3.
Qed.

Lemma chunksFor_ext e d w w' c :
  sameFlags (w c) (w' c) -> chunksFor e d w c = chunksFor e d w' c.
Proof.
  intros (H1 & H2 & H3). unfold chunksFor, isDead. by rewrite H1, H2, H3.
Qed.

Section broadcast.
Variables (eventType : string) (d : value) (time chan : string).
Let ev := mkEvent eventType d time chan.

Lemma sendFrame_spec client w :
  isDead w client = false ->
  let '(w', ok) := sendFrame ev client w in
  ok = negb (sendRaises d w client) /\
  (forall h, sameFlags (w h) (w' h)) /\
  (forall h, written (w' h)
             = written (w h) ++ if decide (h = client) then chunksFor eventType d w client else []).
Proof.
  intros Hlive. unfold sendFrame, sendRaises, chunksFor, unserializable. rewrite Hlive.
  simpl event. simpl data.
  destruct (write client _ w) as [w1|e1] eqn:W1.
  - apply write_Normal in W1 as (Hf & Hfl1 & Hw1). rewrite Hf. simpl.
    destruct (JSON_stringify d) as [json|e2] eqn:J.
    + destruct (write client _ w1) as [w2|e3] eqn:W2.
      * apply write_Normal in W2 as (_ & Hfl2 & Hw2).
        split; [done|]. split; intros h.
        -- eapply sameFlags_trans; [apply Hfl1|apply Hfl2].
        -- rewrite Hw2, Hw1. rewrite <- app_assoc. by destruct (decide (h = client)).
      * apply write_Throw in W2. destruct (Hfl1 client) as (_ & _ & Hx). congruence.
    + split; [done|]. split; [done|]. intros h. rewrite Hw1. by destruct (decide (h = client)).
  - apply write_Throw in W1. rewrite W1. simpl. split; [done|]. split.
    + intros h. apply sameFlags_refl.
    + intros h. destruct (decide (h = client)); by rewrite app_nil_r.
Qed.

Lemma broadcastStep_spec w deadClients client :
  let '(w', deadClients') := broadcastStep ev (w, deadClients) client in
  deadClients' = deadClients ++ (if unreachable d w client then [client] else []) /\
  (forall h, sameFlags (w h) (w' h)) /\
  (forall h, written (w' h)
             = written (w h) ++ if decide (h = client) then chunksFor eventType d w client else []).
Proof.
  unfold broadcastStep, unreachable. destruct (isDead w client) eqn:Hd; simpl.
  - split; [done|]. split; [intros; apply sameFlags_refl|].
    intros h. unfold chunksFor. rewrite Hd. destruct (decide (h = client)); by rewrite app_nil_r.
  - pose proof (sendFrame_spec client w Hd) as Hs.
    destruct (sendFrame ev client w) as [w' ok]. destruct Hs as (-> & Hfl & Hw).
    destruct (sendRaises d w client); simpl; [|rewrite app_nil_r]; done.
Qed.

Lemma broadcast_fold_spec clients w deadClients :
  let '(w', deadClients') := foldl (broadcastStep ev) (w, deadClients) clients in
  deadClients' = deadClients ++ List.filter (unreachable d w) clients /\
  (forall h, sameFlags (w h) (w' h)) /\
  (forall h, written (w' h)
             = written (w h)
               ++ mjoin (replicate (registrations h clients) (chunksFor eventType d w h))).
Proof.
  revert w deadClients. induction clients as [|c clients IH]; intros w deadClients.
  - simpl. split; [by rewrite app_nil_r|]. split; [intros; apply sameFlags_refl|].
    intros h. by rewrite app_nil_r.
  - cbn [foldl]. pose proof (broadcastStep_spec w deadClients c) as Hs.
    destruct (broadcastStep ev (w, deadClients) c) as [w1 dead1].
    destruct Hs as (-> & Hfl1 & Hw1).
    specialize (IH w1 (deadClients ++ (if unreachable d w c then [c] else []))).
    destruct (foldl _ _ clients) as [w' dead']. destruct IH as (-> & Hfl & Hw).
    split; [|split].
    + rewrite <- app_assoc. f_equal. simpl.
      rewrite (filter_ext (unreachable d w1) (unreachable d w)).
      * by destruct (unreachable d w c).
      * intros a. symmetry. by apply unreachable_ext.
    + intros h. eapply sameFlags_trans; [apply Hfl1|apply Hfl].
    + intros h. rewrite Hw, Hw1, <- app_assoc. f_equal.
      rewrite <- (chunksFor_ext eventType d w w1 h) by done.
      unfold registrations. simpl.
      destruct (decide (h = c)) as [->|Hne].
      * by rewrite Nat.eqb_refl.
      * apply Nat.eqb_neq in Hne. by rewrite Hne.
Qed.
End broadcast.

Lemma string_app_cons x (a b : string) : String x a +:+ b = String x (a +:+ b).
Proof. reflexivity. Qed.

Lemma string_app_nil_l (a : string) : EmptyString +:+ a = a.
Proof. reflexivity. Qed.

Lemma string_app_assoc (a b c : string) : (a +:+ b) +:+ c = a +:+ (b +:+ c).
Proof. induction a as [|x a IH]; [done|]. rewrite !string_app_cons. by f_equal. Qed.

Lemma string_app_nil_r (a : string) : a +:+ EmptyString = a.
Proof. induction a as [|x a IH]; [done|]. rewrite string_app_cons. by f_equal. Qed.

Lemma concat_strings_app (l1 l2 : list string) :
  foldr String.append EmptyString (l1 ++ l2)
  = foldr String.append EmptyString l1 +:+ foldr String.append EmptyString l2.
Proof.
  induction l1 as [|x l1 IH]; simpl; [done|]. by rewrite IH, string_app_assoc.
Qed.

Lemma concat_strings_replicate n (chunks : list string) :
  foldr String.append EmptyString (mjoin (replicate n chunks))
  = repeat_string n (foldr String.append EmptyString chunks).
Proof.
  induction n as [|n IH]; simpl; [done|]. by rewrite concat_strings_app, IH.
Qed.

Lemma registrations_0 h clients : h ∉ clients -> registrations h clients = 0%nat.
Proof.
  intros Hn. unfold registrations. rewrite filter_all_false; [done|].
  intros x Hx. apply Nat.eqb_neq. intros ->. done.
Qed.

Lemma registrations_pos h clients : h ∈ clients -> (0 < registrations h clients)%nat.
Proof.
  intros Hin. unfold registrations.
  assert (h ∈ List.filter (Nat.eqb h) clients) as Hf.
  { apply elem_of_List_filter. split; [done|apply Nat.eqb_refl]. }
  destruct (List.filter (Nat.eqb h) clients); [by apply elem_of_nil in Hf|simpl; lia].
Qed.

Lemma registrations_NoDup h clients :
  NoDup clients -> h ∈ clients -> registrations h clients = 1%nat.
Proof.
  unfold registrations. induction clients as [|c clients IH]; intros Hnd Hin.
  - by apply elem_of_nil in Hin.
  - apply NoDup_cons in Hnd as [Hc Hnd]. simpl.
    destruct (h =? c)%nat eqn:E.
    + apply Nat.eqb_eq in E as ->. simpl. f_equal.
      by apply (registrations_0 c clients).
    + apply Nat.eqb_neq in E. apply elem_of_cons in Hin as [?|Hin]; [done|]. by apply IH.
Qed.

Lemma registrations_filter_keep (P : Handle -> bool) h clients :
  P h = true -> registrations h (List.filter P clients) = registrations h clients.
Proof.
  intros HP. unfold registrations. induction clients as [|c clients IH]; [done|].
  simpl. destruct (P c) eqn:Pc; simpl.
  - destruct (h =? c)%nat; simpl; by rewrite IH.
  - destruct (h =? c)%nat eqn:E; [|done].
    apply Nat.eqb_eq in E as ->. congruence.
Qed.

Lemma elem_of_getActiveChannels channel (reg : gmap string (list Handle)) :
  channel ∈ getActiveChannels reg <-> is_Some (reg !! channel).
Proof.
  unfold getActiveChannels. rewrite list_elem_of_fmap. split.
  - intros ([k v] & -> & Hin). apply elem_of_map_to_list in Hin. by exists v.
  - intros [v Hv]. exists (channel, v). split; [done|]. by apply elem_of_map_to_list.
Qed.

Section broadcastToChannel.
Variables (o : BaseServiceOptions) (time chan eventType : string) (d : value) (s : SSE).
Hypothesis sse_on : enableSSE o = true.

Let s' := broadcastToChannel o time chan eventType d s.
Let clients := clientsOf chan (sseClients s).

Lemma broadcastToChannel_spec :
  sseClients s' = removeAll o chan (sseClients s)
                    (List.filter (unreachable d (streams s)) clients) /\
  (forall h, sameFlags (streams s h) (streams s' h)) /\
  (forall h, written (streams s' h)
             = written (streams s h)
               ++ mjoin (replicate (registrations h clients)
                           (chunksFor eventType d (streams s) h))).
Proof.
  subst s' clients. unfold broadcastToChannel. rewrite sse_on. simpl negb. cbv iota.
  pose proof (broadcast_fold_spec eventType d time chan
                (clientsOf chan (sseClients s)) (streams s) []) as Hf.
  destruct (foldl _ _ _) as [w' dead]. destruct Hf as (Hd & Hfl & Hw).
  simpl in Hd. subst dead. by simpl.
Qed.

Lemma broadcastToChannel_clients :
  clientsOf chan (sseClients s')
  = List.filter (λ c, negb (unreachable d (streams s) c)) clients.
Proof.
  destruct broadcastToChannel_spec as (-> & _ & _).
  rewrite clientsOf_removeAll by done.
  apply (foldl_spliceOut_filter (unreachable d (streams s)) [] clients).
  intros c Hc. by apply elem_of_nil in Hc.
Qed.

Lemma broadcastToChannel_other_channel other :
  chan <> other -> sseClients s' !! other = sseClients s !! other.
Proof.
  intros Hne. destruct broadcastToChannel_spec as (-> & _ & _).
  by apply lookup_removeAll_ne.
Qed.

Lemma broadcastToChannel_received h :
  received (streams s') h
  = received (streams s) h
    +:+ repeat_string (registrations h clients)
          (foldr String.append EmptyString (chunksFor eventType d (streams s) h)).
Proof.
  destruct broadcastToChannel_spec as (_ & _ & Hw). unfold received.
  by rewrite Hw, concat_strings_app, concat_strings_replicate.
Qed.

Lemma broadcastToChannel_untouched h :
  h ∉ clients -> written (streams s' h) = written (streams s h).
Proof.
  intros Hn. destruct broadcastToChannel_spec as (_ & _ & Hw).
  rewrite Hw, registrations_0 by done. simpl. by rewrite app_nil_r.
Qed.

Lemma broadcastToChannel_all_reachable :
  (forall h, h ∈ clients -> unreachable d (streams s) h = false) ->
  sseClients s' = sseClients s.
Proof.
  intros Hall. destruct broadcastToChannel_spec as (-> & _ & _).
  by rewrite filter_all_false.
Qed.
End broadcastToChannel.

Lemma broadcastToChannel_off o time chan eventType d s :
  enableSSE o = false -> broadcastToChannel o time chan eventType d s = s.
Proof. intros Hoff. unfold broadcastToChannel. by rewrite Hoff. Qed.

(** ** Unsubscribing *)

(** C4. With SSE enabled, when a channel holds exactly one handle and
    [removeSSEClient] removes it, the channel's entry is deleted:
    [getActiveChannels] no longer lists the channel and its client count
    is zero. *)
Theorem removeSSEClient_last_handle_deletes_channel
    (o : BaseServiceOptions) (channel : string) (client : Handle)
    (reg : gmap string (list Handle)) :
  enableSSE o = true ->
  client ∈ clientsOf channel reg ->
  length (clientsOf channel reg) = 1%nat ->
  (channel ∉ getActiveChannels (removeSSEClient o channel client reg)) /\
  removeSSEClient o channel client reg !! channel = None /\
  getChannelClientCount channel (removeSSEClient o channel client reg) = 0%nat.
Proof.
  intros Hon Hin Hlen.
  destruct (clientsOf channel reg) as [|c [|c' rest]] eqn:E; simplify_eq/=.
  apply list_elem_of_singleton in Hin as ->.
  assert (removeSSEClient o channel c reg = delete channel reg) as ->.
  { rewrite removeSSEClient_unfold by done. rewrite E.
    destruct (decide (c ∈ [c])) as [_|Hn]; [|exfalso; apply Hn; by left].
    rewrite spliceOut_cons. by destruct (decide (c = c)). }
  split; [|split].
  - rewrite elem_of_getActiveChannels, lookup_delete_eq. by intros [? ?].
  - apply lookup_delete_eq.
  - unfold getChannelClientCount, clientsOf. by rewrite lookup_delete_eq.
Qed.

Lemma removeSSEClient_last_handle_witness :
  "orders" ∉ getActiveChannels
               (removeSSEClient sseOptions "orders" 1%nat
                  (sseClients (addSSEClient sseOptions "orders" 1%nat noClients))).
Proof.
  apply (removeSSEClient_last_handle_deletes_channel sseOptions "orders" 1%nat
           (sseClients (addSSEClient sseOptions "orders" 1%nat noClients))).
  - reflexivity.
  - vm_compute. left.
  - reflexivity.
Defined.

(** ** Broadcasting *)

(** C1, as amended.  With SSE enabled, one [broadcastToChannel] writes
    nothing to a dead handle (destroyed or writableEnded) nor to a handle
    outside the channel, and every dead handle is gone from the channel when
    the call returns.  When the payload serializes, every live handle whose
    write does not raise receives the frame once per registration and keeps
    its registrations, whatever other handles the channel holds; when in
    addition no live handle of the channel has a write that raises, the
    channel is left with exactly its live handles, in their order; and when
    all the handles of the channel are live, the registry is as it was, the
    count of the channel is unchanged and every handle receives exactly one
    frame if no handle is registered twice. *)
Theorem broadcastToChannel_prunes_and_delivers
    (o : BaseServiceOptions) (time channel eventType : string) (d : value) (s : SSE) :
  enableSSE o = true ->
  let s' := broadcastToChannel o time channel eventType d s in
  let clients := clientsOf channel (sseClients s) in
  (forall h, isDead (streams s) h = true \/ h ∉ clients ->
             written (streams s' h) = written (streams s h)) /\
  (forall h, isDead (streams s) h = true -> h ∉ clientsOf channel (sseClients s')) /\
  (forall json,
      JSON_stringify d = Normal json ->
      (forall h, isDead (streams s) h = false -> writeFails (streams s h) = false ->
                 received (streams s') h
                 = received (streams s) h
                   +:+ repeat_string (registrations h clients)
                         (frame eventType (template_of json)) /\
                 registrations h (clientsOf channel (sseClients s'))
                 = registrations h clients) /\
      ((forall h, h ∈ clients -> isDead (streams s) h = false ->
                  writeFails (streams s h) = false) ->
       clientsOf channel (sseClients s')
       = List.filter (λ c, negb (isDead (streams s) c)) clients) /\
      ((forall h, h ∈ clients ->
                  isDead (streams s) h = false /\ writeFails (streams s h) = false) ->
       sseClients s' = sseClients s /\
       getChannelClientCount channel (sseClients s') = length clients /\
       (NoDup clients ->
        forall h, h ∈ clients ->
                  received (streams s') h
                  = received (streams s) h +:+ frame eventType (template_of json)))).
Proof.
  intros Hon s' clients.
  pose proof (broadcastToChannel_spec o time channel eventType d s Hon) as (Hreg & Hfl & Hw).
  pose proof (broadcastToChannel_clients o time channel eventType d s Hon) as Hcl.
  fold s' in Hreg, Hfl, Hw, Hcl. fold clients in Hreg, Hw, Hcl.
  split; [|split].
  - intros h [Hd|Hn].
    + rewrite Hw. unfold chunksFor. rewrite Hd.
      assert (mjoin (replicate (registrations h clients) (@nil string)) = []) as ->.
      { induction (registrations h clients); [done|]. simpl. done. }
      by rewrite app_nil_r.
    + by apply (broadcastToChannel_untouched o time channel eventType d s Hon).
  - intros h Hd. rewrite Hcl. rewrite elem_of_List_filter. intros [_ Hr].
    unfold unreachable in Hr. rewrite Hd in Hr. done.
  - intros json Hjson.
    assert (forall h, isDead (streams s) h = false -> writeFails (streams s h) = false ->
                      received (streams s') h
                      = received (streams s) h
                        +:+ repeat_string (registrations h clients)
                              (frame eventType (template_of json))) as Hrec.
    { intros h Hd Hf.
      rewrite (broadcastToChannel_received o time channel eventType d s Hon).
      fold clients. unfold chunksFor. rewrite Hd, Hf, Hjson. do 2 f_equal.
      unfold frame, eventLine, dataLine. simpl foldr.
      by rewrite string_app_nil_r, !string_app_assoc. }
    split; [|split].
    + intros h Hd Hf. split; [by apply Hrec|].
      rewrite Hcl. apply (registrations_filter_keep (λ c, negb (unreachable d (streams s) c))).
      unfold unreachable, sendRaises, unserializable. by rewrite Hd, Hf, Hjson.
    + intros Hwrites. rewrite Hcl. apply List.filter_ext_in. intros c Hc.
      apply list_elem_of_In in Hc. unfold unreachable, sendRaises, unserializable.
      rewrite Hjson. destruct (isDead (streams s) c) eqn:Hd; [done|].
      by rewrite (Hwrites c Hc Hd).
    + intros Hlive.
      assert (forall h, h ∈ clients -> unreachable d (streams s) h = false) as Hall.
      { intros h Hin. destruct (Hlive h Hin) as [Hd Hf].
        unfold unreachable, sendRaises, unserializable. by rewrite Hd, Hf, Hjson. }
      assert (sseClients s' = sseClients s) as Heq.
      { by apply (broadcastToChannel_all_reachable o time channel eventType d s Hon). }
      split; [done|]. split; [unfold getChannelClientCount; by rewrite Heq|].
      intros Hnd h Hin. destruct (Hlive h Hin) as [Hd Hf].
      rewrite Hrec, registrations_NoDup by done. simpl. by rewrite string_app_nil_r.
Qed.

(** Two live handles and a destroyed one between them on a channel: the
    live ones get the frame and stay, the destroyed one gets nothing and is
    unsubscribed. *)
Lemma broadcastToChannel_prunes_and_delivers_witness :
  let s := {| sseClients := {[ "orders" := [1; 2; 3]%nat ]};
              streams := λ h, if (h =? 2)%nat then mkResponse true false false [] []
                              else freshResponse |} in
  let s' := broadcastToChannel sseOptions "2026-01-01T00:00:00.000Z" "orders" "created"
              (VObj [("id", VNum 5)]) s in
  let sent := "event: created" +:+ nl +:+ "data: {" +:+ dq +:+ "id" +:+ dq +:+ ":5}"
              +:+ nl +:+ nl in
  written (streams s' 2%nat) = [] /\
  (2%nat ∉ clientsOf "orders" (sseClients s')) /\
  received (streams s') 1%nat = sent /\
  received (streams s') 3%nat = sent /\
  clientsOf "orders" (sseClients s') = [1; 3]%nat.
Proof.
  intros s s' sent.
  pose proof (broadcastToChannel_prunes_and_delivers sseOptions "2026-01-01T00:00:00.000Z"
                "orders" "created" (VObj [("id", VNum 5)]) s eq_refl)
    as (Hw & Hgone & Hdeliver).
  destruct (Hdeliver (Some ("{" +:+ dq +:+ "id" +:+ dq +:+ ":5}")) eq_refl)
    as (Hlive & Hexact & _).
  split; [|split; [|split; [|split]]].
  - apply (Hw 2%nat). left. reflexivity.
  - apply (Hgone 2%nat). reflexivity.
  - destruct (Hlive 1%nat eq_refl eq_refl) as [Hrec _]. etrans; [exact Hrec|reflexivity].
  - destruct (Hlive 3%nat eq_refl eq_refl) as [Hrec _]. etrans; [exact Hrec|reflexivity].
  - etrans; [apply Hexact|reflexivity]. intros h _ _. unfold s. simpl.
    by destruct (h =? 2)%nat.
Defined.

(** C1 as stated fails: a channel whose only handle is live (neither
    destroyed nor writableEnded) loses that handle when the payload holds a
    BigInt, because the TypeError of [JSON.stringify] is caught by the [try]
    around the writes and the handle is classified dead. *)
Lemma broadcastToChannel_live_count_counterexample :
  ~ (forall (o : BaseServiceOptions) (time channel eventType : string) (d : value) (s : SSE),
        enableSSE o = true ->
        (forall h, h ∈ clientsOf channel (sseClients s) -> isDead (streams s) h = false) ->
        getChannelClientCount channel
          (sseClients (broadcastToChannel o time channel eventType d s))
        = getChannelClientCount channel (sseClients s)).
Proof.
  intros Hcount.
  specialize (Hcount sseOptions "2026-01-01T00:00:00.000Z" "orders" "created"
                (VObj [("id", VBigInt 5)])
                {| sseClients := {[ "orders" := [1%nat] ]}; streams := λ _, freshResponse |}
                eq_refl).
  assert (forall h : Handle, isDead (λ _ : Handle, freshResponse) h = false) as Hlive by done.
  specialize (Hcount (λ h _, Hlive h)). vm_compute in Hcount. discriminate.
Qed.



(** ** Pagination *)

Lemma ceil_div_spec (a b : Z) :
  (0 < b)%Z -> ((ceil_div a b - 1) * b < a <= ceil_div a b * b)%Z.
Proof.
  intros Hb. unfold ceil_div.
  pose proof (Z.div_mod (- a) b ltac:(lia)) as Hdm.
  pose proof (Z.mod_pos_bound (- a) b Hb) as Hm. nia.
Qed.

Lemma ceil_div_unique (a b k : Z) :
  (0 < b)%Z -> ((k - 1) * b < a <= k * b)%Z -> ceil_div a b = k.
Proof.
  intros Hb Hk. pose proof (ceil_div_spec a b Hb). nia.
Qed.

Lemma normalizePagination_limit_range o pagination :
  (1 <= maxPageSize o)%Z ->
  (1 <= limit (normalizePagination o pagination) <= maxPageSize o)%Z.
Proof. intros Hmax. unfold normalizePagination. simpl. lia. Qed.

Lemma normalizePagination_page o pagination :
  (1 <= page (normalizePagination o pagination))%Z.
Proof. unfold normalizePagination. simpl. lia. Qed.

(** C3. When the configured [maxPageSize] is at least 1, every pagination
    request is normalized to a limit in [1, maxPageSize] (a caller limit
    above [maxPageSize] becomes [maxPageSize]), a page of at least 1 and the
    offset [(page - 1) * limit >= 0]; and the result built for it, also the
    one [findMany] returns, has [totalPages = ceil(total / limit)], the least
    integer [k] with [total <= k * limit]. *)
Theorem pagination_clamped_and_totalPages
    (o : BaseServiceOptions) (pagination : option PartialPagination) :
  (1 <= maxPageSize o)%Z ->
  let p := normalizePagination o pagination in
  (1 <= limit p <= maxPageSize o)%Z /\
  (forall n, pagination ≫= limit_in = Some (Num n) -> (maxPageSize o < n)%Z ->
             limit p = maxPageSize o) /\
  (1 <= page p)%Z /\
  offset p = ((page p - 1) * limit p)%Z /\
  (0 <= offset p)%Z /\
  (forall (T : Type) (data : list T) (n : Z),
      let r := buildPaginationResult data n p in
      result_limit r = limit p /\ total r = n /\
      ((totalPages r - 1) * limit p < n <= totalPages r * limit p)%Z) /\
  (forall (DB : Type) (M : ModelDelegate DB) (this : Service) (h : Host)
          (filters : value) (orderBy : option value) (include omit : value)
          (w : World DB) (r : PaginationResult value),
      options this = o ->
      findMany this h filters pagination orderBy include omit w = Normal r ->
      (1 <= result_limit r <= maxPageSize o)%Z /\
      (1 <= result_page r)%Z /\
      ((totalPages r - 1) * result_limit r < total r <= totalPages r * result_limit r)%Z).
Proof.
  intros Hmax p.
  pose proof (normalizePagination_limit_range o pagination Hmax) as Hl.
  pose proof (normalizePagination_page o pagination) as Hp.
  fold p in Hl, Hp.
  split; [done|]. split.
  { intros n Hn Hgt. subst p. unfold normalizePagination. simpl. rewrite Hn. simpl.
    destruct (n =? 0)%Z eqn:E; lia. }
  split; [done|]. split; [done|]. split.
  { subst p. unfold normalizePagination in *. simpl in *. nia. }
  split.
  - intros T data n r. subst r. simpl. split; [done|]. split; [done|].
    apply ceil_div_spec. lia.
  - intros DB M this h filters orderBy include omit w r Ho Hfind.
    unfold findMany in Hfind. rewrite Ho in Hfind. fold p in Hfind.
    destruct (model_findMany _ _) as [data|e]; [|done].
    destruct (model_count _ _) as [n|e]; [|done].
    injection Hfind as <-. simpl. split; [done|]. split; [done|].
    apply ceil_div_spec. lia.
Qed.

(** A caller asks for page 3 with 5000 rows per page under the default
    configuration, and 2500 rows match. *)
Lemma pagination_clamped_and_totalPages_witness :
  let p := normalizePagination defaultOptions
             (Some {| page_in := Some (Num 3); limit_in := Some (Num 5000) |}) in
  limit p = 1000%Z /\ offset p = 2000%Z /\
  totalPages (buildPaginationResult (@nil value) 2500 p) = 3%Z.
Proof.
  intros p.
  pose proof (pagination_clamped_and_totalPages defaultOptions
                (Some {| page_in := Some (Num 3); limit_in := Some (Num 5000) |})
                ltac:(vm_compute; discriminate)) as (_ & Hclamp & _ & Hoff & _ & Hres & _).
  split; [|split].
  - apply (Hclamp 5000%Z); [reflexivity|reflexivity].
  - exact Hoff.
  - destruct (Hres value [] 2500%Z) as (_ & _ & Hceil).
    rewrite (Hclamp 5000%Z eq_refl eq_refl) in Hceil. subst p.
    change (maxPageSize defaultOptions) with 1000%Z in Hceil. lia.
Defined.

(** C10. With [1 <= defaultPageSize <= maxPageSize]: a falsy limit
    (missing, [NaN] or [0]) becomes [defaultPageSize], not 1; a negative
    limit becomes 1; a page of [0] becomes 1.  So the limits [0] and [-1]
    give different effective limits whenever [defaultPageSize] is not 1, as
    under the constructor defaults (10 against 1). *)
Theorem pagination_zero_limit_is_default
    (o : BaseServiceOptions) (pagination : PartialPagination) :
  (1 <= defaultPageSize o <= maxPageSize o)%Z ->
  (falsy (limit_in pagination) = true ->
   limit (normalizePagination o (Some pagination)) = defaultPageSize o) /\
  (forall n, limit_in pagination = Some (Num n) -> (n < 0)%Z ->
             limit (normalizePagination o (Some pagination)) = 1%Z) /\
  (falsy (page_in pagination) = true ->
   page (normalizePagination o (Some pagination)) = 1%Z) /\
  limit (normalizePagination o None) = defaultPageSize o /\
  limit (normalizePagination o (Some (mkPartial (page_in pagination) (Some (Num 0)))))
    = defaultPageSize o /\
  limit (normalizePagination o (Some (mkPartial (page_in pagination) (Some (Num (-1))))))
    = 1%Z /\
  limit (normalizePagination defaultOptions (Some (mkPartial None (Some (Num 0))))) = 10%Z /\
  limit (normalizePagination defaultOptions (Some (mkPartial None (Some (Num (-1)))))) = 1%Z.
Proof.
  intros Hdef. unfold normalizePagination. simpl.
  split; [|split; [|split; [|split; [|split; [|split]]]]].
  - intros Hf. destruct (limit_in pagination) as [[|n]|]; simpl in *; try lia.
    rewrite Hf. lia.
  - intros n -> Hn. simpl. destruct (n =? 0)%Z eqn:E; lia.
  - intros Hf. destruct (page_in pagination) as [[|n]|]; simpl in *; try lia.
    rewrite Hf. lia.
  - lia.
  - lia.
  - lia.
  - split; reflexivity.
Qed.

Lemma pagination_zero_limit_is_default_witness :
  limit (normalizePagination sseOptions (Some (mkPartial (Some (Num 0)) (Some (Num 0)))))
  = 10%Z /\
  limit (normalizePagination sseOptions (Some (mkPartial (Some (Num 0)) (Some (Num (-7))))))
  = 1%Z /\
  page (normalizePagination sseOptions (Some (mkPartial (Some (Num 0)) (Some (Num 0)))))
  = 1%Z.
Proof.
  assert (1 <= defaultPageSize sseOptions <= maxPageSize sseOptions)%Z as Hcfg
    by (vm_compute; split; discriminate).
  destruct (pagination_zero_limit_is_default sseOptions
              (mkPartial (Some (Num 0)) (Some (Num 0))) Hcfg) as (Hzero & _ & Hpage & _).
  destruct (pagination_zero_limit_is_default sseOptions
              (mkPartial (Some (Num 0)) (Some (Num (-7)))) Hcfg) as (_ & Hneg & _).
  split; [|split].
  - apply Hzero. reflexivity.
  - apply (Hneg (-7)%Z); reflexivity.
  - apply Hpage. reflexivity.
Defined.

(** ** Objects *)

Lemma obj_get_set_eq key v o : obj_get key (obj_set key v o) = v.
Proof.
  induction o as [|[k x] o IH]; simpl.
  - by rewrite String.eqb_refl.
  - destruct (String.eqb k key) eqn:E; simpl; rewrite E; done.
Qed.

Lemma obj_get_set_ne key key' v o :
  key <> key' -> obj_get key' (obj_set key v o) = obj_get key' o.
Proof.
  intros Hne. induction o as [|[k x] o IH]; simpl.
  - apply String.eqb_neq in Hne. by rewrite Hne.
  - destruct (String.eqb k key) eqn:E; simpl.
    + apply String.eqb_eq in E as ->. apply String.eqb_neq in Hne. by rewrite Hne.
    + by rewrite IH.
Qed.

Lemma obj_has_set key key' v o :
  obj_has key' (obj_set key v o) = String.eqb key key' || obj_has key' o.
Proof.
  induction o as [|[k x] o IH]; simpl.
  - done.
  - destruct (String.eqb k key) eqn:E; simpl.
    + apply String.eqb_eq in E as ->. by destruct (String.eqb key key').
    + rewrite IH. by destruct (String.eqb k key'), (String.eqb key key').
Qed.

Lemma obj_has_elem key o : obj_has key o = true <-> key ∈ obj_keys o.
Proof.
  unfold obj_keys. induction o as [|[k x] o IH]; simpl.
  - split; [done|]. intros H. by apply elem_of_nil in H.
  - rewrite elem_of_cons, orb_true_iff, IH, String.eqb_eq.
    split; (intros [?|?]; [left|right]; done).
Qed.

Lemma obj_get_absent key o : obj_has key o = false -> obj_get key o = VUndefined.
Proof.
  induction o as [|[k x] o IH]; simpl; [done|].
  destruct (String.eqb k key); simpl; [done|apply IH].
Qed.


Lemma obj_has_assign key target source :
  obj_has key (assign target source) = obj_has key source || obj_has key target.
Proof.
  unfold assign. revert target.
  induction source as [|[k x] source IH]; intros target; simpl; [done|].
  rewrite IH, obj_has_set. simpl.
  by destruct (String.eqb k key), (obj_has key source), (obj_has key target).
Qed.

(** ** Filters *)

Lemma mergeStep_get addition current key field :
  obj_get field (mergeStep addition current key)
  = if String.eqb key field
    then mergedValue (obj_get field current) (obj_get field addition)
    else obj_get field current.
Proof.
  unfold mergeStep, mergedValue. destruct (String.eqb key field) eqn:E.
  - apply String.eqb_eq in E as ->.
    destruct (is_nonarray_object (obj_get field addition)).
    + by rewrite !obj_get_set_eq.
    + by rewrite obj_get_set_eq.
  - apply String.eqb_neq in E.
    destruct (is_nonarray_object (obj_get key addition)).
    + by rewrite !obj_get_set_ne.
    + by rewrite obj_get_set_ne.
Qed.

Lemma mergeSteps_get addition keys current field :
  NoDup keys ->
  obj_get field (foldl (mergeStep addition) current keys)
  = if bool_decide (field ∈ keys)
    then mergedValue (obj_get field current) (obj_get field addition)
    else obj_get field current.
Proof.
  revert current. induction keys as [|k keys IH]; intros current Hnd; cbn [foldl].
  - rewrite bool_decide_eq_false_2; [done|]. intros H. by apply elem_of_nil in H.
  - apply NoDup_cons in Hnd as [Hk Hnd]. rewrite IH by done. rewrite mergeStep_get.
    destruct (String.eqb k field) eqn:E.
    + apply String.eqb_eq in E as ->.
      rewrite (bool_decide_eq_false_2 (field ∈ keys)) by done.
      rewrite bool_decide_eq_true_2 by left. done.
    + apply String.eqb_neq in E. destruct (bool_decide (field ∈ keys)) eqn:B.
      * apply bool_decide_eq_true in B. rewrite bool_decide_eq_true_2 by (by right). done.
      * apply bool_decide_eq_false in B. rewrite bool_decide_eq_false_2; [done|].
        intros [?|?]%elem_of_cons; [congruence|done].
Qed.

(** [mergeFilters], read key by key. *)
Lemma mergeFilters_get current addition field :
  NoDup (obj_keys addition) ->
  obj_get field (mergeFilters current addition)
  = if obj_has field addition
    then mergedValue (obj_get field current) (obj_get field addition)
    else obj_get field current.
Proof.
  intros Hnd. unfold mergeFilters. rewrite mergeSteps_get by done.
  destruct (obj_has field addition) eqn:Hh.
  - apply obj_has_elem in Hh. by rewrite bool_decide_eq_true_2.
  - rewrite bool_decide_eq_false_2; [done|]. intros Hin. apply obj_has_elem in Hin. congruence.
Qed.


Lemma filterMap_get_own (fm : FilterMap) key handler :
  own_handler fm key = Some handler -> filterMap_get fm key = OwnHandler handler.
Proof. intros H. unfold filterMap_get. by rewrite H. Qed.

Lemma applyEntry_own (fm : FilterMap) filters key v handler :
  v <> VUndefined -> own_handler fm key = Some handler ->
  applyEntry fm filters (key, v) = Normal (mergeFilters filters (handler v)).
Proof.
  intros Hv Hk. unfold applyEntry. cbn [fst snd]. rewrite (filterMap_get_own _ _ _ Hk).
  by destruct v.
Qed.

Lemma applyEntry_not_found (fm : FilterMap) filters kv :
  found fm kv = false -> applyEntry fm filters kv = Normal filters.
Proof.
  unfold found, applyEntry. destruct kv as [k v]. cbn [fst snd].
  destruct v; destruct (filterMap_get fm k); done.
Qed.

(** A TypeError ends the loop. *)
Lemma applyFilters_raised (fm : FilterMap) e query :
  foldl (λ acc kv,
           match acc with
           | Throw e => Throw e
           | Normal filters => applyEntry fm filters kv
           end) (Throw e) query = Throw e.
Proof. induction query as [|kv query IH]; [done|]. exact IH. Qed.







(** ** Slugs *)









(** ** Broadcasts to several channels *)

Lemma repeat_string_add n m s :
  repeat_string (n + m) s = repeat_string n s +:+ repeat_string m s.
Proof.
  induction n as [|n IH]; [done|]. simpl. by rewrite IH, string_app_assoc.
Qed.

Section broadcastToChannels.
Variables (o : BaseServiceOptions) (time eventType : string) (d : value).

Lemma broadcastToChannel_sameFlags chan s h :
  sameFlags (streams s h) (streams (broadcastToChannel o time chan eventType d s) h).
Proof.
  destruct (enableSSE o) eqn:Hon.
  - by destruct (broadcastToChannel_spec o time chan eventType d s Hon) as (_ & Hfl & _).
  - rewrite broadcastToChannel_off by done. apply sameFlags_refl.
Qed.

Lemma broadcastToChannel_subset chan s c x :
  x ∈ clientsOf c (sseClients (broadcastToChannel o time chan eventType d s)) ->
  x ∈ clientsOf c (sseClients s).
Proof.
  destruct (enableSSE o) eqn:Hon; [|by rewrite broadcastToChannel_off].
  destruct (decide (chan = c)) as [<-|Hne].
  - rewrite broadcastToChannel_clients by done. rewrite elem_of_List_filter. by intros [? _].
  - unfold clientsOf. by rewrite broadcastToChannel_other_channel.
Qed.

Lemma broadcastToChannel_keeps_reachable chan s c h :
  unreachable d (streams s) h = false ->
  registrations h (clientsOf c (sseClients (broadcastToChannel o time chan eventType d s)))
  = registrations h (clientsOf c (sseClients s)).
Proof.
  intros Hr. destruct (enableSSE o) eqn:Hon; [|by rewrite broadcastToChannel_off].
  destruct (decide (chan = c)) as [<-|Hne].
  - rewrite broadcastToChannel_clients by done.
    apply (registrations_filter_keep (λ c, negb (unreachable d (streams s) c))).
    by rewrite Hr.
  - unfold clientsOf. by rewrite broadcastToChannel_other_channel.
Qed.

Lemma broadcastToChannels_cons chan channels s :
  broadcastToChannels o time (chan :: channels) eventType d s
  = broadcastToChannels o time channels eventType d
      (broadcastToChannel o time chan eventType d s).
Proof. reflexivity. Qed.

Lemma broadcastToChannels_sameFlags channels s h :
  sameFlags (streams s h) (streams (broadcastToChannels o time channels eventType d s) h).
Proof.
  revert s. induction channels as [|c cs IH]; intros s; [apply sameFlags_refl|].
  rewrite broadcastToChannels_cons.
  eapply sameFlags_trans; [apply broadcastToChannel_sameFlags|apply IH].
Qed.

Lemma broadcastToChannels_subset channels s c x :
  x ∈ clientsOf c (sseClients (broadcastToChannels o time channels eventType d s)) ->
  x ∈ clientsOf c (sseClients s).
Proof.
  revert s. induction channels as [|c' cs IH]; intros s; [done|].
  rewrite broadcastToChannels_cons. intros Hx. apply IH in Hx.
  by apply broadcastToChannel_subset in Hx.
Qed.

(** A handle registered on none of the listed channels is written nothing. *)
Lemma broadcastToChannels_untouched channels s h :
  (forall c, c ∈ channels -> h ∉ clientsOf c (sseClients s)) ->
  written (streams (broadcastToChannels o time channels eventType d s) h)
  = written (streams s h).
Proof.
  revert s. induction channels as [|c cs IH]; intros s Hout; [done|].
  rewrite broadcastToChannels_cons. rewrite IH.
  - destruct (enableSSE o) eqn:Hon; [|by rewrite broadcastToChannel_off].
    apply broadcastToChannel_untouched; [done|]. apply Hout. by left.
  - intros c' Hc' Hin. apply broadcastToChannel_subset in Hin.
    by apply (Hout c' ltac:(by right)).
Qed.

(** The entry of a channel that is not listed stays as it is. *)
Lemma broadcastToChannels_other_channel channels s other :
  other ∉ channels ->
  sseClients (broadcastToChannels o time channels eventType d s) !! other
  = sseClients s !! other.
Proof.
  revert s. induction channels as [|c cs IH]; intros s Hout; [done|].
  apply not_elem_of_cons in Hout as [Hne Hout].
  rewrite broadcastToChannels_cons, IH by done.
  destruct (enableSSE o) eqn:Hon; [|by rewrite broadcastToChannel_off].
  by apply broadcastToChannel_other_channel.
Qed.

Lemma broadcastToChannel_received_reachable chan s h json :
  enableSSE o = true ->
  JSON_stringify d = Normal json ->
  isDead (streams s) h = false ->
  writeFails (streams s h) = false ->
  received (streams (broadcastToChannel o time chan eventType d s)) h
  = received (streams s) h
    +:+ repeat_string (registrations h (clientsOf chan (sseClients s)))
          (frame eventType (template_of json)).
Proof.
  intros Hon Hjson Hd Hf. rewrite broadcastToChannel_received by done.
  unfold chunksFor. rewrite Hd, Hf, Hjson. do 2 f_equal.
  unfold frame, eventLine, dataLine. simpl foldr.
  by rewrite string_app_nil_r, !string_app_assoc.
Qed.

Lemma subscriptions_ext h channels (reg reg' : gmap string (list Handle)) :
  (forall c, registrations h (clientsOf c reg') = registrations h (clientsOf c reg)) ->
  subscriptions h channels reg' = subscriptions h channels reg.
Proof.
  intros Hsame. induction channels as [|c cs IH]; [done|]. simpl. by rewrite Hsame, IH.
Qed.

(** A live handle whose writes do not raise receives, for a payload that
    serializes, one frame for each of its registrations on the listed
    channels, and stays registered as it was. *)
Lemma broadcastToChannels_received channels s h json :
  enableSSE o = true ->
  JSON_stringify d = Normal json ->
  isDead (streams s) h = false ->
  writeFails (streams s h) = false ->
  received (streams (broadcastToChannels o time channels eventType d s)) h
  = received (streams s) h
    +:+ repeat_string (subscriptions h channels (sseClients s))
          (frame eventType (template_of json)) /\
  forall c, registrations h (clientsOf c
              (sseClients (broadcastToChannels o time channels eventType d s)))
            = registrations h (clientsOf c (sseClients s)).
Proof.
  intros Hon Hjson. revert s.
  induction channels as [|c cs IH]; intros s Hd Hf.
  - simpl. by rewrite string_app_nil_r.
  - rewrite broadcastToChannels_cons.
    assert (unreachable d (streams s) h = false) as Hr.
    { unfold unreachable, sendRaises, unserializable. by rewrite Hd, Hf, Hjson. }
    pose proof (broadcastToChannel_sameFlags c s h) as (Hf1 & Hf2 & Hf3).
    destruct (IH (broadcastToChannel o time c eventType d s)) as [Hrec Hregs].
    { unfold isDead in *. by rewrite <- Hf1, <- Hf2. }
    { by rewrite <- Hf3. }
    split.
    + rewrite Hrec, (broadcastToChannel_received_reachable c s h json) by done.
      rewrite string_app_assoc. f_equal. simpl subscriptions.
      rewrite repeat_string_add. f_equal. f_equal.
      apply subscriptions_ext. intros c0. by apply broadcastToChannel_keeps_reachable.
    + intros c0. rewrite Hregs. by apply broadcastToChannel_keeps_reachable.
Qed.
End broadcastToChannels.

(** ** Events of create and update *)

Lemma broadcastIfRequested_on this h broadcastChannels eventType payload s :
  enableSSE (options this) = true ->
  broadcastIfRequested this h broadcastChannels eventType payload s
  = broadcastToChannels (options this) (now h) (default [] broadcastChannels)
      eventType payload s.
Proof.
  intros Hon. unfold broadcastIfRequested. destruct broadcastChannels; [|done].
  by rewrite Hon.
Qed.

Lemma broadcastIfRequested_untouched this h broadcastChannels eventType payload s client :
  (forall c, c ∈ default [] broadcastChannels -> client ∉ clientsOf c (sseClients s)) ->
  written (streams (broadcastIfRequested this h broadcastChannels eventType payload s) client)
  = written (streams s client).
Proof.
  intros Hout. unfold broadcastIfRequested. destruct broadcastChannels as [chans|]; [|done].
  destruct (enableSSE (options this)); [|done]. by apply broadcastToChannels_untouched.
Qed.

Lemma broadcastIfRequested_other_channel this h broadcastChannels eventType payload s other :
  other ∉ default [] broadcastChannels ->
  sseClients (broadcastIfRequested this h broadcastChannels eventType payload s) !! other
  = sseClients s !! other.
Proof.
  intros Hout. unfold broadcastIfRequested. destruct broadcastChannels as [chans|]; [|done].
  destruct (enableSSE (options this)); [|done]. by apply broadcastToChannels_other_channel.
Qed.

(** C6. A successful [create] with SSE enabled broadcasts [created] to every
    channel of the caller's list and then, list or no list, to the channel
    "*": a live subscriber receives one frame for each of its registrations
    on the listed channels plus one for each on "*".  A successful
    [updateById] broadcasts [updated] to the listed channels only: a handle
    registered on none of them, such as one subscribed to "*" alone, is
    written nothing, and the entry of "*" is left alone unless "*" is
    listed. *)
Theorem create_broadcasts_wildcard_update_listed_only
    (DB : Type) (M : ModelDelegate DB) (this : Service) (h : Host) :
  (forall data include broadcastChannels (w : World DB) result w',
      enableSSE (options this) = true ->
      create this h data include broadcastChannels w = (Normal result, w') ->
      exists id,
        result_id result = Normal id /\
        sse w' = broadcastToChannel (options this) (now h) "*" "created"
                   (eventPayload this id result)
                   (broadcastToChannels (options this) (now h) (default [] broadcastChannels)
                      "created" (eventPayload this id result) (sse w)) /\
        forall client json,
          JSON_stringify (eventPayload this id result) = Normal json ->
          isDead (streams (sse w)) client = false ->
          writeFails (streams (sse w) client) = false ->
          received (streams (sse w')) client
          = received (streams (sse w)) client
            +:+ repeat_string
                  (subscriptions client (default [] broadcastChannels) (sseClients (sse w))
                   + registrations client (clientsOf "*" (sseClients (sse w))))
                  (frame "created" (template_of json))) /\
  (forall id data include broadcastChannels (w : World DB) result w',
      updateById this h id data include broadcastChannels w = (Normal result, w') ->
      (forall client,
          (forall c, c ∈ default [] broadcastChannels ->
                     client ∉ clientsOf c (sseClients (sse w))) ->
          written (streams (sse w') client) = written (streams (sse w) client)) /\
      ("*" ∉ default [] broadcastChannels ->
       sseClients (sse w') !! "*" = sseClients (sse w) !! "*") /\
      (forall channels,
          enableSSE (options this) = true -> broadcastChannels = Some channels ->
          exists rid,
            result_id result = Normal rid /\
            sse w' = broadcastToChannels (options this) (now h) channels "updated"
                       (eventPayload this rid result) (sse w)) /\
      (enableSSE (options this) = false \/ broadcastChannels = None -> sse w' = sse w)).
Proof.
  split.
  - intros data include bc w result w' Hon Hcreate. unfold create, fail in Hcreate.
    destruct (model_create _ _ _) as [[res|e] db']; [|done].
    rewrite Hon in Hcreate. destruct (result_id res) as [id|e] eqn:Hid; [|done].
    injection Hcreate as <- <-. exists id. split; [done|]. simpl sse.
    rewrite broadcastIfRequested_on by done. split; [done|].
    intros client json Hjson Hd Hf.
    destruct (broadcastToChannels_received (options this) (now h) "created"
                (eventPayload this id res) (default [] bc) (sse w) client json
                Hon Hjson Hd Hf) as [Hrec Hregs].
    pose proof (broadcastToChannels_sameFlags (options this) (now h) "created"
                  (eventPayload this id res) (default [] bc) (sse w) client)
      as (Hf1 & Hf2 & Hf3).
    set (s1 := broadcastToChannels (options this) (now h) (default [] bc) "created"
                 (eventPayload this id res) (sse w)) in *.
    assert (isDead (streams s1) client = false) as Hd1.
    { unfold isDead in *. by rewrite <- Hf1, <- Hf2. }
    assert (writeFails (streams s1 client) = false) as Hw1 by (by rewrite <- Hf3).
    rewrite (broadcastToChannel_received_reachable (options this) (now h) "created"
               (eventPayload this id res) "*" s1 client json Hon Hjson Hd1 Hw1).
    rewrite Hrec, string_app_assoc, repeat_string_add. by rewrite Hregs.
  - intros id data include bc w result w' Hupdate. unfold updateById, fail in Hupdate.
    destruct (model_update _ _ _ _) as [[res|e] db']; [|done].
    destruct bc as [chans|].
    + destruct (enableSSE (options this)) eqn:Hon.
      * destruct (result_id res) as [rid|e] eqn:Hid; [|done].
        injection Hupdate as <- <-. cbn [sse]. split; [|split; [|split]].
        -- intros client Hout.
           exact (broadcastIfRequested_untouched this h (Some chans) "updated"
                    (eventPayload this rid res) (sse w) client Hout).
        -- intros Hout.
           exact (broadcastIfRequested_other_channel this h (Some chans) "updated"
                    (eventPayload this rid res) (sse w) "*" Hout).
        -- intros channels _ [= <-]. exists rid. split; [done|].
           exact (broadcastIfRequested_on this h (Some chans) "updated"
                    (eventPayload this rid res) (sse w) Hon).
        -- intros [?|?]; done.
      * injection Hupdate as <- <-. simpl. split; [done|]. split; [done|].
        split; [done|done].
    + injection Hupdate as <- <-. simpl. split; [done|]. split; [done|].
      split; [done|done].
Qed.

(** Handle 1 listens on "*" only, handle 2 on "orders".  A post is created
    without a channel list and then updated with the list ["orders"]: the
    creation reaches handle 1, the update does not. *)
Lemma create_broadcasts_wildcard_update_listed_only_witness :
  let w0 : World Table.Table :=
    mkWorld [] {| sseClients := {[ "*" := [1%nat]; "orders" := [2%nat] ]};
                  streams := λ _, freshResponse |} in
  let post := VObj [("id", VNum 1); ("title", VStr "hello")] in
  let edited := VObj [("id", VNum 1); ("title", VStr "bye")] in
  let w1 := (create postService productionHost (VObj [("title", VStr "hello")])
               VUndefined None w0).2 in
  let w2 := (updateById postService productionHost (VNum 1) (VObj [("title", VStr "bye")])
               VUndefined (Some ["orders"]) w1).2 in
  match JSON_stringify (eventPayload postService (VNum 1) post) with
  | Normal (Some json) =>
      received (streams (sse w1)) 1%nat = frame "created" json /\
      written (streams (sse w2) 1%nat) = written (streams (sse w1) 1%nat) /\
      received (streams (sse w2)) 2%nat = frame "updated"
        (template_of (match JSON_stringify (eventPayload postService (VNum 1) edited) with
                      | Normal json' => json'
                      | Throw _ => None
                      end))
  | _ => False
  end.
Proof.
  intros w0 post edited w1 w2.
  destruct (create_broadcasts_wildcard_update_listed_only Table.Table Table.delegate
              postService productionHost) as [Hcreate Hupdate].
  destruct (Hcreate (VObj [("title", VStr "hello")]) VUndefined None w0 post w1
              eq_refl eq_refl) as (id & Hid & _ & Hrec).
  injection Hid as <-.
  destruct (Hupdate (VNum 1) (VObj [("title", VStr "bye")]) VUndefined (Some ["orders"])
              w1 edited w2 eq_refl) as (Hquiet & _ & _ & _).
  cbv match beta. split; [|split].
  - erewrite (Hrec 1%nat) by reflexivity. reflexivity.
  - apply Hquiet. intros c Hc. apply list_elem_of_singleton in Hc as ->.
    vm_compute. intros Hin. apply list_elem_of_singleton in Hin. discriminate.
  - reflexivity.
Defined.

(** ** Error mapping *)

Lemma handleDatabaseError_P2025 this h error operation :
  thrownCode h error = Some "P2025" ->
  handleDatabaseError this h error operation = NotFoundError (modelName this +:+ " not found").
Proof. intros Hc. unfold handleDatabaseError. by rewrite bool_decide_eq_true_2. Qed.

Lemma handleDatabaseError_other this h error operation :
  thrownCode h error <> Some "P2025" ->
  handleDatabaseError this h error operation
  = DatabaseError (safeMessage this operation)
      (if bool_decide (NODE_ENV h = Some "development")
       then Some [("originalError", VStr (thrownMessage error));
                  ("code", optString (thrownCode h error))]
       else None).
Proof. intros Hc. unfold handleDatabaseError. by rewrite bool_decide_eq_false_2. Qed.

(** Outside development the error carries nothing of the driver's error. *)
Lemma handleDatabaseError_production this h error operation :
  NODE_ENV h <> Some "development" ->
  handleDatabaseError this h error operation = NotFoundError (modelName this +:+ " not found") \/
  handleDatabaseError this h error operation = DatabaseError (safeMessage this operation) None.
Proof.
  intros Henv. unfold handleDatabaseError. case_bool_decide; [by left|right].
  by rewrite bool_decide_eq_false_2.
Qed.

(** The store error P2025 of a direct store call becomes [NotFoundError]:
    [softDelete] called on its own, [updateById], and [deleteById] when it
    deletes the row. *)
Lemma direct_calls_map_P2025_to_NotFound
    (DB : Type) (M : ModelDelegate DB) (this : Service) (h : Host)
    (id data include : value) (broadcastChannels : option (list string))
    (w : World DB) (e : JsError) (db' : DB) :
  code e = Some "P2025" ->
  (model_update (VObj [("id", id)]) (prepareUpdateData this h data) include (db w)
     = (Throw e, db') ->
   updateById this h id data include broadcastChannels w
   = (Throw (NotFoundError (modelName this +:+ " not found")), mkWorld db' (sse w))) /\
  (enableSoftDelete (options this) = false ->
   model_delete (VObj [("id", id)]) (db w) = (Throw e, db') ->
   deleteById this h id broadcastChannels w
   = (Throw (NotFoundError (modelName this +:+ " not found")), mkWorld db' (sse w))).
Proof.
  intros Hcode. split.
  - intros Hup. unfold updateById, fail. rewrite Hup.
    by rewrite handleDatabaseError_P2025.
  - intros Hhard Hdel. unfold deleteById, fail. rewrite Hhard, Hdel.
    by rewrite handleDatabaseError_P2025.
Qed.

(** C7, where the code departs from it.  With soft delete enabled,
    [deleteById] of a record the store does not have: the store rejects
    with code P2025, [softDelete] maps it to [NotFoundError], and the [catch]
    of [deleteById] maps that error once more; since a [NotFoundError] does
    not carry the code P2025, the caller receives a [DatabaseError]. *)
Theorem deleteById_soft_missing_record_raises_DatabaseError
    (DB : Type) (M : ModelDelegate DB) (this : Service) (h : Host)
    (id : value) (broadcastChannels : option (list string))
    (w : World DB) (e : JsError) (db' : DB) :
  enableSoftDelete (options this) = true ->
  model_update (VObj [("id", id)])
    (VObj [("deletedAt", VDate (now h)); ("isDeleted", VBool true)]) VUndefined (db w)
    = (Throw e, db') ->
  code e = Some "P2025" ->
  appErrorCode h (NotFoundError (modelName this +:+ " not found")) <> Some "P2025" ->
  softDelete this h id w
  = (Throw (NotFoundError (modelName this +:+ " not found")), mkWorld db' (sse w)) /\
  deleteById this h id broadcastChannels w
  = (Throw (DatabaseError ("Failed to delete " +:+ toLowerCase (modelName this))
              (if bool_decide (NODE_ENV h = Some "development")
               then Some [("originalError", VStr (modelName this +:+ " not found"));
                          ("code", optString (appErrorCode h
                             (NotFoundError (modelName this +:+ " not found"))))]
               else None)),
     mkWorld db' (sse w)).
Proof.
  intros Hsoft Hup Hcode Happ.
  assert (softDelete this h id w
          = (Throw (NotFoundError (modelName this +:+ " not found")), mkWorld db' (sse w)))
    as Hsd.
  { unfold softDelete, fail. rewrite Hup. by rewrite handleDatabaseError_P2025. }
  split; [done|].
  unfold deleteById, fail. rewrite Hsoft, Hsd.
  by rewrite handleDatabaseError_other.
Qed.

(** Deleting the record 999 from an empty table, soft delete enabled. *)
Lemma deleteById_soft_missing_record_witness :
  deleteById softDeleteService productionHost (VNum 999) None
    (mkWorld ([] : Table.Table) noClients)
  = (Throw (DatabaseError "Failed to delete post" None), mkWorld [] noClients).
Proof.
  apply (deleteById_soft_missing_record_raises_DatabaseError Table.Table Table.delegate
           softDeleteService productionHost (VNum 999) None
           (mkWorld ([] : Table.Table) noClients)
           (Table.notFound "Record to update not found.") []).
  - reflexivity.
  - reflexivity.
  - reflexivity.
  - vm_compute. discriminate.
Defined.

(** ** Soft delete on the in-memory table *)

Lemma scalar_eqb_key id v : is_key id = true -> Table.scalar_eqb id v = true <-> v = id.
Proof.
  intros Hk. destruct id; try done; destruct v; simpl; split; try done.
  - intros ?%Z.eqb_eq. by subst.
  - intros [= ->]. apply Z.eqb_refl.
  - intros ?%String.eqb_eq. by subst.
  - intros [= ->]. apply String.eqb_refl.
Qed.

Lemma matches_id id row :
  is_key id = true ->
  Table.matches (VObj [("id", id)]) row = Table.scalar_eqb id (obj_get "id" row).
Proof.
  intros Hk. unfold Table.matches. simpl. rewrite andb_true_r. by destruct id.
Qed.

Lemma matches_id_live id row :
  is_key id = true ->
  Table.matches (VObj [("id", id); ("deletedAt", VNull)]) row
  = Table.scalar_eqb id (obj_get "id" row) && Table.is_null (obj_get "deletedAt" row).
Proof.
  intros Hk. unfold Table.matches. simpl. rewrite andb_true_r.
  destruct id; try done; simpl; by destruct (obj_get "deletedAt" row).
Qed.

Lemma buildWhereClause_id_soft this id :
  enableSoftDelete (options this) = true ->
  buildWhereClause this (VObj [("id", id)]) = VObj [("id", id); ("deletedAt", VNull)].
Proof. intros Hs. unfold buildWhereClause. by rewrite Hs. Qed.

Lemma update_first_unique whereClause data pre row post :
  (forall r, r ∈ pre -> Table.matches whereClause r = false) ->
  Table.matches whereClause row = true ->
  Table.update_first whereClause data (pre ++ row :: post)
  = Some (assign row (List.filter Table.is_defined data),
          pre ++ assign row (List.filter Table.is_defined data) :: post).
Proof.
  intros Hpre Hrow. induction pre as [|p pre IH]; simpl.
  - by rewrite Hrow.
  - rewrite (Hpre p) by left. rewrite IH; [done|]. intros r Hr. apply Hpre. by right.
Qed.

(** C8. On the in-memory table, with soft delete enabled and [id] the
    primary key: [deleteById] of a record of the table resolves with the
    record rewritten where it stands, [deletedAt] set to the current date and
    [isDeleted] to true, every other column and every other row as before,
    no row removed; and a [findById] of the same id afterwards, whose where
    clause carries [deletedAt: null], resolves with [null]. *)
Theorem deleteById_soft_marks_then_findById_null
    (this : Service) (h : Host) (id : value) (broadcastChannels : option (list string))
    (t : Table.Table) (s : SSE) (r : obj) :
  enableSoftDelete (options this) = true ->
  is_key id = true ->
  NoDup (keys_of t) ->
  r ∈ t ->
  obj_get "id" r = id ->
  exists pre post r' s',
    t = pre ++ r :: post /\
    deleteById this h id broadcastChannels (mkWorld t s)
    = (Normal (VObj r'), mkWorld (pre ++ r' :: post) s') /\
    r' = assign r [("deletedAt", VDate (now h)); ("isDeleted", VBool true)] /\
    obj_get "deletedAt" r' = VDate (now h) /\
    obj_get "isDeleted" r' = VBool true /\
    (forall k, k <> "deletedAt" -> k <> "isDeleted" -> obj_get k r' = obj_get k r) /\
    length (pre ++ r' :: post) = length t /\
    forall include omit,
      findById this h id include omit (mkWorld (pre ++ r' :: post) s') = Normal VNull.
Proof.
  intros Hsoft Hkey Hnd Hin Hid.
  apply list_elem_of_split in Hin as (pre & post & ->).
  unfold keys_of in Hnd. rewrite fmap_app, fmap_cons in Hnd.
  apply NoDup_app in Hnd as (_ & Hpre & Hpost). apply NoDup_cons in Hpost as [Hpost _].
  assert (forall x, x ∈ pre -> Table.scalar_eqb id (obj_get "id" x) = false) as Hpre'.
  { intros x Hx. destruct (Table.scalar_eqb id (obj_get "id" x)) eqn:E; [|done].
    apply scalar_eqb_key in E; [|done]. exfalso.
    apply (Hpre (obj_get "id" x)).
    - apply list_elem_of_fmap. by exists x.
    - rewrite E, <- Hid. left. }
  assert (forall x, x ∈ post -> Table.scalar_eqb id (obj_get "id" x) = false) as Hpost'.
  { intros x Hx. destruct (Table.scalar_eqb id (obj_get "id" x)) eqn:E; [|done].
    apply scalar_eqb_key in E; [|done]. exfalso. apply Hpost.
    rewrite Hid, <- E. apply list_elem_of_fmap. by exists x. }
  set (r' := assign r [("deletedAt", VDate (now h)); ("isDeleted", VBool true)]).
  assert (obj_get "id" r' = id) as Hid'.
  { subst r'. unfold assign. simpl. by rewrite !obj_get_set_ne. }
  assert (obj_get "deletedAt" r' = VDate (now h)) as Hdel.
  { subst r'. unfold assign. simpl. rewrite obj_get_set_ne by done. apply obj_get_set_eq. }
  exists pre, post, r',
    (broadcastIfRequested this h broadcastChannels "deleted"
       (eventPayload this id (VObj r')) s).
  split; [done|]. split.
  { unfold deleteById. rewrite Hsoft. unfold softDelete. simpl db.
    unfold model_update. simpl. unfold Table.update.
    rewrite (update_first_unique (VObj [("id", id)]) _ pre r post).
    - done.
    - intros x Hx. rewrite matches_id by done. by apply Hpre'.
    - rewrite matches_id by done. apply scalar_eqb_key; done. }
  split; [done|]. split; [done|]. split.
  { subst r'. unfold assign. simpl. apply obj_get_set_eq. }
  split.
  { intros k Hk1 Hk2. subst r'. unfold assign. simpl. by rewrite !obj_get_set_ne. }
  split.
  { rewrite !length_app. done. }
  intros include omit. unfold findById. rewrite buildWhereClause_id_soft by done.
  unfold model_findFirst. simpl. unfold Table.findFirst.
  rewrite filter_all_false; [done|].
  intros x Hx. rewrite matches_id_live by done.
  apply elem_of_app in Hx as [Hx|Hx].
  - by rewrite Hpre'.
  - apply elem_of_cons in Hx as [->|Hx].
    + rewrite Hdel. apply andb_false_r.
    + by rewrite Hpost'.
Qed.

(** Two posts; the second is deleted and then looked up. *)
Lemma deleteById_soft_marks_then_findById_null_witness :
  let first := [("id", VNum 1); ("title", VStr "a"); ("deletedAt", VNull);
                ("isDeleted", VBool false)] in
  let second := [("id", VNum 2); ("title", VStr "b"); ("deletedAt", VNull);
                 ("isDeleted", VBool false)] in
  let w0 : World Table.Table := mkWorld [first; second] noClients in
  let w1 := (deleteById softDeleteService productionHost (VNum 2) None w0).2 in
  findById softDeleteService productionHost (VNum 2) VUndefined VUndefined w0
  = Normal (VObj second) /\
  length (db w1) = 2%nat /\
  findById softDeleteService productionHost (VNum 2) VUndefined VUndefined w1 = Normal VNull.
Proof.
  intros first second w0 w1.
  assert (NoDup (keys_of [first; second])) as Hnd.
  { apply NoDup_cons. split; [|apply NoDup_singleton].
    rewrite list_elem_of_singleton. discriminate. }
  assert (second ∈ [first; second]) as Hin by (right; left).
  destruct (deleteById_soft_marks_then_findById_null softDeleteService productionHost
              (VNum 2) None [first; second] noClients second eq_refl eq_refl Hnd Hin eq_refl)
    as (pre & post & r' & s' & _ & Hrun & _ & _ & _ & _ & Hlen & Hfind).
  assert (w1 = mkWorld (pre ++ r' :: post) s') as Hw1.
  { exact (f_equal snd Hrun). }
  split; [reflexivity|]. rewrite Hw1. split; [exact Hlen|apply Hfind].
Defined.

(** ** Existing slugs on the in-memory table *)

Lemma prefix_app (b x : string) : String.prefix b (b +:+ x) = true.
Proof.
  induction b as [|a b IH]; [by destruct x|].
  rewrite string_app_cons. simpl. by destruct (ascii_dec a a).
Qed.

Lemma project_slug row :
  obj_get "slug" (Table.project (VObj [("slug", VBool true)]) VUndefined row)
  = obj_get "slug" row.
Proof.
  unfold Table.project. induction row as [|[k v] row IH]; [done|].
  change (List.filter ?f ((k, v) :: row))
    with (if f (k, v) then (k, v) :: List.filter f row else List.filter f row).
  cbn [fst].
  change (obj_get k [("slug", VBool true)])
    with (if String.eqb "slug" k then VBool true else VUndefined).
  change (obj_get "slug" ((k, v) :: row))
    with (if String.eqb k "slug" then v else obj_get "slug" row).
  rewrite (String.eqb_sym k "slug").
  destruct (String.eqb "slug" k) eqn:E; cbn [truthy].
  - change (obj_get "slug" ((k, v) :: ?l))
      with (if String.eqb k "slug" then v else obj_get "slug" l).
    by rewrite (String.eqb_sym k "slug"), E.
  - apply IH.
Qed.

Lemma slugWhere_matches baseSlug excludeId row slug :
  obj_get "slug" row = VStr slug ->
  Table.matches (slugWhere baseSlug excludeId) row = true <->
  String.prefix baseSlug slug = true /\
  match excludeId with
  | Some id =>
      if truthy (VStr id)
      then Table.field_holds (VObj [("not", VStr id)]) (obj_get "id" row) = true
      else True
  | None => True
  end.
Proof.
  intros Hslug. unfold slugWhere, Table.matches.
  destruct excludeId as [id|]; [destruct (truthy (VStr id)) eqn:Ht|];
    simpl; rewrite Hslug; simpl; rewrite ?andb_true_r, ?andb_true_iff; tauto.
Qed.

(** On the table, a string that starts with the base slug is in
    [existingSet] exactly when a row other than the excluded one holds it. *)
Lemma Table_existingSet (t : Table.Table) baseSlug excludeId existingSlugs x :
  model_findMany
    {| fm_where := slugWhere baseSlug excludeId; fm_skip := None; fm_take := None;
       fm_orderBy := VUndefined; fm_include := VUndefined; fm_omit := VUndefined;
       fm_select := VObj [("slug", VBool true)] |} t = Normal existingSlugs ->
  String.prefix baseSlug x = true ->
  x ∈ (list_to_set (omap slug_text existingSlugs) : gset string) <-> slug_taken t excludeId x.
Proof.
  intros Hq Hx. injection Hq as <-. simpl.
  rewrite elem_of_list_to_set, list_elem_of_omap. unfold slug_taken. split.
  - intros (v & Hin & Hs). apply list_elem_of_fmap in Hin as (p & -> & Hin).
    apply list_elem_of_fmap in Hin as (row & -> & Hin).
    apply elem_of_List_filter in Hin as [Hin Hm].
    unfold slug_text in Hs. rewrite project_slug in Hs.
    destruct (obj_get "slug" row) as [| | | | |s| | | |] eqn:Hslug; try done.
    injection Hs as ->. exists row. split; [done|]. split; [done|].
    by apply (slugWhere_matches baseSlug excludeId row x Hslug) in Hm as [_ Hm].
  - intros (row & Hin & Hslug & Hex).
    exists (VObj (Table.project (VObj [("slug", VBool true)]) VUndefined row)). split.
    + apply list_elem_of_fmap. eexists. split; [done|].
      apply list_elem_of_fmap. exists row. split; [done|].
      apply elem_of_List_filter. split; [done|].
      by apply (slugWhere_matches baseSlug excludeId row x Hslug).
    + unfold slug_text. by rewrite project_slug, Hslug.
Qed.

(** * Further properties *)

(** ** Subscribing and unsubscribing *)

Lemma registrations_app h l1 l2 :
  registrations h (l1 ++ l2) = (registrations h l1 + registrations h l2)%nat.
Proof. unfold registrations. by rewrite List.filter_app, length_app. Qed.

Lemma registrations_single h c :
  registrations h [c] = if decide (h = c) then 1%nat else 0%nat.
Proof.
  unfold registrations. simpl. destruct (decide (h = c)) as [->|Hne].
  - by rewrite Nat.eqb_refl.
  - apply Nat.eqb_neq in Hne. by rewrite Hne.
Qed.

Lemma registrations_spliceOut h client clients :
  registrations h (spliceOut clients client)
  = if decide (h = client) then pred (registrations h clients) else registrations h clients.
Proof.
  induction clients as [|c clients IH].
  - by destruct (decide (h = client)).
  - rewrite spliceOut_cons. destruct (decide (c = client)) as [->|Hc].
    + unfold registrations at 2 3. simpl. destruct (decide (h = client)) as [->|Hne].
      * by rewrite Nat.eqb_refl.
      * apply Nat.eqb_neq in Hne. by rewrite Hne.
    + change (c :: spliceOut clients client) with ([c] ++ spliceOut clients client).
      change (c :: clients) with ([c] ++ clients).
      rewrite !registrations_app, IH, registrations_single.
      destruct (decide (h = client)) as [->|Hne]; [|done].
      destruct (decide (client = c)); [congruence|done].
Qed.

Lemma length_spliceOut client clients :
  client ∈ clients -> length (spliceOut clients client) = pred (length clients).
Proof.
  induction clients as [|c clients IH]; intros Hin; [by apply elem_of_nil in Hin|].
  rewrite spliceOut_cons. destruct (decide (c = client)) as [->|Hc]; [done|].
  apply elem_of_cons in Hin as [?|Hin]; [congruence|]. simpl. rewrite IH by done.
  destruct clients; [by apply elem_of_nil in Hin|done].
Qed.

Lemma spliceOut_snoc client clients :
  client ∉ clients -> spliceOut (clients ++ [client]) client = clients.
Proof.
  intros Hn. rewrite spliceOut_app_notin by done. rewrite spliceOut_cons.
  destruct (decide (client = client)); [|done]. by rewrite app_nil_r.
Qed.

Lemma addSSEClient_registry o channel client s :
  enableSSE o = true ->
  sseClients (addSSEClient o channel client s)
  = <[channel := clientsOf channel (sseClients s) ++ [client]]> (sseClients s).
Proof. intros Hon. unfold addSSEClient. by rewrite Hon. Qed.

Lemma addSSEClient_clients o channel client s c :
  enableSSE o = true ->
  clientsOf c (sseClients (addSSEClient o channel client s))
  = if decide (channel = c) then clientsOf c (sseClients s) ++ [client]
    else clientsOf c (sseClients s).
Proof.
  intros Hon. rewrite addSSEClient_registry by done. unfold clientsOf.
  destruct (decide (channel = c)) as [->|Hne].
  - by rewrite lookup_insert_eq.
  - by rewrite lookup_insert_ne.
Qed.

Lemma addSSEClient_streams o channel client s h :
  sameFlags (streams s h) (streams (addSSEClient o channel client s) h) /\
  written (streams (addSSEClient o channel client s) h) = written (streams s h).
Proof.
  unfold addSSEClient. destruct (enableSSE o); simpl; [|split; [apply sameFlags_refl|done]].
  destruct (decide (client = h)) as [->|Hne].
  - rewrite !fn_lookup_alter. by repeat split.
  - rewrite !fn_lookup_alter_ne by done. split; [apply sameFlags_refl|done].
Qed.

Lemma remove_after_add o channel client s :
  enableSSE o = true ->
  client ∉ clientsOf channel (sseClients s) ->
  sseClients s !! channel <> Some [] ->
  removeSSEClient o channel client (sseClients (addSSEClient o channel client s))
  = sseClients s.
Proof.
  intros Hon Hn Hne. rewrite removeSSEClient_unfold by done.
  rewrite addSSEClient_clients by done. destruct (decide (channel = channel)); [|done].
  destruct (decide (client ∈ _)) as [_|Hx];
    [|exfalso; apply Hx; apply elem_of_app; right; left].
  rewrite spliceOut_snoc by done. rewrite addSSEClient_registry by done.
  unfold clientsOf in *. destruct (sseClients s !! channel) as [[|c l]|] eqn:E; simpl.
  - done.
  - rewrite insert_insert_eq. by apply insert_id.
  - rewrite delete_insert_eq. by apply delete_id.
Qed.

(** X1. [addSSEClient] with SSE enabled appends the handle to the
    channel's array, whether or not it is there already: the channel's count
    and the handle's registrations on it grow by one, the channel is active,
    the other channels and what the streams have received are as before.
    With SSE disabled the call changes nothing. *)
Theorem addSSEClient_appends_without_dedup
    (o : BaseServiceOptions) (channel : string) (client : Handle) (s : SSE) :
  (enableSSE o = false -> addSSEClient o channel client s = s) /\
  (enableSSE o = true ->
   let s' := addSSEClient o channel client s in
   clientsOf channel (sseClients s') = clientsOf channel (sseClients s) ++ [client] /\
   getChannelClientCount channel (sseClients s')
   = S (getChannelClientCount channel (sseClients s)) /\
   registrations client (clientsOf channel (sseClients s'))
   = S (registrations client (clientsOf channel (sseClients s))) /\
   channel ∈ getActiveChannels (sseClients s') /\
   (forall other, other <> channel -> sseClients s' !! other = sseClients s !! other) /\
   (forall h, written (streams s' h) = written (streams s h))).
Proof.
  split.
  - intros Hoff. unfold addSSEClient. by rewrite Hoff.
  - intros Hon s'. subst s'.
    assert (clientsOf channel (sseClients (addSSEClient o channel client s))
            = clientsOf channel (sseClients s) ++ [client]) as Hcl.
    { rewrite addSSEClient_clients by done. by destruct (decide (channel = channel)). }
    split; [done|]. split.
    { unfold getChannelClientCount. rewrite Hcl, length_app. simpl. lia. }
    split.
    { rewrite Hcl, registrations_app, registrations_single.
      destruct (decide (client = client)); [lia|done]. }
    split.
    { apply elem_of_getActiveChannels. rewrite addSSEClient_registry by done.
      rewrite lookup_insert_eq. by eexists. }
    split.
    { intros other Hne. rewrite addSSEClient_registry by done. by rewrite lookup_insert_ne. }
    intros h. apply addSSEClient_streams.
Qed.

(** The same handle subscribed twice to "orders". *)
Lemma addSSEClient_appends_without_dedup_witness :
  let s := addSSEClient sseOptions "orders" 1%nat
             (addSSEClient sseOptions "orders" 1%nat noClients) in
  clientsOf "orders" (sseClients s) = [1%nat; 1%nat] /\
  addSSEClient defaultOptions "orders" 1%nat noClients = noClients.
Proof.
  intros s. split.
  - destruct (addSSEClient_appends_without_dedup sseOptions "orders" 1%nat
                (addSSEClient sseOptions "orders" 1%nat noClients)) as [_ Hon].
    destruct (Hon eq_refl) as (Hcl & _). exact Hcl.
  - destruct (addSSEClient_appends_without_dedup defaultOptions "orders" 1%nat noClients)
      as [Hoff _].
    apply Hoff. reflexivity.
Defined.

(** X2. With SSE enabled, subscribing a handle that is not yet on the
    channel and unsubscribing it again gives back the registry as it was
    (the channel's entry is deleted again when the subscription had created
    it), provided the registry held no empty array for the channel. *)
Theorem removeSSEClient_undoes_addSSEClient
    (o : BaseServiceOptions) (channel : string) (client : Handle) (s : SSE) :
  enableSSE o = true ->
  client ∉ clientsOf channel (sseClients s) ->
  sseClients s !! channel <> Some [] ->
  removeSSEClient o channel client (sseClients (addSSEClient o channel client s))
  = sseClients s.
Proof. apply remove_after_add. Qed.

Lemma removeSSEClient_undoes_addSSEClient_witness :
  removeSSEClient sseOptions "orders" 2%nat
    (sseClients (addSSEClient sseOptions "orders" 2%nat
                   {| sseClients := {[ "orders" := [1%nat] ]}; streams := λ _, freshResponse |}))
  = {[ "orders" := [1%nat] ]}.
Proof.
  set (s := {| sseClients := {[ "orders" := [1%nat] ]}; streams := λ _, freshResponse |}).
  assert (2%nat ∉ clientsOf "orders" (sseClients s)) as Hfresh.
  { vm_compute. intros Hin. apply list_elem_of_singleton in Hin. discriminate. }
  assert (sseClients s !! "orders" <> Some []) as Hne by (vm_compute; discriminate).
  exact (removeSSEClient_undoes_addSSEClient sseOptions "orders" 2%nat s eq_refl Hfresh Hne).
Defined.

Lemma spliceOut_first client clients :
  client ∈ clients ->
  exists pre post,
    clients = pre ++ client :: post /\ (client ∉ pre) /\
    spliceOut clients client = pre ++ post.
Proof.
  induction clients as [|c clients IH]; intros Hin; [by apply elem_of_nil in Hin|].
  rewrite spliceOut_cons. destruct (decide (c = client)) as [->|Hc].
  - exists [], clients. split; [done|]. split; [|done]. intros H. by apply elem_of_nil in H.
  - apply elem_of_cons in Hin as [?|Hin]; [congruence|].
    destruct (IH Hin) as (pre & post & -> & Hpre & ->).
    exists (c :: pre), post. split; [done|]. split; [|done].
    intros [?|?]%elem_of_cons; [congruence|done].
Qed.

(** X3. With SSE enabled [removeSSEClient] removes one registration of the
    handle from the channel, the first one, and nothing else: unsubscribing
    a handle that is not on the channel (a second removal, an unknown
    channel) leaves the registry as it is; otherwise the handles before and
    after the first occurrence stay in their order, so the channel has one
    handle less and a handle registered twice is still registered once; the
    other channels are not touched.  With SSE disabled nothing changes. *)
Theorem removeSSEClient_removes_one_registration
    (o : BaseServiceOptions) (channel : string) (client : Handle)
    (reg : gmap string (list Handle)) :
  (enableSSE o = false -> removeSSEClient o channel client reg = reg) /\
  (enableSSE o = true ->
   let reg' := removeSSEClient o channel client reg in
   (client ∉ clientsOf channel reg -> reg' = reg) /\
   (client ∈ clientsOf channel reg ->
    (exists pre post,
        clientsOf channel reg = pre ++ client :: post /\ (client ∉ pre) /\
        clientsOf channel reg' = pre ++ post) /\
    getChannelClientCount channel reg' = pred (getChannelClientCount channel reg) /\
    registrations client (clientsOf channel reg')
    = pred (registrations client (clientsOf channel reg))) /\
   (forall other, other <> channel -> reg' !! other = reg !! other)).
Proof.
  split.
  - intros Hoff. unfold removeSSEClient. by rewrite Hoff.
  - intros Hon reg'. subst reg'. split; [by apply removeSSEClient_notin|]. split.
    { intros Hin. rewrite clientsOf_removeSSEClient by done. split; [|split].
      - by apply spliceOut_first.
      - unfold getChannelClientCount. rewrite clientsOf_removeSSEClient by done.
        by apply length_spliceOut.
      - rewrite registrations_spliceOut. by destruct (decide (client = client)). }
    intros other Hne. by apply lookup_removeSSEClient_ne.
Qed.

Lemma removeSSEClient_removes_one_registration_witness :
  let reg : gmap string (list Handle) := {[ "orders" := [1; 2; 1]%nat ]} in
  getChannelClientCount "orders" (removeSSEClient sseOptions "orders" 1%nat reg) = 2%nat /\
  removeSSEClient sseOptions "orders" 3%nat reg = reg /\
  removeSSEClient defaultOptions "orders" 1%nat reg = reg.
Proof.
  intros reg.
  destruct (removeSSEClient_removes_one_registration sseOptions "orders" 3%nat reg)
    as [_ Hon3].
  destruct (Hon3 eq_refl) as (Hmiss & _).
  destruct (removeSSEClient_removes_one_registration sseOptions "orders" 1%nat reg)
    as [_ Hon1].
  destruct (Hon1 eq_refl) as (_ & Hhit & _).
  destruct (removeSSEClient_removes_one_registration defaultOptions "orders" 1%nat reg)
    as [Hoff _].
  split; [|split].
  - destruct Hhit as (_ & Hcount & _); [vm_compute; left|]. exact Hcount.
  - apply Hmiss. vm_compute. intros Hin.
    apply elem_of_cons in Hin as [Hin|Hin]; [discriminate|].
    apply elem_of_cons in Hin as [Hin|Hin]; [discriminate|].
    apply list_elem_of_singleton in Hin. discriminate.
  - apply Hoff. reflexivity.
Defined.

(** ** Closed connections *)

Lemma listenerCount_on eventName channel ev c r :
  listenerCount eventName channel (on ev c r)
  = (listenerCount eventName channel r
     + if String.eqb ev eventName && String.eqb c channel then 1 else 0)%nat.
Proof.
  unfold listenerCount, on. simpl. rewrite List.filter_app, length_app. simpl.
  by destruct (String.eqb ev eventName && String.eqb c channel).
Qed.

(** The registry [emit] leaves, listener by listener. *)
Lemma emit_registrations o eventName client c (ls : list (string * string))
    (reg : gmap string (list Handle)) :
  enableSSE o = true ->
  registrations client
    (clientsOf c
       (foldl (λ reg l, if String.eqb l.1 eventName then removeSSEClient o l.2 client reg
                        else reg) reg ls))
  = (registrations client (clientsOf c reg)
     - length (List.filter (λ l, String.eqb l.1 eventName && String.eqb l.2 c) ls))%nat.
Proof.
  intros Hon. revert reg. induction ls as [|[ev ch] ls IH]; intros reg; simpl.
  - lia.
  - rewrite IH. destruct (String.eqb ev eventName); simpl; [|done].
    destruct (String.eqb ch c) eqn:E; simpl.
    + apply String.eqb_eq in E as ->. rewrite clientsOf_removeSSEClient by done.
      rewrite registrations_spliceOut. destruct (decide (client = client)); [lia|done].
    + apply String.eqb_neq in E. unfold clientsOf.
      by rewrite lookup_removeSSEClient_ne.
Qed.

Lemma emit_other_handles o eventName client h c (ls : list (string * string))
    (reg : gmap string (list Handle)) :
  enableSSE o = true -> h <> client ->
  registrations h
    (clientsOf c
       (foldl (λ reg l, if String.eqb l.1 eventName then removeSSEClient o l.2 client reg
                        else reg) reg ls))
  = registrations h (clientsOf c reg).
Proof.
  intros Hon Hne. revert reg. induction ls as [|[ev ch] ls IH]; intros reg; simpl; [done|].
  rewrite IH. destruct (String.eqb ev eventName); simpl; [|done].
  destruct (decide (ch = c)) as [->|Hc].
  - rewrite clientsOf_removeSSEClient by done. rewrite registrations_spliceOut.
    by destruct (decide (h = client)).
  - unfold clientsOf. by rewrite lookup_removeSSEClient_ne.
Qed.

Lemma registrations_0_notin h clients : registrations h clients = 0%nat -> h ∉ clients.
Proof.
  intros H0 Hin. apply registrations_pos in Hin. lia.
Qed.

(** X4. [addSSEClient] attaches to the response a [close] and an [error]
    listener for every registration it makes, so that, with SSE enabled, in
    a registry built by [addSSEClient] (where every registration is matched
    by its listeners) a response that emits [close] or [error] is
    registered on no channel afterwards, while the registrations of the
    other handles stay as they are. *)
Theorem closed_response_is_unsubscribed_everywhere
    (o : BaseServiceOptions) (eventName : string) (client : Handle) (s : SSE) :
  enableSSE o = true ->
  eventName = "close" \/ eventName = "error" ->
  (forall channel new, covered eventName s ->
                       covered eventName (addSSEClient o channel new s)) /\
  covered eventName noClients /\
  (covered eventName s ->
   (forall channel, client ∉ clientsOf channel (sseClients (emit o eventName client s))) /\
   (forall h channel, h <> client ->
      registrations h (clientsOf channel (sseClients (emit o eventName client s)))
      = registrations h (clientsOf channel (sseClients s)))).
Proof.
  intros Hon Hev. split; [|split].
  - intros channel new Hcov h c. specialize (Hcov h c).
    rewrite addSSEClient_clients by done.
    unfold addSSEClient. rewrite Hon. simpl streams.
    destruct (decide (new = h)) as [->|Hne].
    + rewrite !fn_lookup_alter, !listenerCount_on.
      destruct (decide (channel = c)) as [->|Hc].
      * rewrite registrations_app, registrations_single.
        destruct (decide (h = h)); [|done]. rewrite String.eqb_refl.
        destruct Hev as [-> | ->]; simpl; lia.
      * lia.
    + rewrite !fn_lookup_alter_ne by done.
      destruct (decide (channel = c)) as [->|Hc]; [|done].
      rewrite registrations_app, registrations_single.
      destruct (decide (h = new)); [congruence|lia].
  - intros h c. vm_compute. lia.
  - intros Hcov. split.
    + intros channel. apply registrations_0_notin. unfold emit. simpl sseClients.
      rewrite emit_registrations by done. specialize (Hcov client channel).
      unfold listenerCount in Hcov. lia.
    + intros h channel Hne. unfold emit. simpl sseClients.
      by apply emit_other_handles.
Qed.

(** Handle 1 subscribes to "orders" and to "*", handle 2 to "orders"; then
    the connection of handle 1 closes. *)
Lemma closed_response_is_unsubscribed_everywhere_witness :
  let s := addSSEClient sseOptions "orders" 2%nat
             (addSSEClient sseOptions "*" 1%nat
                (addSSEClient sseOptions "orders" 1%nat noClients)) in
  (1%nat ∉ clientsOf "orders" (sseClients (emit sseOptions "close" 1%nat s))) /\
  (1%nat ∉ clientsOf "*" (sseClients (emit sseOptions "close" 1%nat s))) /\
  clientsOf "orders" (sseClients (emit sseOptions "close" 1%nat s)) = [2%nat].
Proof.
  intros s.
  destruct (closed_response_is_unsubscribed_everywhere sseOptions "close" 1%nat s
              eq_refl (or_introl eq_refl)) as (_ & _ & Hclose).
  assert (covered "close" s) as Hcov.
  { subst s.
    destruct (closed_response_is_unsubscribed_everywhere sseOptions "close" 1%nat
                noClients eq_refl (or_introl eq_refl)) as (Hadd0 & Hinit & _).
    destruct (closed_response_is_unsubscribed_everywhere sseOptions "close" 1%nat
                (addSSEClient sseOptions "orders" 1%nat noClients)
                eq_refl (or_introl eq_refl)) as (Hadd1 & _ & _).
    destruct (closed_response_is_unsubscribed_everywhere sseOptions "close" 1%nat
                (addSSEClient sseOptions "*" 1%nat
                   (addSSEClient sseOptions "orders" 1%nat noClients))
                eq_refl (or_introl eq_refl)) as (Hadd2 & _ & _).
    apply Hadd2, Hadd1, Hadd0, Hinit. }
  destruct (Hclose Hcov) as [Hgone _].
  split; [apply Hgone|]. split; [apply Hgone|]. reflexivity.
Defined.

(** ** No empty channel *)

Lemma noEmptyChannel_removeSSEClient o channel client reg :
  noEmptyChannel reg -> noEmptyChannel (removeSSEClient o channel client reg).
Proof.
  intros Hinv. destruct (enableSSE o) eqn:Hon.
  - rewrite removeSSEClient_unfold by done. destruct (decide _); [|done].
    destruct (spliceOut _ client) eqn:E.
    + by apply map_Forall_delete.
    + by apply map_Forall_insert_2.
  - unfold removeSSEClient. by rewrite Hon.
Qed.

Lemma noEmptyChannel_removeAll o channel deadClients reg :
  noEmptyChannel reg -> noEmptyChannel (removeAll o channel reg deadClients).
Proof.
  unfold removeAll. revert reg. induction deadClients as [|d ds IH]; intros reg Hinv; [done|].
  simpl. apply IH. by apply noEmptyChannel_removeSSEClient.
Qed.

Lemma noEmptyChannel_broadcastToChannel o time channel eventType d s :
  noEmptyChannel (sseClients s) ->
  noEmptyChannel (sseClients (broadcastToChannel o time channel eventType d s)).
Proof.
  intros Hinv. destruct (enableSSE o) eqn:Hon.
  - destruct (broadcastToChannel_spec o time channel eventType d s Hon) as (-> & _ & _).
    by apply noEmptyChannel_removeAll.
  - by rewrite broadcastToChannel_off.
Qed.

Lemma lookup_cleanupDeadConnections o s channel :
  enableSSE o = true ->
  sseClients (cleanupDeadConnections o s) !! channel
  = match sseClients s !! channel with
    | Some clients =>
        match List.filter (λ c, negb (isDead (streams s) c)) clients with
        | [] => None
        | live => Some live
        end
    | None => None
    end.
Proof.
  intros Hon. unfold cleanupDeadConnections. rewrite Hon. simpl.
  rewrite lookup_omap. destruct (sseClients s !! channel) as [clients|]; [|done].
  pose proof (foldl_spliceOut_filter (isDead (streams s)) [] clients) as Hf.
  simpl in Hf. simpl. rewrite Hf.
  - clear Hf. by destruct (List.filter (λ c, negb (isDead (streams s) c)) clients).
  - intros c Hc. by apply elem_of_nil in Hc.
Qed.

(** X5. No operation on the registry leaves an empty channel behind: if
    no channel holds an empty array before [addSSEClient],
    [removeSSEClient], [broadcastToChannel], [broadcastToChannels] or the
    emission of [close] or [error], none does afterwards, and after
    [cleanupDeadConnections] with SSE enabled none does in any case.  In
    such a registry, which the empty one is, the active channels are the
    channels with at least one client. *)
Theorem registry_never_keeps_an_empty_channel
    (o : BaseServiceOptions) (s : SSE) :
  noEmptyChannel ∅ /\
  (enableSSE o = true -> noEmptyChannel (sseClients (cleanupDeadConnections o s))) /\
  (noEmptyChannel (sseClients s) ->
   (forall channel client,
       noEmptyChannel (sseClients (addSSEClient o channel client s))) /\
   (forall channel client,
       noEmptyChannel (removeSSEClient o channel client (sseClients s))) /\
   (forall time channel eventType d,
       noEmptyChannel (sseClients (broadcastToChannel o time channel eventType d s))) /\
   (forall time channels eventType d,
       noEmptyChannel (sseClients (broadcastToChannels o time channels eventType d s))) /\
   (forall eventName client, noEmptyChannel (sseClients (emit o eventName client s))) /\
   noEmptyChannel (sseClients (cleanupDeadConnections o s)) /\
   (forall channel,
       channel ∈ getActiveChannels (sseClients s)
       <-> (0 < getChannelClientCount channel (sseClients s))%nat)).
Proof.
  split; [apply map_Forall_empty|]. split.
  { intros Hon channel clients Hl. rewrite lookup_cleanupDeadConnections in Hl by done.
    destruct (sseClients s !! channel) as [l|]; [|done].
    destruct (List.filter _ l) eqn:E; [done|]. by injection Hl as <-. }
  intros Hinv. split; [|split; [|split; [|split; [|split; [|split]]]]].
  - intros channel client. unfold addSSEClient. destruct (enableSSE o); [|done]. simpl.
    apply map_Forall_insert_2; [|done]. by destruct (clientsOf channel (sseClients s)).
  - intros channel client. by apply noEmptyChannel_removeSSEClient.
  - intros time channel eventType d. by apply noEmptyChannel_broadcastToChannel.
  - intros time channels eventType d. revert s Hinv.
    induction channels as [|c cs IH]; intros s Hinv; [done|].
    rewrite broadcastToChannels_cons. apply IH. by apply noEmptyChannel_broadcastToChannel.
  - intros eventName client. unfold emit. simpl.
    generalize (listeners (streams s client)). intros ls. revert Hinv.
    generalize (sseClients s). induction ls as [|l ls IH]; intros reg Hinv; [done|].
    simpl. apply IH. destruct (String.eqb l.1 eventName); [|done].
    by apply noEmptyChannel_removeSSEClient.
  - destruct (enableSSE o) eqn:Hon.
    + intros channel clients Hl. rewrite lookup_cleanupDeadConnections in Hl by done.
      destruct (sseClients s !! channel) as [l|]; [|done].
      destruct (List.filter _ l) eqn:E; [done|]. by injection Hl as <-.
    + unfold cleanupDeadConnections. by rewrite Hon.
  - intros channel. rewrite elem_of_getActiveChannels.
    unfold getChannelClientCount, clientsOf. split.
    + intros [l Hl]. rewrite Hl. simpl. specialize (Hinv channel l Hl). simpl in Hinv.
      destruct l; [done|simpl; lia].
    + destruct (sseClients s !! channel) as [l|]; [by eexists|]. simpl. lia.
Qed.

(** A channel whose only handle is dead is swept away. *)
Lemma registry_never_keeps_an_empty_channel_witness :
  let s := {| sseClients := {[ "orders" := [1%nat] ]};
              streams := λ _, mkResponse true false false [] [] |} in
  getActiveChannels (sseClients (cleanupDeadConnections sseOptions s)) = [] /\
  noEmptyChannel (sseClients (cleanupDeadConnections sseOptions s)).
Proof.
  intros s.
  destruct (registry_never_keeps_an_empty_channel sseOptions s) as (_ & Hsweep & _).
  split; [reflexivity|]. apply Hsweep. reflexivity.
Defined.

(** ** The periodic sweep *)

Lemma cleanupDeadConnections_idempotent o s :
  enableSSE o = true ->
  cleanupDeadConnections o (cleanupDeadConnections o s) = cleanupDeadConnections o s.
Proof.
  intros Hon.
  pose proof (λ channel, lookup_cleanupDeadConnections o s channel Hon) as Hreg.
  assert (streams (cleanupDeadConnections o s) = streams s) as Hst.
  { unfold cleanupDeadConnections. by rewrite Hon. }
  set (s1 := cleanupDeadConnections o s) in *. clearbody s1.
  destruct s1 as [reg1 w1]. simpl in Hreg, Hst. subst w1.
  unfold cleanupDeadConnections. rewrite Hon. simpl. f_equal.
  apply map_eq. intros channel. rewrite lookup_omap, Hreg.
  destruct (sseClients s !! channel) as [l|]; [|done].
  destruct (List.filter (λ c, negb (isDead (streams s) c)) l) as [|x live] eqn:E; [done|].
  assert (List.filter (isDead (streams s)) (x :: live) = []) as Hnone.
  { apply filter_all_false. intros y Hy. rewrite <- E in Hy.
    apply elem_of_List_filter in Hy as [_ Hy]. by destruct (isDead (streams s) y). }
  remember (x :: live) as l' eqn:El'. simpl. rewrite Hnone. simpl. by subst l'.
Qed.

(** X6. With SSE enabled [cleanupDeadConnections] leaves in every channel
    exactly the handles that are neither destroyed nor writableEnded, in
    their order, and deletes the channels left without handles; it writes to
    no stream, and a second sweep changes nothing. *)
Theorem cleanupDeadConnections_keeps_the_live_handles
    (o : BaseServiceOptions) (s : SSE) :
  enableSSE o = true ->
  let s' := cleanupDeadConnections o s in
  (forall channel,
      clientsOf channel (sseClients s')
      = List.filter (λ c, negb (isDead (streams s) c)) (clientsOf channel (sseClients s))) /\
  (forall channel h, isDead (streams s) h = true -> h ∉ clientsOf channel (sseClients s')) /\
  (forall channel h, isDead (streams s) h = false ->
      registrations h (clientsOf channel (sseClients s'))
      = registrations h (clientsOf channel (sseClients s))) /\
  streams s' = streams s /\
  cleanupDeadConnections o s' = s'.
Proof.
  intros Hon s'.
  assert (forall channel,
      clientsOf channel (sseClients s')
      = List.filter (λ c, negb (isDead (streams s) c)) (clientsOf channel (sseClients s)))
    as Hcl.
  { intros channel. unfold clientsOf. subst s'.
    rewrite lookup_cleanupDeadConnections by done.
    destruct (sseClients s !! channel) as [l|]; [|done]. simpl.
    by destruct (List.filter _ l). }
  assert (streams s' = streams s) as Hst.
  { subst s'. unfold cleanupDeadConnections. by rewrite Hon. }
  split; [done|]. split; [|split; [|split; [done|]]].
  - intros channel h Hd. rewrite Hcl, elem_of_List_filter. rewrite Hd. by intros [_ ?].
  - intros channel h Hl. rewrite Hcl.
    apply (registrations_filter_keep (λ c, negb (isDead (streams s) c))). by rewrite Hl.
  - by apply cleanupDeadConnections_idempotent.
Qed.

Lemma cleanupDeadConnections_keeps_the_live_handles_witness :
  let s := {| sseClients := {[ "orders" := [1; 2; 3]%nat; "*" := [2%nat] ]};
              streams := λ h, if (h =? 2)%nat then mkResponse false true false [] []
                              else freshResponse |} in
  clientsOf "orders" (sseClients (cleanupDeadConnections sseOptions s)) = [1; 3]%nat /\
  getActiveChannels (sseClients (cleanupDeadConnections sseOptions s)) = ["orders"].
Proof.
  intros s.
  destruct (cleanupDeadConnections_keeps_the_live_handles sseOptions s eq_refl)
    as (Hcl & _).
  split; [rewrite Hcl; reflexivity|reflexivity].
Defined.

(** ** Counting the clients *)

Lemma getTotalClientCount_delete channel (reg : gmap string (list Handle)) :
  getTotalClientCount reg
  = (length (clientsOf channel reg) + getTotalClientCount (delete channel reg))%nat.
Proof.
  unfold getTotalClientCount, clientsOf.
  destruct (reg !! channel) as [l|] eqn:E; simpl.
  - rewrite (map_fold_delete_L _ _ channel l reg); [lia| |done].
    intros. lia.
  - by rewrite delete_id.
Qed.

Lemma getTotalClientCount_insert channel clients (reg : gmap string (list Handle)) :
  getTotalClientCount (<[channel := clients]> reg)
  = (length clients + getTotalClientCount (delete channel reg))%nat.
Proof.
  rewrite <- insert_delete_eq. unfold getTotalClientCount.
  rewrite map_fold_insert_L; [lia| |apply lookup_delete_eq].
  intros. lia.
Qed.

Lemma getTotalClientCount_removeSSEClient o channel client reg :
  enableSSE o = true ->
  getTotalClientCount (removeSSEClient o channel client reg)
  = if decide (client ∈ clientsOf channel reg)
    then pred (getTotalClientCount reg) else getTotalClientCount reg.
Proof.
  intros Hon. rewrite removeSSEClient_unfold by done.
  destruct (decide _) as [Hin|]; [|done].
  rewrite (getTotalClientCount_delete channel reg).
  pose proof (length_spliceOut client _ Hin) as Hlen.
  destruct (clientsOf channel reg) as [|c0 l0] eqn:Ecl; [by apply elem_of_nil in Hin|].
  destruct (spliceOut (c0 :: l0) client) as [|x rest] eqn:E.
  - simpl in Hlen. simpl. lia.
  - rewrite getTotalClientCount_insert. simpl in *. lia.
Qed.

Lemma getTotalClientCount_removeAll o channel deadClients reg :
  enableSSE o = true ->
  (getTotalClientCount (removeAll o channel reg deadClients) <= getTotalClientCount reg)%nat.
Proof.
  intros Hon. unfold removeAll. revert reg.
  induction deadClients as [|x dead IH]; intros reg; simpl; [lia|].
  etrans; [apply IH|].
  rewrite getTotalClientCount_removeSSEClient by done. destruct (decide _); lia.
Qed.

(** X7. [getTotalClientCount] follows the subscriptions: it is 0 for the
    empty registry and at least the count of any one channel; with SSE
    enabled [addSSEClient] raises it by one, [removeSSEClient] lowers it by
    one when the handle was on the channel and leaves it otherwise, and a
    broadcast never raises it. *)
Theorem getTotalClientCount_follows_subscriptions
    (o : BaseServiceOptions) (channel : string) (client : Handle) (s : SSE) :
  enableSSE o = true ->
  getTotalClientCount ∅ = 0%nat /\
  (getChannelClientCount channel (sseClients s) <= getTotalClientCount (sseClients s))%nat /\
  getTotalClientCount (sseClients (addSSEClient o channel client s))
  = S (getTotalClientCount (sseClients s)) /\
  (client ∈ clientsOf channel (sseClients s) ->
   getTotalClientCount (removeSSEClient o channel client (sseClients s))
   = pred (getTotalClientCount (sseClients s))) /\
  (client ∉ clientsOf channel (sseClients s) ->
   getTotalClientCount (removeSSEClient o channel client (sseClients s))
   = getTotalClientCount (sseClients s)) /\
  (forall time eventType d,
      (getTotalClientCount (sseClients (broadcastToChannel o time channel eventType d s))
       <= getTotalClientCount (sseClients s))%nat).
Proof.
  intros Hon. split; [done|]. split.
  { unfold getChannelClientCount. rewrite (getTotalClientCount_delete channel). lia. }
  split.
  { rewrite addSSEClient_registry by done. rewrite getTotalClientCount_insert.
    rewrite (getTotalClientCount_delete channel (sseClients s)), length_app. simpl. lia. }
  split.
  { intros Hin. rewrite getTotalClientCount_removeSSEClient by done.
    by destruct (decide _). }
  split.
  { intros Hn. by rewrite removeSSEClient_notin. }
  intros time eventType d.
  destruct (broadcastToChannel_spec o time channel eventType d s Hon) as (-> & _ & _).
  by apply getTotalClientCount_removeAll.
Qed.

Lemma getTotalClientCount_follows_subscriptions_witness :
  let s := addSSEClient sseOptions "*" 2%nat
             (addSSEClient sseOptions "orders" 1%nat noClients) in
  getTotalClientCount (sseClients s) = 2%nat /\
  getTotalClientCount (removeSSEClient sseOptions "orders" 1%nat (sseClients s)) = 1%nat.
Proof.
  intros s.
  destruct (getTotalClientCount_follows_subscriptions sseOptions "*" 2%nat
              (addSSEClient sseOptions "orders" 1%nat noClients) eq_refl)
    as (_ & _ & Hadd2 & _).
  destruct (getTotalClientCount_follows_subscriptions sseOptions "orders" 1%nat
              noClients eq_refl) as (Hzero & _ & Hadd1 & _).
  destruct (getTotalClientCount_follows_subscriptions sseOptions "orders" 1%nat
              s eq_refl) as (_ & _ & _ & Hrem & _).
  assert (getTotalClientCount (sseClients s) = 2%nat) as Htwo.
  { subst s. rewrite Hadd2, Hadd1. change (sseClients noClients) with (∅ : gmap string (list Handle)).
    by rewrite Hzero. }
  split; [done|]. rewrite Hrem, Htwo; [done|]. vm_compute. left.
Defined.

(** ** Broadcasts: isolation, repetition, failures *)

Lemma broadcastToChannel_no_entry o time channel eventType d s :
  clientsOf channel (sseClients s) = [] ->
  broadcastToChannel o time channel eventType d s = s.
Proof.
  intros Hnone. unfold broadcastToChannel. destruct (enableSSE o); [|done]. simpl.
  rewrite Hnone. simpl. by destruct s.
Qed.

(** X8. Broadcasts are confined to the channels they name.  A broadcast to
    a channel without handles (one that was never subscribed to) changes
    nothing and creates no entry; [broadcastToChannels] writes nothing to a
    handle registered on none of the listed channels, leaves the entry of
    every channel that is not listed as it is, never adds a handle to any
    channel, and with the empty list changes nothing. *)
Theorem broadcasts_are_confined_to_their_channels
    (o : BaseServiceOptions) (time eventType : string) (d : value) (s : SSE) :
  (forall channel,
      clientsOf channel (sseClients s) = [] ->
      broadcastToChannel o time channel eventType d s = s) /\
  broadcastToChannels o time [] eventType d s = s /\
  (forall channels h,
      (forall c, c ∈ channels -> h ∉ clientsOf c (sseClients s)) ->
      written (streams (broadcastToChannels o time channels eventType d s) h)
      = written (streams s h)) /\
  (forall channels other,
      other ∉ channels ->
      sseClients (broadcastToChannels o time channels eventType d s) !! other
      = sseClients s !! other) /\
  (forall channels c x,
      x ∈ clientsOf c (sseClients (broadcastToChannels o time channels eventType d s)) ->
      x ∈ clientsOf c (sseClients s)).
Proof.
  split; [intros channel; apply broadcastToChannel_no_entry|]. split; [done|].
  split; [intros channels h; apply broadcastToChannels_untouched|].
  split; [intros channels other; apply broadcastToChannels_other_channel|].
  intros channels c x. apply broadcastToChannels_subset.
Qed.

Lemma broadcasts_are_confined_to_their_channels_witness :
  let s := {| sseClients := {[ "orders" := [1%nat]; "*" := [2%nat] ]};
              streams := λ _, freshResponse |} in
  let s' := broadcastToChannels sseOptions "2026-01-01T00:00:00.000Z" ["orders"; "users"]
              "created" (VObj [("id", VNum 5)]) s in
  written (streams s' 2%nat) = [] /\
  sseClients s' !! "*" = Some [2%nat] /\
  sseClients s' !! "users" = None.
Proof.
  intros s s'.
  destruct (broadcasts_are_confined_to_their_channels sseOptions "2026-01-01T00:00:00.000Z"
              "created" (VObj [("id", VNum 5)]) s) as (_ & _ & Hquiet & Hentry & _).
  split; [|split].
  - apply (Hquiet ["orders"; "users"] 2%nat). intros c Hc. vm_compute in Hc.
    apply elem_of_cons in Hc as [->|Hc].
    + vm_compute. intros Hin. apply list_elem_of_singleton in Hin. discriminate.
    + apply list_elem_of_singleton in Hc as ->. vm_compute. apply not_elem_of_nil.
  - etrans; [apply (Hentry ["orders"; "users"] "*")|reflexivity].
    intros Hin. apply elem_of_cons in Hin as [Hin|Hin]; [discriminate|].
    apply list_elem_of_singleton in Hin. discriminate.
  - reflexivity.
Defined.

(** X9. With SSE enabled the pruning of a broadcast is complete: the
    handles left on the channel are all live and their sends did not raise,
    so broadcasting the same payload again removes nobody, and the registry
    after the second broadcast is the registry after the first. *)
Theorem broadcastToChannel_prunes_once
    (o : BaseServiceOptions) (time time' channel eventType eventType' : string)
    (d : value) (s : SSE) :
  enableSSE o = true ->
  let s1 := broadcastToChannel o time channel eventType d s in
  (forall h, h ∈ clientsOf channel (sseClients s1) ->
             isDead (streams s1) h = false /\ writeFails (streams s1 h) = false /\
             unserializable d = false) /\
  sseClients (broadcastToChannel o time' channel eventType' d s1) = sseClients s1.
Proof.
  intros Hon s1.
  assert (forall h, h ∈ clientsOf channel (sseClients s1) ->
                    unreachable d (streams s1) h = false) as Hall.
  { intros h Hin. subst s1. rewrite broadcastToChannel_clients in Hin by done.
    apply elem_of_List_filter in Hin as [_ Hr].
    rewrite <- (unreachable_ext d (streams s) _ h).
    - by destruct (unreachable d (streams s) h).
    - apply broadcastToChannel_sameFlags. }
  split.
  - intros h Hin. specialize (Hall h Hin). unfold unreachable, sendRaises in Hall.
    destruct (isDead (streams s1) h), (writeFails (streams s1 h)), (unserializable d);
      simpl in Hall; done.
  - by apply broadcastToChannel_all_reachable.
Qed.

Lemma broadcastToChannel_prunes_once_witness :
  let s := {| sseClients := {[ "orders" := [1; 2]%nat ]};
              streams := λ h, if (h =? 2)%nat then mkResponse false false true [] []
                              else freshResponse |} in
  let s1 := broadcastToChannel sseOptions "t1" "orders" "created" (VObj [("id", VNum 5)]) s in
  sseClients s1 = {[ "orders" := [1%nat] ]} /\
  sseClients (broadcastToChannel sseOptions "t2" "orders" "updated" (VObj [("id", VNum 5)]) s1)
  = sseClients s1.
Proof.
  intros s s1. split; [reflexivity|].
  destruct (broadcastToChannel_prunes_once sseOptions "t1" "t2" "orders" "created" "updated"
              (VObj [("id", VNum 5)]) s eq_refl) as [_ Hsame].
  exact Hsame.
Defined.

Lemma replicate_nil_join {A} n : mjoin (replicate n (@nil A)) = [].
Proof. induction n as [|n IH]; [done|]. simpl. done. Qed.

(** X10. What a send that raises leaves behind, SSE enabled.  A live handle
    whose [write] raises is written nothing and is unsubscribed from the
    channel.  When the payload cannot be serialized (it holds a BigInt), the
    event line has already been written: every live handle whose writes
    work receives the line [event: e\n] without a data line, once per
    registration, and the channel ends without handles (its entry is
    deleted, in a registry without empty channels). *)
Theorem broadcastToChannel_when_the_send_raises
    (o : BaseServiceOptions) (time channel eventType : string) (d : value) (s : SSE) :
  enableSSE o = true ->
  let s' := broadcastToChannel o time channel eventType d s in
  (forall h, writeFails (streams s h) = true ->
             written (streams s' h) = written (streams s h) /\
             (h ∉ clientsOf channel (sseClients s'))) /\
  (unserializable d = true ->
   clientsOf channel (sseClients s') = [] /\
   (noEmptyChannel (sseClients s) -> channel ∉ getActiveChannels (sseClients s')) /\
   forall h, isDead (streams s) h = false -> writeFails (streams s h) = false ->
             received (streams s') h
             = received (streams s) h
               +:+ repeat_string (registrations h (clientsOf channel (sseClients s)))
                     ("event: " +:+ eventType +:+ nl)).
Proof.
  intros Hon s'.
  pose proof (broadcastToChannel_spec o time channel eventType d s Hon) as (Hreg & _ & Hw).
  pose proof (broadcastToChannel_clients o time channel eventType d s Hon) as Hcl.
  fold s' in Hreg, Hw, Hcl. split.
  - intros h Hf. split.
    + rewrite Hw. unfold chunksFor. rewrite Hf.
      destruct (isDead (streams s) h); by rewrite replicate_nil_join, app_nil_r.
    + rewrite Hcl, elem_of_List_filter. intros [_ Hr].
      unfold unreachable, sendRaises in Hr. rewrite Hf in Hr.
      by destruct (isDead (streams s) h).
  - intros Hbad.
    assert (clientsOf channel (sseClients s') = []) as Hempty.
    { rewrite Hcl. apply filter_all_false. intros h _.
      unfold unreachable, sendRaises. rewrite Hbad.
      by destruct (isDead (streams s) h), (writeFails (streams s h)). }
    split; [done|]. split.
    + intros Hinv. rewrite elem_of_getActiveChannels. intros [l' Hl'].
      assert (l' = []) as -> by (unfold clientsOf in Hempty; by rewrite Hl' in Hempty).
      by apply (noEmptyChannel_broadcastToChannel o time channel eventType d s Hinv
                  channel []).
    + intros h Hd Hf.
      rewrite (broadcastToChannel_received o time channel eventType d s Hon).
      unfold chunksFor, unserializable in *. rewrite Hd, Hf.
      destruct (JSON_stringify d); [done|]. simpl foldr. unfold eventLine.
      by rewrite string_app_nil_r.
Qed.

(** A created row whose id is a BigInt, broadcast to a channel of one live
    handle. *)
Lemma broadcastToChannel_when_the_send_raises_witness :
  let s := {| sseClients := {[ "orders" := [1%nat] ]}; streams := λ _, freshResponse |} in
  let s' := broadcastToChannel sseOptions "2026-01-01T00:00:00.000Z" "orders" "created"
              (VObj [("id", VBigInt 5)]) s in
  received (streams s') 1%nat = "event: created" +:+ nl /\
  getActiveChannels (sseClients s') = [].
Proof.
  intros s s'.
  destruct (broadcastToChannel_when_the_send_raises sseOptions "2026-01-01T00:00:00.000Z"
              "orders" "created" (VObj [("id", VBigInt 5)]) s eq_refl) as [_ Hbad].
  destruct (Hbad eq_refl) as (_ & _ & Hline).
  split; [|reflexivity]. etrans; [apply (Hline 1%nat); reflexivity|reflexivity].
Defined.

(** ** Subscriptions and broadcasts in sequence *)

(** X11. There is no replay and no deduplication.  With SSE enabled, a
    handle that subscribes after a broadcast has received nothing of it;
    and a live handle whose writes work receives from the first broadcast
    after [addSSEClient] one frame for the new registration on top of one
    for each registration it had, so a handle subscribed twice receives
    every event twice. *)
Theorem subscription_then_broadcast
    (o : BaseServiceOptions) (time channel eventType : string) (d : value)
    (client : Handle) (s : SSE) :
  enableSSE o = true ->
  (client ∉ clientsOf channel (sseClients s) ->
   written (streams (addSSEClient o channel client
                       (broadcastToChannel o time channel eventType d s)) client)
   = written (streams s client)) /\
  (forall json,
      JSON_stringify d = Normal json ->
      isDead (streams s) client = false ->
      writeFails (streams s client) = false ->
      received (streams (broadcastToChannel o time channel eventType d
                           (addSSEClient o channel client s))) client
      = received (streams s) client
        +:+ repeat_string (S (registrations client (clientsOf channel (sseClients s))))
              (frame eventType (template_of json))).
Proof.
  intros Hon. split.
  - intros Hout.
    destruct (addSSEClient_streams o channel client
                (broadcastToChannel o time channel eventType d s) client) as [_ ->].
    by apply broadcastToChannel_untouched.
  - intros json Hjson Hd Hf.
    destruct (addSSEClient_streams o channel client s client) as [(H1 & H2 & H3) Hw].
    rewrite (broadcastToChannel_received_reachable o time eventType d channel
               (addSSEClient o channel client s) client json); try done.
    + unfold received. rewrite Hw. f_equal.
      rewrite addSSEClient_clients by done. destruct (decide (channel = channel)); [|done].
      rewrite registrations_app, registrations_single.
      destruct (decide (client = client)); [|done].
      by replace (registrations client (clientsOf channel (sseClients s)) + 1)%nat
        with (S (registrations client (clientsOf channel (sseClients s)))) by lia.
    + unfold isDead in *. by rewrite <- H1, <- H2.
    + by rewrite <- H3.
Qed.

Lemma subscription_then_broadcast_witness :
  let twice := addSSEClient sseOptions "orders" 1%nat
                 (addSSEClient sseOptions "orders" 1%nat noClients) in
  received (streams (broadcastToChannel sseOptions "2026-01-01T00:00:00.000Z" "orders"
                       "created" (VNum 5) twice)) 1%nat
  = frame "created" "5" +:+ frame "created" "5".
Proof.
  intros twice.
  destruct (subscription_then_broadcast sseOptions "2026-01-01T00:00:00.000Z" "orders"
              "created" (VNum 5) 1%nat (addSSEClient sseOptions "orders" 1%nat noClients)
              eq_refl) as [_ Hdouble].
  etrans; [apply (Hdouble (Some "5")); reflexivity|reflexivity].
Defined.

(** ** Pagination results *)

(** X12. For a limit of at least 1 the flags of a pagination result say
    what they are named after: [hasNext] holds exactly when rows remain
    after the page ([page * limit < total]), [hasPrevious] exactly when the
    page is not the first, [totalPages] is 0 exactly when nothing matched;
    so the first page of an empty result has neither a next nor a previous
    page.  The rows and the total are handed through. *)
Theorem buildPaginationResult_flags
    (T : Type) (data : list T) (n : Z) (pagination : PaginationOptions) :
  (1 <= limit pagination)%Z ->
  (0 <= n)%Z ->
  let r := buildPaginationResult data n pagination in
  (hasNext r = true <-> (page pagination * limit pagination < n)%Z) /\
  (hasPrevious r = true <-> (1 < page pagination)%Z) /\
  (totalPages r = 0%Z <-> n = 0%Z) /\
  (0 <= totalPages r)%Z /\
  (page pagination = 1%Z -> n = 0%Z -> hasNext r = false /\ hasPrevious r = false) /\
  result_data r = data /\ total r = n.
Proof.
  intros Hl Hn r. subst r. unfold buildPaginationResult. simpl.
  pose proof (ceil_div_spec n (limit pagination) ltac:(lia)) as Hc.
  set (tp := ceil_div n (limit pagination)) in *.
  split; [|split; [|split; [|split; [|split]]]].
  - rewrite Z.ltb_lt. split; intros H; nia.
  - by rewrite Z.gtb_lt.
  - split; intros H; nia.
  - nia.
  - intros Hp H0. split.
    + apply Z.ltb_ge. nia.
    + rewrite Hp. reflexivity.
  - done.
Qed.

Lemma buildPaginationResult_flags_witness :
  let r := buildPaginationResult ["a"; "b"] 5 {| page := 2; limit := 2; offset := 2 |} in
  hasNext r = true /\ hasPrevious r = true /\ totalPages r = 3%Z.
Proof.
  intros r.
  destruct (buildPaginationResult_flags string ["a"; "b"] 5
              {| page := 2; limit := 2; offset := 2 |}
              ltac:(vm_compute; discriminate) ltac:(vm_compute; discriminate))
    as (Hnext & Hprev & _).
  split; [|split].
  - apply Hnext. reflexivity.
  - apply Hprev. reflexivity.
  - reflexivity.
Defined.

(** X13. With [maxPageSize >= 1], [normalizePagination] hands through a
    request that is already in range (page at least 1, limit between 1 and
    [maxPageSize]) and is idempotent: normalizing its own result gives that
    result again. *)
Theorem normalizePagination_fixes_valid_requests
    (o : BaseServiceOptions) (pagination : option PartialPagination) :
  (1 <= maxPageSize o)%Z ->
  (forall p l, (1 <= p)%Z -> (1 <= l <= maxPageSize o)%Z ->
               normalizePagination o (Some (mkPartial (Some (Num p)) (Some (Num l))))
               = {| page := p; limit := l; offset := (p - 1) * l |}) /\
  (let r := normalizePagination o pagination in
   normalizePagination o (Some (mkPartial (Some (Num (page r))) (Some (Num (limit r))))) = r).
Proof.
  intros Hmax.
  assert (forall p l, (1 <= p)%Z -> (1 <= l <= maxPageSize o)%Z ->
               normalizePagination o (Some (mkPartial (Some (Num p)) (Some (Num l))))
               = {| page := p; limit := l; offset := (p - 1) * l |}) as Hfix.
  { intros p l Hp Hl. unfold normalizePagination. simpl.
    destruct (p =? 0)%Z eqn:Ep; [lia|]. destruct (l =? 0)%Z eqn:El; [lia|].
    rewrite (Z.max_r 1 p), (Z.max_r 1 l), (Z.min_r (maxPageSize o) l) by lia. done. }
  split; [done|]. intros r.
  rewrite Hfix.
  - subst r. unfold normalizePagination. done.
  - apply normalizePagination_page.
  - by apply normalizePagination_limit_range.
Qed.

Lemma normalizePagination_fixes_valid_requests_witness :
  normalizePagination defaultOptions (Some (mkPartial (Some (Num 3)) (Some (Num 25))))
  = {| page := 3; limit := 25; offset := 50 |}.
Proof.
  destruct (normalizePagination_fixes_valid_requests defaultOptions None
              ltac:(vm_compute; discriminate)) as [Hfix _].
  apply (Hfix 3%Z 25%Z); vm_compute; try split; discriminate.
Defined.

(** ** Where clauses and audit fields *)

Lemma obj_set_absent key v o :
  obj_has key o = false -> obj_set key v o = o ++ [(key, v)].
Proof.
  induction o as [|[k x] o IH]; simpl; [done|].
  destruct (String.eqb k key); simpl; [done|]. intros Hh. by rewrite IH.
Qed.

Lemma obj_set_set key v v' o : obj_set key v' (obj_set key v o) = obj_set key v' o.
Proof.
  induction o as [|[k x] o IH]; simpl.
  - by rewrite String.eqb_refl.
  - destruct (String.eqb k key) eqn:E; simpl; rewrite E; [done|]. by rewrite IH.
Qed.

Lemma obj_keys_set key v o :
  obj_keys (obj_set key v o) = if obj_has key o then obj_keys o else obj_keys o ++ [key].
Proof.
  unfold obj_keys. induction o as [|[k x] o IH]; [done|].
  cbn [obj_set obj_has]. destruct (String.eqb k key) eqn:E; [done|].
  rewrite fmap_cons, IH. cbn [orb]. by destruct (obj_has key o).
Qed.

Lemma NoDup_obj_set key v o : NoDup (obj_keys o) -> NoDup (obj_keys (obj_set key v o)).
Proof.
  intros Hnd. rewrite obj_keys_set. destruct (obj_has key o) eqn:Hh; [done|].
  apply NoDup_app. split; [done|]. split; [|apply NoDup_singleton].
  intros x Hx Hx'. apply list_elem_of_singleton in Hx' as ->.
  apply obj_has_elem in Hx. congruence.
Qed.

(** Copying an object into a fresh one gives the object. *)
Lemma assign_fresh_copy pre o :
  NoDup (obj_keys (pre ++ o)) -> assign pre o = pre ++ o.
Proof.
  unfold assign. revert pre. induction o as [|[k x] o IH]; intros pre Hnd; simpl.
  - by rewrite app_nil_r.
  - assert (obj_has k pre = false) as Hh.
    { destruct (obj_has k pre) eqn:E; [|done]. apply obj_has_elem in E.
      unfold obj_keys in *. rewrite fmap_app in Hnd. apply NoDup_app in Hnd as (_ & Hd & _).
      exfalso. apply (Hd k E). simpl. left. }
    rewrite obj_set_absent by done. rewrite IH; rewrite <- app_assoc; done.
Qed.

Lemma assign_nil_copy o : NoDup (obj_keys o) -> assign [] o = o.
Proof. intros Hnd. by rewrite (assign_fresh_copy [] o). Qed.

(** X14. With soft delete enabled the where clause of every read is an
    object whose [deletedAt] is [null], whatever the caller's filters say
    about [deletedAt]: the clause built from filters with a [deletedAt]
    condition is the clause built from the same filters without one, and
    every other condition is kept.  With soft delete disabled the filters
    are the where clause. *)
Theorem buildWhereClause_forces_deletedAt_null
    (this : Service) (filters : obj) :
  NoDup (obj_keys filters) ->
  (enableSoftDelete (options this) = false ->
   buildWhereClause this (VObj filters) = VObj filters) /\
  (enableSoftDelete (options this) = true ->
   buildWhereClause this (VObj filters) = VObj (obj_set "deletedAt" VNull filters) /\
   obj_get "deletedAt" (obj_set "deletedAt" VNull filters) = VNull /\
   (forall key, key <> "deletedAt" ->
                obj_get key (obj_set "deletedAt" VNull filters) = obj_get key filters) /\
   (forall condition,
       buildWhereClause this (VObj (obj_set "deletedAt" condition filters))
       = buildWhereClause this (VObj filters))).
Proof.
  intros Hnd. split.
  - intros Hoff. unfold buildWhereClause. by rewrite Hoff.
  - intros Hon.
    assert (forall o, NoDup (obj_keys o) ->
                      buildWhereClause this (VObj o) = VObj (obj_set "deletedAt" VNull o))
      as Hbuild.
    { intros o Ho. unfold buildWhereClause. rewrite Hon. simpl. by rewrite assign_nil_copy. }
    split; [by apply Hbuild|]. split; [apply obj_get_set_eq|]. split.
    + intros key Hne. by apply obj_get_set_ne.
    + intros condition. rewrite !Hbuild by (try apply NoDup_obj_set; done).
      by rewrite obj_set_set.
Qed.

(** A caller asking for the deleted posts of an author gets the clause for
    the author's live posts. *)
Lemma buildWhereClause_forces_deletedAt_null_witness :
  buildWhereClause softDeleteService
    (VObj [("authorId", VNum 7); ("deletedAt", VObj [("not", VNull)])])
  = VObj [("authorId", VNum 7); ("deletedAt", VNull)].
Proof.
  assert (NoDup (obj_keys [("authorId", VNum 7)])) as Hnd by apply NoDup_singleton.
  destruct (buildWhereClause_forces_deletedAt_null softDeleteService
              [("authorId", VNum 7)] Hnd) as [_ Hon].
  destruct (Hon eq_refl) as (Hbuild & _ & _ & Hoverride).
  etrans; [apply (Hoverride (VObj [("not", VNull)]))|]. exact Hbuild.
Defined.

(** X15. With audit fields enabled [prepareCreateData] stamps [createdAt]
    and [updatedAt] with the current date and [prepareUpdateData] stamps
    [updatedAt] alone; a value the caller supplied for a stamped field is
    replaced, every other field is kept, and an update never touches
    [createdAt].  With audit fields disabled the data is handed through. *)
Theorem audit_fields_are_stamped
    (this : Service) (h : Host) (data : obj) :
  NoDup (obj_keys data) ->
  (enableAuditFields (options this) = false ->
   prepareCreateData this h (VObj data) = VObj data /\
   prepareUpdateData this h (VObj data) = VObj data) /\
  (enableAuditFields (options this) = true ->
   let created := obj_set "updatedAt" (VDate (now h))
                    (obj_set "createdAt" (VDate (now h)) data) in
   let updated := obj_set "updatedAt" (VDate (now h)) data in
     prepareCreateData this h (VObj data) = VObj created /\
     prepareUpdateData this h (VObj data) = VObj updated /\
     obj_get "createdAt" created = VDate (now h) /\
     obj_get "updatedAt" created = VDate (now h) /\
     obj_get "updatedAt" updated = VDate (now h) /\
     obj_get "createdAt" updated = obj_get "createdAt" data /\
     (forall key, key <> "createdAt" -> key <> "updatedAt" ->
                  obj_get key created = obj_get key data /\
                  obj_get key updated = obj_get key data)).
Proof.
  intros Hnd. split.
  - intros Hoff. unfold prepareCreateData, prepareUpdateData. by rewrite Hoff.
  - intros Hon. unfold prepareCreateData, prepareUpdateData. rewrite Hon. simpl.
    rewrite assign_nil_copy by done.
    split; [done|]. split; [done|].
    split; [rewrite obj_get_set_ne by done; apply obj_get_set_eq|].
    split; [apply obj_get_set_eq|]. split; [apply obj_get_set_eq|].
    split; [by apply obj_get_set_ne|].
    intros key H1 H2. split.
    + by rewrite !obj_get_set_ne.
    + by rewrite obj_get_set_ne.
Qed.

Lemma audit_fields_are_stamped_witness :
  let audited := {| modelName := "Post";
                    options := {| enableSoftDelete := false; enableAuditFields := true;
                                  enableSSE := false; defaultPageSize := 10;
                                  maxPageSize := 1000 |};
                    filterMap := [] |} in
  prepareCreateData audited productionHost
    (VObj [("title", VStr "a"); ("createdAt", VDate "1999-01-01T00:00:00.000Z")])
  = VObj [("title", VStr "a"); ("createdAt", VDate "2026-01-01T00:00:00.000Z");
          ("updatedAt", VDate "2026-01-01T00:00:00.000Z")].
Proof.
  intros audited.
  assert (NoDup (obj_keys [("title", VStr "a");
                           ("createdAt", VDate "1999-01-01T00:00:00.000Z")])) as Hnd.
  { apply NoDup_cons. split; [|apply NoDup_singleton].
    rewrite list_elem_of_singleton. discriminate. }
  destruct (audit_fields_are_stamped audited productionHost _ Hnd) as [_ Hon].
  destruct (Hon eq_refl) as (Hcreated & _).
  etrans; [exact Hcreated|reflexivity].
Defined.

(** ** Failures of the reads *)

Lemma handleDatabaseError_foreign this h e operation :
  handleDatabaseError this h (Foreign e) operation
  = if bool_decide (code e = Some "P2025")
    then NotFoundError (modelName this +:+ " not found")
    else DatabaseError (safeMessage this operation)
           (if bool_decide (NODE_ENV h = Some "development")
            then Some [("originalError", VStr (message e)); ("code", optString (code e))]
            else None).
Proof. reflexivity. Qed.

(** X16. A read never lets the store's error through: when the store
    rejects, [findMany], [findById], [findOne], [count], [exists] and
    [findManyInternal] raise [NotFoundError] if the error code is P2025 and
    [DatabaseError] otherwise.  The message of the [DatabaseError] is the
    one of the operation for the first three ("Failed to retrieve <model>
    list", "Failed to retrieve <model>") and, no message being listed for
    the last three, "Database operation failed".  Of the two queries of
    [findMany] one rejects, or both do with the same error. *)
Theorem reads_map_store_failures
    (DB : Type) (M : ModelDelegate DB) (this : Service) (h : Host)
    (filters include omit : value) (w : World DB) (e : JsError) :
  let raised operationMessage :=
    if bool_decide (code e = Some "P2025")
    then NotFoundError (modelName this +:+ " not found")
    else DatabaseError operationMessage
           (if bool_decide (NODE_ENV h = Some "development")
            then Some [("originalError", VStr (message e)); ("code", optString (code e))]
            else None) in
  let name := toLowerCase (modelName this) in
  (model_findFirst (buildWhereClause this filters) include omit (db w) = Throw e ->
   findOne this h filters include omit w
   = Throw (raised ("Failed to retrieve " +:+ name))) /\
  (forall id,
      model_findFirst (buildWhereClause this (VObj [("id", id)])) include omit (db w) = Throw e ->
      findById this h id include omit w
      = Throw (raised ("Failed to retrieve " +:+ name))) /\
  (model_count (buildWhereClause this filters) (db w) = Throw e ->
   count this h filters w = Throw (raised "Database operation failed") /\
   exists_ this h filters w = Throw (raised "Database operation failed") /\
   forall pagination orderBy data,
     model_findMany
       {| fm_where := buildWhereClause this filters;
          fm_skip := Some (offset (normalizePagination (options this) pagination));
          fm_take := Some (limit (normalizePagination (options this) pagination));
          fm_orderBy := default (VObj [("id", VStr "desc")]) orderBy;
          fm_include := include; fm_omit := omit; fm_select := VUndefined |} (db w)
     = Normal data ->
     findMany this h filters pagination orderBy include omit w
     = Throw (raised ("Failed to retrieve " +:+ name +:+ " list"))) /\
  (forall pagination orderBy,
      model_findMany
        {| fm_where := buildWhereClause this filters;
           fm_skip := Some (offset (normalizePagination (options this) pagination));
           fm_take := Some (limit (normalizePagination (options this) pagination));
           fm_orderBy := default (VObj [("id", VStr "desc")]) orderBy;
           fm_include := include; fm_omit := omit; fm_select := VUndefined |} (db w)
      = Throw e ->
      (forall e', model_count (buildWhereClause this filters) (db w) = Throw e' -> e' = e) ->
      findMany this h filters pagination orderBy include omit w
      = Throw (raised ("Failed to retrieve " +:+ name +:+ " list"))) /\
  (forall orderBy limit,
      model_findMany
        {| fm_where := buildWhereClause this filters; fm_skip := None;
           fm_take := Some (or_default limit (maxPageSize (options this)));
           fm_orderBy := default (VObj [("id", VStr "desc")]) orderBy;
           fm_include := include; fm_omit := omit; fm_select := VUndefined |} (db w)
      = Throw e ->
      findManyInternal this h filters orderBy include omit limit w
      = Throw (raised "Database operation failed")).
Proof.
  intros raised name. subst raised name. cbv beta.
  split; [|split; [|split; [|split]]].
  - intros Hq. unfold findOne. rewrite Hq. by rewrite handleDatabaseError_foreign.
  - intros id Hq. unfold findById. rewrite Hq. by rewrite handleDatabaseError_foreign.
  - intros Hq. split; [|split].
    + unfold count. rewrite Hq. by rewrite handleDatabaseError_foreign.
    + unfold exists_. rewrite Hq. by rewrite handleDatabaseError_foreign.
    + intros pagination orderBy data Hdata. unfold findMany. rewrite Hdata, Hq.
      by rewrite handleDatabaseError_foreign.
  - intros pagination orderBy Hq _. unfold findMany. rewrite Hq.
    by rewrite handleDatabaseError_foreign.
  - intros orderBy limit Hq. unfold findManyInternal. rewrite Hq.
    by rewrite handleDatabaseError_foreign.
Qed.

(** The store is down: [count] in production, [findById] in development. *)
Lemma reads_map_store_failures_witness :
  @count unit offlineDelegate postService productionHost (VObj []) (mkWorld tt noClients)
  = Throw (DatabaseError "Database operation failed" None) /\
  @findById unit offlineDelegate postService developmentHost (VNum 1) VUndefined VUndefined
    (mkWorld tt noClients)
  = Throw (DatabaseError "Failed to retrieve post"
             (Some [("originalError", VStr "Can't reach database server at `db:5432`");
                    ("code", VStr "P1001")])).
Proof.
  destruct (reads_map_store_failures unit offlineDelegate postService productionHost
              (VObj []) VUndefined VUndefined (mkWorld tt noClients) connectionError)
    as (_ & _ & Hcount & _).
  destruct (reads_map_store_failures unit offlineDelegate postService developmentHost
              (VObj []) VUndefined VUndefined (mkWorld tt noClients) connectionError)
    as (_ & Hfind & _).
  split.
  - destruct (Hcount eq_refl) as [Hc _]. exact Hc.
  - exact (Hfind (VNum 1) eq_refl).
Defined.

(** ** What the caller learns of a store error *)

(** X17. Outside development the error [handleDatabaseError] raises holds
    nothing of the error it was given: it is determined by the model name,
    the operation and whether the code is P2025, so two store errors that
    agree on that (whatever their messages and codes) raise the same error,
    which is [NotFoundError "<model> not found"] or a [DatabaseError]
    without details.  In development a [DatabaseError] carries the original
    message and code. *)
Theorem handleDatabaseError_hides_the_store_error
    (this : Service) (h : Host) (operation : string) (e1 e2 : Thrown) :
  (NODE_ENV h <> Some "development" ->
   (thrownCode h e1 = Some "P2025" <-> thrownCode h e2 = Some "P2025") ->
   handleDatabaseError this h e1 operation = handleDatabaseError this h e2 operation /\
   (handleDatabaseError this h e1 operation
    = NotFoundError (modelName this +:+ " not found") \/
    handleDatabaseError this h e1 operation
    = DatabaseError (safeMessage this operation) None)) /\
  (NODE_ENV h = Some "development" ->
   thrownCode h e1 <> Some "P2025" ->
   handleDatabaseError this h e1 operation
   = DatabaseError (safeMessage this operation)
       (Some [("originalError", VStr (thrownMessage e1));
              ("code", optString (thrownCode h e1))])).
Proof.
  split.
  - intros Henv Hsame. split; [|by apply handleDatabaseError_production].
    unfold handleDatabaseError.
    rewrite (bool_decide_eq_false_2 (NODE_ENV h = Some "development")) by done.
    destruct (bool_decide (thrownCode h e1 = Some "P2025")) eqn:E1.
    + apply bool_decide_eq_true in E1. apply Hsame in E1. by rewrite bool_decide_eq_true_2.
    + apply bool_decide_eq_false in E1. rewrite bool_decide_eq_false_2; [done|].
      intros E2. by apply Hsame in E2.
  - intros Henv Hcode. rewrite handleDatabaseError_other by done.
    by rewrite bool_decide_eq_true_2.
Qed.

Lemma handleDatabaseError_hides_the_store_error_witness :
  handleDatabaseError postService productionHost
    (Foreign {| code := Some "P2002"; message := "Unique constraint failed on email" |})
    "create"
  = handleDatabaseError postService productionHost (Foreign connectionError) "create" /\
  handleDatabaseError postService productionHost (Foreign connectionError) "create"
  = DatabaseError "Failed to create post" None.
Proof.
  destruct (handleDatabaseError_hides_the_store_error postService productionHost "create"
              (Foreign {| code := Some "P2002";
                          message := "Unique constraint failed on email" |})
              (Foreign connectionError)) as [Hprod _].
  destruct Hprod as [Hsame _].
  - vm_compute. discriminate.
  - vm_compute. split; discriminate.
  - split; [exact Hsame|reflexivity].
Defined.

(** ** Mutations and their events *)

Lemma softDelete_keeps_sse {DB} `{ModelDelegate DB} (this : Service) (h : Host) id
    (w : World DB) :
  sse (softDelete this h id w).2 = sse w.
Proof. unfold softDelete, fail. by destruct (model_update _ _ _ _) as [[?|?] ?]. Qed.

(** X18. A mutation that fails broadcasts nothing: when [create],
    [updateById] or [deleteById] raises, the registry and every stream are
    as they were before the call; and [softDelete] on its own never
    broadcasts, whether it fails or not. *)
Theorem failed_mutation_broadcasts_nothing
    (DB : Type) (M : ModelDelegate DB) (this : Service) (h : Host)
    (id data include : value) (broadcastChannels : option (list string))
    (w w' : World DB) (error : AppError) :
  (create this h data include broadcastChannels w = (Throw error, w') -> sse w' = sse w) /\
  (updateById this h id data include broadcastChannels w = (Throw error, w') ->
   sse w' = sse w) /\
  (deleteById this h id broadcastChannels w = (Throw error, w') -> sse w' = sse w) /\
  sse (softDelete this h id w).2 = sse w.
Proof.
  pose proof (λ i, softDelete_keeps_sse this h i w) as Hsoft.
  split; [|split; [|split; [|apply Hsoft]]].
  - unfold create, fail. destruct (model_create _ _ _) as [[res|e] db'].
    + destruct (enableSSE (options this)); [|done].
      destruct (result_id res); [done|]. by intros [= _ <-].
    + by intros [= _ <-].
  - unfold updateById, fail. destruct (model_update _ _ _ _) as [[res|e] db'].
    + destruct broadcastChannels; [|done]. destruct (enableSSE (options this)); [|done].
      destruct (result_id res); [done|]. by intros [= _ <-].
    + by intros [= _ <-].
  - unfold deleteById, fail. destruct (enableSoftDelete (options this)).
    + specialize (Hsoft id). destruct (softDelete this h id w) as [[res|e] w1]; [done|].
      simpl in Hsoft. by intros [= _ <-].
    + destruct (model_delete _ _) as [[res|e] db']; [done|]. by intros [= _ <-].
Qed.

(** The store is down while a subscriber listens on "*". *)
Lemma failed_mutation_broadcasts_nothing_witness :
  let w := mkWorld tt {| sseClients := {[ "*" := [1%nat] ]}; streams := λ _, freshResponse |} in
  (@create unit offlineDelegate postService productionHost (VObj [("title", VStr "a")])
     VUndefined (Some ["orders"]) w).1
  = Throw (DatabaseError "Failed to create post" None) /\
  sse (@create unit offlineDelegate postService productionHost (VObj [("title", VStr "a")])
         VUndefined (Some ["orders"]) w).2 = sse w.
Proof.
  intros w. split; [reflexivity|].
  destruct (failed_mutation_broadcasts_nothing unit offlineDelegate postService
              productionHost (VNum 1) (VObj [("title", VStr "a")]) VUndefined
              (Some ["orders"]) w
              (@create unit offlineDelegate postService productionHost
                 (VObj [("title", VStr "a")]) VUndefined (Some ["orders"]) w).2
              (DatabaseError "Failed to create post" None)) as [Hcreate _].
  apply Hcreate. reflexivity.
Defined.

(** X19. The subscribers have no say in a mutation: what [create],
    [updateById] and [deleteById] return or raise, and the store they
    leave, do not depend on the registry or on the streams, so neither a
    dead nor a failing subscriber nor a payload that cannot be serialized
    makes a mutation fail. *)
Theorem mutation_outcome_ignores_subscribers
    (DB : Type) (M : ModelDelegate DB) (this : Service) (h : Host)
    (id data include : value) (broadcastChannels : option (list string))
    (store : DB) (s1 s2 : SSE) :
  ((create this h data include broadcastChannels (mkWorld store s1)).1
   = (create this h data include broadcastChannels (mkWorld store s2)).1 /\
   db (create this h data include broadcastChannels (mkWorld store s1)).2
   = db (create this h data include broadcastChannels (mkWorld store s2)).2) /\
  ((updateById this h id data include broadcastChannels (mkWorld store s1)).1
   = (updateById this h id data include broadcastChannels (mkWorld store s2)).1 /\
   db (updateById this h id data include broadcastChannels (mkWorld store s1)).2
   = db (updateById this h id data include broadcastChannels (mkWorld store s2)).2) /\
  ((deleteById this h id broadcastChannels (mkWorld store s1)).1
   = (deleteById this h id broadcastChannels (mkWorld store s2)).1 /\
   db (deleteById this h id broadcastChannels (mkWorld store s1)).2
   = db (deleteById this h id broadcastChannels (mkWorld store s2)).2).
Proof.
  split; [|split].
  - unfold create, fail. simpl db. destruct (model_create _ _ _) as [[res|e] db']; [|done].
    destruct (enableSSE (options this)); [|done]. by destruct (result_id res).
  - unfold updateById, fail. simpl db.
    destruct (model_update _ _ _ _) as [[res|e] db']; [|done].
    destruct broadcastChannels; [|done]. destruct (enableSSE (options this)); [|done].
    by destruct (result_id res).
  - unfold deleteById, softDelete, fail. simpl db.
    destruct (enableSoftDelete (options this)).
    + by destruct (model_update _ _ _ _) as [[res|e] db'].
    + by destruct (model_delete _ _) as [[res|e] db'].
Qed.

(** X20. A successful [deleteById] broadcasts [deleted] to the listed
    channels only, with the id it was called with in the payload: a handle
    registered on none of them is written nothing, the entry of "*" is
    left alone unless "*" is listed, and without a list, or with SSE
    disabled, nothing is broadcast. *)
Theorem deleteById_broadcasts_to_listed_channels
    (DB : Type) (M : ModelDelegate DB) (this : Service) (h : Host)
    (id : value) (broadcastChannels : option (list string))
    (w w' : World DB) (result : value) :
  deleteById this h id broadcastChannels w = (Normal result, w') ->
  sse w' = broadcastIfRequested this h broadcastChannels "deleted"
             (VObj [("id", id); ("model", VStr (modelName this)); ("data", result)]) (sse w) /\
  (forall client,
      (forall c, c ∈ default [] broadcastChannels ->
                 client ∉ clientsOf c (sseClients (sse w))) ->
      written (streams (sse w') client) = written (streams (sse w) client)) /\
  ("*" ∉ default [] broadcastChannels ->
   sseClients (sse w') !! "*" = sseClients (sse w) !! "*") /\
  (enableSSE (options this) = false \/ broadcastChannels = None -> sse w' = sse w) /\
  (forall channels client json,
      enableSSE (options this) = true -> broadcastChannels = Some channels ->
      JSON_stringify (VObj [("id", id); ("model", VStr (modelName this)); ("data", result)])
      = Normal json ->
      isDead (streams (sse w)) client = false ->
      writeFails (streams (sse w) client) = false ->
      received (streams (sse w')) client
      = received (streams (sse w)) client
        +:+ repeat_string (subscriptions client channels (sseClients (sse w)))
              (frame "deleted" (template_of json))).
Proof.
  intros Hdel.
  assert (sse w' = broadcastIfRequested this h broadcastChannels "deleted"
                     (eventPayload this id result) (sse w)) as Hsse.
  { pose proof (softDelete_keeps_sse this h id w) as Hsoft.
    unfold deleteById, fail in Hdel. destruct (enableSoftDelete (options this)).
    - destruct (softDelete this h id w) as [[res|e] w1]; [|done].
      injection Hdel as <- <-. simpl in *. by rewrite Hsoft.
    - destruct (model_delete _ _) as [[res|e] db']; [|done]. by injection Hdel as <- <-. }
  split; [done|]. rewrite Hsse. split; [|split; [|split]].
  - intros client Hout. by apply broadcastIfRequested_untouched.
  - intros Hout. by apply broadcastIfRequested_other_channel.
  - intros [Hoff| ->]; [|done]. unfold broadcastIfRequested.
    destruct broadcastChannels; [|done]. by rewrite Hoff.
  - intros channels client json Hon -> Hjson Hd Hf.
    rewrite broadcastIfRequested_on by done. simpl default.
    by destruct (broadcastToChannels_received (options this) (now h) "deleted"
                   (eventPayload this id result) channels (sse w) client json
                   Hon Hjson Hd Hf) as [-> _].
Qed.

(** Handle 1 listens on "*", handle 2 on "orders"; post 1 is deleted with
    the list ["orders"]. *)
Lemma deleteById_broadcasts_to_listed_channels_witness :
  let w : World Table.Table :=
    mkWorld [[("id", VNum 1); ("title", VStr "a")]]
      {| sseClients := {[ "*" := [1%nat]; "orders" := [2%nat] ]};
         streams := λ _, freshResponse |} in
  let w' := (deleteById postService productionHost (VNum 1) (Some ["orders"]) w).2 in
  written (streams (sse w') 1%nat) = [] /\
  db w' = [] /\
  match JSON_stringify (eventPayload postService (VNum 1)
                          (VObj [("id", VNum 1); ("title", VStr "a")])) with
  | Normal (Some json) => received (streams (sse w')) 2%nat = frame "deleted" json
  | _ => False
  end.
Proof.
  intros w w'.
  destruct (deleteById_broadcasts_to_listed_channels Table.Table Table.delegate postService
              productionHost (VNum 1) (Some ["orders"]) w w'
              (VObj [("id", VNum 1); ("title", VStr "a")]) eq_refl)
    as (_ & Hquiet & _ & _ & Hrec).
  split; [|split].
  - apply Hquiet. intros c Hc. apply list_elem_of_singleton in Hc as ->.
    vm_compute. intros Hin. apply list_elem_of_singleton in Hin. discriminate.
  - reflexivity.
  - cbv match beta. erewrite (Hrec ["orders"] 2%nat) by reflexivity. reflexivity.
Defined.

(** ** More on filters *)

(** X21. [mergeFilters], key by key, for an addition with distinct keys: a
    key the addition does not have keeps its value; a key the addition
    gives a scalar, [null] or an array takes that value, whatever the
    predicate held before (an object built by earlier fragments is
    dropped); a key the addition gives an object takes the object's
    properties laid over those of the current value, or the object's
    properties alone when the current value is missing or falsy. *)
Theorem mergeFilters_key_by_key (current addition : obj) (key : string) :
  NoDup (obj_keys addition) ->
  (obj_has key addition = false ->
   obj_get key (mergeFilters current addition) = obj_get key current) /\
  (obj_has key addition = true ->
   is_nonarray_object (obj_get key addition) = false ->
   obj_get key (mergeFilters current addition) = obj_get key addition) /\
  (forall o2, obj_get key addition = VObj o2 ->
              truthy (obj_get key current) = false ->
              NoDup (obj_keys o2) ->
              obj_get key (mergeFilters current addition) = VObj o2) /\
  (forall o1 o2, obj_get key addition = VObj o2 ->
                 obj_get key current = VObj o1 ->
                 obj_get key (mergeFilters current addition) = VObj (assign (assign [] o1) o2)).
Proof.
  intros Hnd. pose proof (mergeFilters_get current addition key Hnd) as Hget.
  split; [|split; [|split]].
  - intros Hh. by rewrite Hget, Hh.
  - intros Hh Hscalar. rewrite Hget, Hh. unfold mergedValue. by rewrite Hscalar.
  - intros o2 Ho2 Hfalsy Hnd2. rewrite Hget.
    destruct (obj_has key addition) eqn:Hh.
    + unfold mergedValue. rewrite Ho2, Hfalsy. simpl. unfold spread2. simpl.
      by rewrite assign_nil_copy.
    + apply obj_get_absent in Hh. congruence.
  - intros o1 o2 Ho2 Ho1. rewrite Hget.
    destruct (obj_has key addition) eqn:Hh.
    + unfold mergedValue. by rewrite Ho2, Ho1.
    + apply obj_get_absent in Hh. congruence.
Qed.

(** A status filter after a range on the same field by mistake: the range
    is lost. *)
Lemma mergeFilters_key_by_key_witness :
  let merged := mergeFilters [("price", VObj [("gte", VNum 10)]); ("status", VStr "draft")]
                             [("price", VNum 50)] in
  obj_get "price" merged = VNum 50 /\ obj_get "status" merged = VStr "draft".
Proof.
  intros merged.
  assert (NoDup (obj_keys [("price", VNum 50)])) as Hnd by apply NoDup_singleton.
  destruct (mergeFilters_key_by_key
              [("price", VObj [("gte", VNum 10)]); ("status", VStr "draft")]
              [("price", VNum 50)] "price" Hnd) as (_ & Hscalar & _).
  destruct (mergeFilters_key_by_key
              [("price", VObj [("gte", VNum 10)]); ("status", VStr "draft")]
              [("price", VNum 50)] "status" Hnd) as (Hkept & _).
  split; [exact (Hscalar eq_refl eq_refl)|exact (Hkept eq_refl)].
Defined.

(** X22. A [Date] given by a fragment as the value of a field does not
    survive [mergeFilters]: a [Date] is an object that is not an array, so
    it is spread like a range, and having no properties of its own it
    leaves the field with the properties the current value had, the empty
    object [{}] when the field was new.  The fragment [{createdAt: date}]
    gives the predicate [{createdAt: {}}]. *)
Theorem mergeFilters_drops_a_Date_value
    (current addition : obj) (field iso : string) :
  NoDup (obj_keys addition) ->
  obj_get field addition = VDate iso ->
  obj_get field (mergeFilters current addition)
  = VObj (assign [] (own_properties
                       (if truthy (obj_get field current) then obj_get field current
                        else VObj []))) /\
  (obj_has field current = false ->
   obj_get field (mergeFilters current addition) = VObj []) /\
  obj_get field (mergeFilters current addition) <> VDate iso.
Proof.
  intros Hnd Hdate.
  assert (obj_get field (mergeFilters current addition)
          = VObj (assign [] (own_properties
                       (if truthy (obj_get field current) then obj_get field current
                        else VObj [])))) as Hget.
  { rewrite mergeFilters_get by done. destruct (obj_has field addition) eqn:Hh.
    - unfold mergedValue. rewrite Hdate. reflexivity.
    - apply obj_get_absent in Hh. congruence. }
  split; [done|]. split.
  - intros Hnew. rewrite Hget, (obj_get_absent field current) by done. reflexivity.
  - by rewrite Hget.
Qed.

Lemma mergeFilters_drops_a_Date_value_witness :
  exists filters,
    applyFilters [("createdOn", λ v, [("createdAt", v)])]
      [("createdOn", VDate "2026-01-01T00:00:00.000Z")]
    = Normal filters /\
    obj_get "createdAt" filters = VObj [].
Proof.
  eexists. split; [reflexivity|].
  assert (NoDup (obj_keys [("createdAt", VDate "2026-01-01T00:00:00.000Z")])) as Hnd
    by apply NoDup_singleton.
  destruct (mergeFilters_drops_a_Date_value [] [("createdAt", VDate "2026-01-01T00:00:00.000Z")]
              "createdAt" "2026-01-01T00:00:00.000Z" Hnd eq_refl) as (_ & Hnew & _).
  exact (Hnew eq_refl).
Defined.

Lemma applyFilters_fold (fm : FilterMap) (query : obj)
    (acc : completion FilterTypeError obj) :
  foldl (λ acc kv,
           match acc with
           | Throw e => Throw e
           | Normal filters => applyEntry fm filters kv
           end) acc query
  = foldl (λ acc kv,
             match acc with
             | Throw e => Throw e
             | Normal filters => applyEntry fm filters kv
             end) acc (List.filter (found fm) query).
Proof.
  revert acc. induction query as [|kv query IH]; intros acc; [done|].
  change (List.filter (found fm) (kv :: query))
    with (if found fm kv then kv :: List.filter (found fm) query
          else List.filter (found fm) query).
  cbn [foldl]. rewrite IH. destruct (found fm kv) eqn:Hfound; [done|].
  f_equal. destruct acc as [filters|e]; [|done]. by apply applyEntry_not_found.
Qed.

(** X23. [applyFilters] acts on the entries of the query whose value is not
    [undefined] and whose key is found on [filterMap], as a registered
    handler or as a property inherited from [Object.prototype], wherever
    they stand: the other entries can be removed without changing the
    outcome, and a query without such an entry gives the empty predicate.
    A [null] value is passed to its handler like any other.  An inherited
    property is called as if it were a handler: under the key
    [constructor], when nothing is registered for it, a one-character
    string ends up in the predicate under the key [0], and the key
    [__proto__] with a defined value makes the call raise a TypeError,
    whatever else the query holds after it. *)
Theorem applyFilters_acts_on_the_keys_it_finds (fm : FilterMap) (query : obj) :
  applyFilters fm query = applyFilters fm (List.filter (found fm) query) /\
  ((forall kv, kv ∈ query -> found fm kv = false) -> applyFilters fm query = Normal []) /\
  (forall key handler,
      own_handler fm key = Some handler ->
      applyFilters fm [(key, VNull)] = Normal (mergeFilters [] (handler VNull)) /\
      applyFilters fm [(key, VUndefined)] = Normal []) /\
  (own_handler fm "constructor" = None ->
   forall c : ascii,
     applyFilters fm [("constructor", VStr (String c EmptyString))]
     = Normal [("0", VStr (String c EmptyString))]) /\
  (own_handler fm "__proto__" = None ->
   forall v, v <> VUndefined ->
     applyFilters fm (("__proto__", v) :: query) = Throw NotAFunction).
Proof.
  split; [apply applyFilters_fold|]. split; [|split; [|split]].
  - intros Hnone. unfold applyFilters. rewrite applyFilters_fold.
    by rewrite filter_all_false.
  - intros key handler Hk. unfold applyFilters. cbn [foldl].
    split; [|done]. by apply applyEntry_own.
  - intros Hown c. unfold applyFilters, applyEntry, filterMap_get. cbn [foldl fst snd].
    rewrite Hown. reflexivity.
  - intros Hown v Hv. unfold applyFilters. cbn [foldl].
    assert (applyEntry fm [] ("__proto__", v) = Throw NotAFunction) as ->.
    { unfold applyEntry, filterMap_get. cbn [fst snd]. rewrite Hown. by destruct v. }
    apply applyFilters_raised.
Qed.

(** A query of paging and sorting parameters and a range bound left
    undefined; and the keys [constructor] and [__proto__]. *)
Lemma applyFilters_acts_on_the_keys_it_finds_witness :
  applyFilters priceFilters
    [("page", VNum 2); ("minPrice", VUndefined); ("sort", VStr "asc")]
  = Normal [] /\
  applyFilters priceFilters [("constructor", VStr "x")] = Normal [("0", VStr "x")] /\
  applyFilters priceFilters [("__proto__", VStr "x"); ("minPrice", VNum 10)]
  = Throw NotAFunction.
Proof.
  destruct (applyFilters_acts_on_the_keys_it_finds priceFilters
              [("page", VNum 2); ("minPrice", VUndefined); ("sort", VStr "asc")])
    as (_ & Hnone & _ & Hconstructor & _).
  destruct (applyFilters_acts_on_the_keys_it_finds priceFilters [("minPrice", VNum 10)])
    as (_ & _ & _ & _ & Hproto).
  split; [|split].
  - apply Hnone. intros kv Hin.
    apply elem_of_cons in Hin as [->|Hin]; [reflexivity|].
    apply elem_of_cons in Hin as [->|Hin]; [reflexivity|].
    apply list_elem_of_singleton in Hin as ->. reflexivity.
  - exact (Hconstructor eq_refl "x"%char).
  - apply (Hproto eq_refl (VStr "x")). discriminate.
Defined.

(** ** The request id *)

(** X24. The middleware answers every request with the header
    [x-request-id] set to the id it gave the request, and touches no other
    response header.  The id is the request's own [x-request-id] when that
    is a non-empty string; when [x-request-id] is missing or empty it is the
    [x-correlation-id] if that is a string, the empty string included; and
    it is a fresh uuid otherwise, in particular whenever [x-request-id] is
    an array, whatever [x-correlation-id] holds. *)
Theorem requestId_echoes_or_generates
    (uuid : string) (headers : gmap string headerValue)
    (responseHeaders : gmap string string) :
  let id := (requestId uuid headers responseHeaders).1 in
  let out := (requestId uuid headers responseHeaders).2 in
  out !! "x-request-id" = Some id /\
  (forall name, name <> "x-request-id" -> out !! name = responseHeaders !! name) /\
  (forall s, headers !! "x-request-id" = Some (Single s) -> s <> EmptyString -> id = s) /\
  (forall s, headerTruthy (headers !! "x-request-id") = false ->
             headers !! "x-correlation-id" = Some (Single s) -> id = s) /\
  (forall l, headers !! "x-request-id" = Some (Multiple l) -> id = uuid) /\
  (headerTruthy (headers !! "x-request-id") = false ->
   (headers !! "x-correlation-id" = None \/
    exists l, headers !! "x-correlation-id" = Some (Multiple l)) ->
   id = uuid).
Proof.
  intros id out. subst id out. unfold requestId. simpl.
  split; [apply lookup_insert_eq|]. split.
  { intros name Hne. by rewrite lookup_insert_ne. }
  split.
  { intros s Hs Hne. rewrite Hs. simpl.
    destruct (String.eqb s EmptyString) eqn:E; [by apply String.eqb_eq in E|]. done. }
  split.
  { intros s Hfalsy Hc. by rewrite Hfalsy, Hc. }
  split.
  { intros l Hl. by rewrite Hl. }
  intros Hfalsy [Hc|[l Hc]]; by rewrite Hfalsy, Hc.
Qed.

Lemma requestId_echoes_or_generates_witness :
  (requestId "generated" {[ "x-request-id" := Single "abc" ]} ∅).1 = "abc" /\
  (requestId "generated" {[ "x-request-id" := Multiple ["a"; "b"];
                            "x-correlation-id" := Single "corr" ]} ∅).1 = "generated" /\
  (requestId "generated" {[ "x-correlation-id" := Single EmptyString ]} ∅).1 = EmptyString.
Proof.
  destruct (requestId_echoes_or_generates "generated" {[ "x-request-id" := Single "abc" ]} ∅)
    as (_ & _ & Hown & _).
  destruct (requestId_echoes_or_generates "generated"
              {[ "x-request-id" := Multiple ["a"; "b"];
                 "x-correlation-id" := Single "corr" ]} ∅) as (_ & _ & _ & _ & Harray & _).
  destruct (requestId_echoes_or_generates "generated"
              {[ "x-correlation-id" := Single EmptyString ]} ∅)
    as (_ & _ & _ & Hcorr & _).
  split; [|split].
  - apply (Hown "abc"); [reflexivity|discriminate].
  - apply (Harray ["a"; "b"]). reflexivity.
  - apply (Hcorr EmptyString); reflexivity.
Defined.

(** ** The application shell *)

Lemma Qfloor_nonneg (q : Q) : (0 <= q)%Q <-> (0 <= Qfloor q)%Z.
Proof.
  split; intros H.
  - apply (Qfloor_resp_le 0 q) in H. exact H.
  - eapply Qle_trans; [|apply Qfloor_le]. change 0%Q with (inject_Z 0).
    by rewrite <- Zle_Qle.
Qed.

Lemma Qfloor_div (q : Q) (n : positive) :
  Qfloor (q / inject_Z (Zpos n)) = (Qfloor q / Zpos n)%Z.
Proof.
  destruct q as [a b]. unfold Qdiv, Qmult, Qinv, inject_Z. simpl.
  rewrite Z.mul_1_r, Pos2Z.inj_mul. symmetry. apply Z.div_div; lia.
Qed.

Lemma Qtrunc_div (q : Q) (n : positive) :
  (0 <= q)%Q -> Qtrunc (q / inject_Z (Zpos n)) = (Qfloor q / Zpos n)%Z.
Proof.
  intros Hq. rewrite <- Qfloor_div.
  assert (0 <= q / inject_Z (Z.pos n))%Q as H.
  { apply Qfloor_nonneg. rewrite Qfloor_div. apply Z.div_pos; [by apply Qfloor_nonneg|lia]. }
  destruct (q / inject_Z (Z.pos n))%Q as [a b]. unfold Qtrunc, Qfloor. simpl.
  apply Z.quot_div_nonneg; [|lia]. unfold Qle in H. simpl in H. lia.
Qed.

Lemma Qfloor_sub (q : Q) (k : Z) : Qfloor (q - inject_Z k) = (Qfloor q - k)%Z.
Proof.
  destruct q as [a b]. unfold Qminus, Qplus, Qopp, inject_Z. simpl.
  rewrite Z.mul_1_r, Pos.mul_1_r.
  replace (a + - k * Z.pos b)%Z with (a + (- k) * Z.pos b)%Z by lia.
  rewrite Z.div_add by lia. lia.
Qed.

(** The whole part of [q % n] is the whole part of [q], modulo [n]. *)
Lemma Qfloor_Qrem (q : Q) (n : positive) :
  (0 <= q)%Q -> Qfloor (Qrem q (inject_Z (Zpos n))) = (Qfloor q mod Zpos n)%Z.
Proof.
  intros Hq. unfold Qrem. rewrite Qtrunc_div by done.
  rewrite (Qfloor_comp _ (q - inject_Z (Zpos n * (Qfloor q / Zpos n)))).
  - rewrite Qfloor_sub. rewrite Z.mod_eq by lia. done.
  - rewrite inject_Z_mult. reflexivity.
Qed.

Lemma Qrem_nonneg (q : Q) (n : positive) :
  (0 <= q)%Q -> (0 <= Qrem q (inject_Z (Zpos n)))%Q.
Proof.
  intros Hq. apply Qfloor_nonneg. rewrite Qfloor_Qrem by done.
  apply Z.mod_pos_bound. lia.
Qed.

Lemma uptimeParts_floor (seconds : Q) :
  (0 <= seconds)%Q ->
  Ignitor.uptimeParts seconds
  = ((Qfloor seconds / 86400)%Z,
     ((Qfloor seconds mod 86400) / 3600)%Z,
     (((Qfloor seconds mod 86400) mod 3600) / 60)%Z,
     (((Qfloor seconds mod 86400) mod 3600) mod 60)%Z).
Proof.
  intros Hs. unfold Ignitor.uptimeParts.
  change (3600 * 24)%Q with (inject_Z 86400).
  change 3600%Q with (inject_Z 3600). change 60%Q with (inject_Z 60).
  pose proof (Qrem_nonneg seconds 86400 Hs) as H1.
  pose proof (Qrem_nonneg _ 3600 H1) as H2.
  rewrite !Qfloor_div, !Qfloor_Qrem by done. done.
Qed.

(** X25. [formatUptime] drops the fraction of a second and splits the whole
    seconds of a non-negative uptime into days, hours below 24, minutes
    below 60 and seconds below 60 that add up to them again; it prints the
    four as [<d>d <h>h <m>m <s>s]. *)
Theorem formatUptime_decomposes (seconds : Q) :
  (0 <= seconds)%Q ->
  exists days hours minutes secs,
    Ignitor.uptimeParts seconds = (days, hours, minutes, secs) /\
    (0 <= days)%Z /\ (0 <= hours < 24)%Z /\ (0 <= minutes < 60)%Z /\ (0 <= secs < 60)%Z /\
    (days * 86400 + hours * 3600 + minutes * 60 + secs = Qfloor seconds)%Z /\
    Ignitor.formatUptime seconds
    = pretty days +:+ "d " +:+ pretty hours +:+ "h " +:+ pretty minutes +:+ "m "
      +:+ pretty secs +:+ "s".
Proof.
  intros Hs. eexists _, _, _, _. split; [by apply uptimeParts_floor|].
  apply Qfloor_nonneg in Hs as Hf. set (whole := Qfloor seconds) in *.
  pose proof (Z.mod_pos_bound whole 86400 ltac:(lia)) as H1.
  pose proof (Z.mod_pos_bound (whole mod 86400) 3600 ltac:(lia)) as H2.
  pose proof (Z.mod_pos_bound ((whole mod 86400) mod 3600) 60 ltac:(lia)) as H3.
  pose proof (Z.div_mod whole 86400 ltac:(lia)) as D1.
  pose proof (Z.div_mod (whole mod 86400) 3600 ltac:(lia)) as D2.
  pose proof (Z.div_mod ((whole mod 86400) mod 3600) 60 ltac:(lia)) as D3.
  split; [apply Z.div_pos; lia|].
  split; [split; [apply Z.div_pos; lia|apply Z.div_lt_upper_bound; lia]|].
  split; [split; [apply Z.div_pos; lia|apply Z.div_lt_upper_bound; lia]|].
  split; [lia|]. split; [lia|].
  unfold Ignitor.formatUptime. by rewrite uptimeParts_floor.
Qed.

(** One day, one hour, one minute and one second and a half. *)
Lemma formatUptime_decomposes_witness :
  Ignitor.formatUptime (900615 # 10) = "1d 1h 1m 1s".
Proof.
  assert (0 <= 900615 # 10)%Q as Hpos by (unfold Qle; simpl; lia).
  destruct (formatUptime_decomposes (900615 # 10) Hpos)
    as (days & hours & minutes & secs & Hparts & _ & _ & _ & _ & _ & Hfmt).
  injection Hparts as <- <- <- <-. exact Hfmt.
Defined.

Lemma shutdownLoop_take {W} (turns : nat) (modules : list (Ignitor.IgnitorModule W)) (w : W) :
  (turns <= length modules)%nat ->
  Ignitor.shutdownLoop turns modules w
  = foldl (λ w module, Ignitor.shutdownModule module w) w (reverse (take turns modules)).
Proof.
  revert w. induction turns as [|i IH]; intros w Hle; [done|].
  simpl. destruct (modules !! i) as [module|] eqn:E.
  - rewrite (take_S_r modules i module E), reverse_snoc. simpl. apply IH. lia.
  - apply lookup_ge_None in E. lia.
Qed.

(** X26. [shutdown] runs the [onShutdown] hooks of the registered modules
    in the reverse of the order of registration, each one once, a module
    without a hook being skipped and a hook that rejects not keeping the
    later ones from running; the module registered last by [registerModule]
    is shut down first; and [shutdown] resolves or rejects as the shutdown
    of the context does. *)
Theorem shutdown_runs_hooks_in_reverse
    (W : Type) (modules : list (Ignitor.IgnitorModule W))
    (contextShutdown : W -> completion JsError unit * W) (w : W) :
  Ignitor.shutdown modules contextShutdown w
  = contextShutdown
      (foldl (λ w module, Ignitor.shutdownModule module w) w (reverse modules)) /\
  (forall module,
      Ignitor.shutdown (Ignitor.registerModule module modules) contextShutdown w
      = Ignitor.shutdown modules contextShutdown (Ignitor.shutdownModule module w)) /\
  Ignitor.shutdown [] contextShutdown w = contextShutdown w.
Proof.
  assert (forall ms v, Ignitor.shutdown ms contextShutdown v
            = contextShutdown
                (foldl (λ w module, Ignitor.shutdownModule module w) v (reverse ms)))
    as Hrev.
  { intros ms v. unfold Ignitor.shutdown. rewrite shutdownLoop_take by done.
    by rewrite take_ge. }
  split; [apply Hrev|]. split; [|done].
  intros module. rewrite !Hrev. unfold Ignitor.registerModule. by rewrite reverse_snoc.
Qed.

(** Three modules that log their shutdown: the second has no hook and the
    third one's hook rejects. *)
Lemma shutdown_runs_hooks_in_reverse_witness :
  let logging (label : string) (fails : bool) : Ignitor.IgnitorModule (list string) :=
    Ignitor.mkModule label []
      (Some (λ log, (if fails then Throw connectionError else Normal tt, log ++ [label]))) in
  let modules :=
    Ignitor.registerModule (logging "mail" true)
      (Ignitor.registerModule (Ignitor.mkModule "static" [] None)
         (Ignitor.registerModule (logging "cache" false) [])) in
  Ignitor.shutdown modules (λ log, (Normal tt, log ++ ["context"])) []
  = (Normal tt, ["mail"; "cache"; "context"]).
Proof.
  intros logging modules.
  destruct (shutdown_runs_hooks_in_reverse (list string) modules
              (λ log, (Normal tt, log ++ ["context"])) []) as [Hrev _].
  etrans; [exact Hrev|reflexivity].
Defined.
